(** * zen3d: the gesture feature extractor and the particle state engine

    A shallow embedding of [components/HandTracker.tsx] (the function
    [processResults] and the smoothing state it owns) and of [App.tsx]
    (the hand-update callback with its clap detection, the shape-change
    effect and the [animate] loop), followed by the properties proved
    about them.  Around these sit the generator of [utils/shapes.ts],
    the frame loop [predictWebcam], the wiring of the extractor to the
    engine, and the stateless extractor that came before this one.

    Numbers.  JavaScript numbers are IEEE doubles and the particle
    buffers are [Float32Array]s.  The embedding reads every number as a
    real: rounding, NaN and infinities are outside the model, and every
    statement below is about the arithmetic the code writes down.  The
    one place where rounding decides what happens is the morph of the
    positions toward their targets, whose steps shrink until the store
    into the [Float32Array] swallows them: [Typed] is the particle
    update with that store ([Float32.fround], round to nearest binary32)
    written out, the arithmetic between two stores still exact.

    Randomness.  [Math.random()] is an input: a function giving the k-th
    draw made during one call.

    Arrays.  A [Float32Array] is a list of reals.  A write is stdpp's
    list insert, which like a typed array ignores an index out of range;
    a read out of range is [undefined] in the source and 0 here, and the
    loops stay in range whenever the three buffers hold three numbers
    per particle, which is how the code allocates them. *)

From Stdlib Require Import Reals Lra Lia List.
From stdpp Require Import base decidable list.
Import ListNotations.
Open Scope R_scope.

#[global] Instance R_eq_dec : EqDecision R := Req_dec_T.
#[global] Instance Rlt_rel_dec : RelDecision Rlt := Rlt_dec.
#[global] Instance Rgt_rel_dec : RelDecision Rgt := Rgt_dec.
#[global] Instance Rle_rel_dec : RelDecision Rle := Rle_dec.

(** ** The [Math] functions the code calls *)

Module Math.

Definition sqrt (v : R) : R := R_sqrt.sqrt v.
Definition pow (v : R) (n : nat) : R := v ^ n.
Definition abs (v : R) : R := Rabs v.
Definition max (a b : R) : R := Rmax a b.
Definition min (a b : R) : R := Rmin a b.

(** [Math.sign]: 1, -1 or 0. *)
Definition sign (v : R) : R :=
  if decide (0 < v) then 1 else if decide (v < 0) then -1 else 0.

End Math.

(** ** types.ts *)

Module HandData.

Record t : Type := mk {
  expansion : R;
  tension : R;
  isPresent : bool;
  centerX : R;
  centerY : R;
  rotation : R;
  twist : R;
  velocity : R;
  grabbing : bool
}.

End HandData.

(** ** components/HandTracker.tsx *)

Module Landmark.

(** A landmark of the detector; the code reads [x] and [y] only. *)
Record t : Type := mk { x : R; y : R }.

End Landmark.

(** One detected hand, [results.landmarks[k]]: the detector delivers 21
    landmarks per hand, read by index; index 0 is the wrist. *)
Definition Hand : Type := nat -> Landmark.t.

Module Smoothed.

(** [smoothedRef.current] *)
Record t : Type := mk {
  expansion : R;
  tension : R;
  centerX : R;
  centerY : R;
  rotation : R;
  twist : R;
  velocity : R
}.

Definition initial : t := mk 0.5 0 0 0 0 0 0.

End Smoothed.

Module PrevFrame.

(** [prevFrameRef.current] *)
Record t : Type := mk {
  centerX : R;
  centerY : R;
  timestamp : R;
  hand1Y : R;
  hand2Y : R
}.

Definition initial : t := mk 0 0 0 0 0.

End PrevFrame.

Module HandTracker.

(** The two refs [processResults] reads and mutates. *)
Record Refs : Type := mkRefs {
  smoothedRef : Smoothed.t;
  prevFrameRef : PrevFrame.t
}.

Definition initial : Refs := mkRefs Smoothed.initial PrevFrame.initial.

Definition lerp (current target speed : R) : R :=
  current + (target - current) * speed.

Definition smoothingSpeed : R := 0.15.

(** Fingertip indices. *)
Definition tips : list nat := [4; 8; 12; 16; 20]%nat.

(** [dist] of the expansion block: the distance between the two wrists. *)
Definition wristDistance (hand1 hand2 : Landmark.t) : R :=
  Math.sqrt (Math.pow (Landmark.x hand1 - Landmark.x hand2) 2 +
             Math.pow (Landmark.y hand1 - Landmark.y hand2) 2).

(** GESTURE: Expansion.  [rawExpansion] starts at 0.5 and is assigned
    only inside [if (results.landmarks.length === 2)]. *)
Definition rawExpansion (landmarks : list Hand) : R :=
  match landmarks with
  | [h1; h2] =>
      let dist := wristDistance (h1 0%nat) (h2 0%nat) in
      Math.max 0 (Math.min 1 ((dist - 0.1) * 1.5))
  | _ => 0.5
  end.

(** GESTURE: Rotation, inside the same two-hand block. *)
Definition rawRotation (landmarks : list Hand) (prevFrame : PrevFrame.t) : R :=
  match landmarks with
  | [h1; h2] =>
      let hand1YVel := Landmark.y (h1 0%nat) - PrevFrame.hand1Y prevFrame in
      let hand2YVel := Landmark.y (h2 0%nat) - PrevFrame.hand2Y prevFrame in
      if decide (Math.sign hand1YVel <> Math.sign hand2YVel)
      then Math.max (-1) (Math.min 1 ((hand2YVel - hand1YVel) * 10))
      else 0
  | _ => 0
  end.

(** GESTURE: Twist, inside the same two-hand block ([currentAngle] is
    computed by the source and never used). *)
Definition rawTwist (landmarks : list Hand) (prevFrame : PrevFrame.t) : R :=
  match landmarks with
  | [h1; h2] =>
      let hand1YVel := Landmark.y (h1 0%nat) - PrevFrame.hand1Y prevFrame in
      let hand2YVel := Landmark.y (h2 0%nat) - PrevFrame.hand2Y prevFrame in
      let hand1XVel := Landmark.x (h1 0%nat) - PrevFrame.centerX prevFrame in
      let twistIndicator :=
        Math.abs (hand1YVel - hand2YVel) + Math.abs hand1XVel in
      Math.min 1 (twistIndicator * 5)
  | _ => 0
  end.

(** The end of the two-hand block: [prevFrame.hand1Y = hand1.y;
    prevFrame.hand2Y = hand2.y]. *)
Definition storeHandY (landmarks : list Hand) (prevFrame : PrevFrame.t)
  : PrevFrame.t :=
  match landmarks with
  | [h1; h2] =>
      PrevFrame.mk (PrevFrame.centerX prevFrame) (PrevFrame.centerY prevFrame)
        (PrevFrame.timestamp prevFrame)
        (Landmark.y (h1 0%nat)) (Landmark.y (h2 0%nat))
  | _ => prevFrame
  end.

(** GESTURE: Tension.  The body of the outer [forEach] up to [t]. *)
Definition fingerDistance (landmarks : Hand) (idx : nat) : R :=
  let wrist := landmarks 0%nat in
  Math.sqrt (Math.pow (Landmark.x (landmarks idx) - Landmark.x wrist) 2 +
             Math.pow (Landmark.y (landmarks idx) - Landmark.y wrist) 2).

Definition handTension (landmarks : Hand) : R :=
  let avgDist :=
    fold_left (fun avgDist idx => avgDist + fingerDistance landmarks idx)
      tips 0 in
  let avgDist := avgDist / INR (length tips) in
  1 - Math.max 0 (Math.min 1 ((avgDist - 0.12) * 5)).

(** The outer [forEach]: [(totalTension, totalGrabbing)]. *)
Definition tensionPass (landmarks : list Hand) : R * nat :=
  fold_left
    (fun acc hand =>
       let t := handTension hand in
       (fst acc + t, if decide (t > 0.6) then S (snd acc) else snd acc))
    landmarks (0, 0%nat).

Definition rawTension (landmarks : list Hand) : R :=
  fst (tensionPass landmarks) / INR (length landmarks).

Definition grabbing (landmarks : list Hand) : bool :=
  bool_decide (snd (tensionPass landmarks) = length landmarks)
  && bool_decide (length landmarks = 2%nat).

(** GESTURE: Center Position.  The second [forEach]:
    [(rawCenterX, rawCenterY, count)] summed over the wrists. *)
Definition centerPass (landmarks : list Hand) : R * R * nat :=
  fold_left
    (fun acc hand =>
       let w := hand 0%nat in
       (fst (fst acc) + Landmark.x w, snd (fst acc) + Landmark.y w,
        S (snd acc)))
    landmarks (0, 0, 0%nat).

(** The raw velocity of the center block, from the center already
    divided by [count] and the previous frame as stored. *)
Definition rawVelocity (rawCenterX rawCenterY dt : R) (prevFrame : PrevFrame.t)
  : R :=
  let dx := rawCenterX - PrevFrame.centerX prevFrame in
  let dy := rawCenterY - PrevFrame.centerY prevFrame in
  Math.sqrt (dx * dx + dy * dy) / dt.

(** [processResults(results, timestamp)].  [results.landmarks] is [None]
    when the field is missing.  The result is the refs after the call
    and the value handed to [onHandUpdate]. *)
Definition processResults (results : option (list Hand)) (timestamp : R)
    (refs : Refs) : Refs * HandData.t :=
  let smoothed := smoothedRef refs in
  let prevFrame := prevFrameRef refs in
  match results with
  | None | Some [] =>
      (* Decay values when no hands present *)
      let smoothed' :=
        Smoothed.mk
          (lerp (Smoothed.expansion smoothed) 0.5 0.05)
          (lerp (Smoothed.tension smoothed) 0 0.05)
          (Smoothed.centerX smoothed)
          (Smoothed.centerY smoothed)
          (lerp (Smoothed.rotation smoothed) 0 0.05)
          (lerp (Smoothed.twist smoothed) 0 0.05)
          (lerp (Smoothed.velocity smoothed) 0 0.1) in
      (mkRefs smoothed' prevFrame,
       HandData.mk (Smoothed.expansion smoothed') (Smoothed.tension smoothed')
         false (Smoothed.centerX smoothed') (Smoothed.centerY smoothed')
         (Smoothed.rotation smoothed') (Smoothed.twist smoothed')
         (Smoothed.velocity smoothed') false)
  | Some landmarks =>
      let rawExpansion := rawExpansion landmarks in
      let rawRotation := rawRotation landmarks prevFrame in
      let rawTwist := rawTwist landmarks prevFrame in
      let prevFrame := storeHandY landmarks prevFrame in
      let rawTension := rawTension landmarks in
      let grabbing := grabbing landmarks in
      let '(rawCenterX, rawCenterY, count) := centerPass landmarks in
      let '(rawCenterX, rawCenterY, velocity, prevFrame) :=
        if decide (0 < count)%nat then
          let rawCenterX := rawCenterX / INR count in
          let rawCenterY := rawCenterY / INR count in
          (* Calculate velocity (for clap detection) *)
          let dt := (timestamp - PrevFrame.timestamp prevFrame) / 1000 in
          let velocity :=
            if bool_decide (dt > 0) && bool_decide (dt < 0.5) then
              lerp (Smoothed.velocity smoothed)
                (Math.min 1
                   (rawVelocity rawCenterX rawCenterY dt prevFrame * 2))
                0.3
            else Smoothed.velocity smoothed in
          (* Mirror X for intuitive control *)
          let rawCenterX := (1 - rawCenterX) * 2 - 1 in
          let rawCenterY := - ((1 - rawCenterY) * 2 - 1) in
          (rawCenterX, rawCenterY, velocity,
           PrevFrame.mk rawCenterX rawCenterY timestamp
             (PrevFrame.hand1Y prevFrame) (PrevFrame.hand2Y prevFrame))
        else (rawCenterX, rawCenterY, Smoothed.velocity smoothed, prevFrame) in
      (* Apply smoothing for stable output *)
      let smoothed' :=
        Smoothed.mk
          (lerp (Smoothed.expansion smoothed) rawExpansion smoothingSpeed)
          (lerp (Smoothed.tension smoothed) rawTension smoothingSpeed)
          (lerp (Smoothed.centerX smoothed) rawCenterX smoothingSpeed)
          (lerp (Smoothed.centerY smoothed) rawCenterY smoothingSpeed)
          (lerp (Smoothed.rotation smoothed) rawRotation
             (smoothingSpeed * 0.5))
          (lerp (Smoothed.twist smoothed) rawTwist (smoothingSpeed * 0.3))
          velocity in
      (mkRefs smoothed' prevFrame,
       HandData.mk (Smoothed.expansion smoothed') (Smoothed.tension smoothed')
         true (Smoothed.centerX smoothed') (Smoothed.centerY smoothed')
         (Smoothed.rotation smoothed') (Smoothed.twist smoothed')
         (Smoothed.velocity smoothed') grabbing)
  end.

(** A run of the extractor: one call per processed video frame, each a
    detection result with its timestamp; the emitted signals, in order. *)
Fixpoint run (frames : list (option (list Hand) * R)) (refs : Refs)
  : Refs * list HandData.t :=
  match frames with
  | [] => (refs, [])
  | (results, timestamp) :: rest =>
      let (refs', data) := processResults results timestamp refs in
      let (refs'', out) := run rest refs' in
      (refs'', data :: out)
  end.

End HandTracker.

(** ** utils/shapes.ts *)

Abbreviation Float32Array := (list R).

(** [a[i]] *)
Definition read (a : Float32Array) (i : nat) : R := nth i a 0.

(** [a[i] += d] and [a[i] *= c] *)
Definition add_at (a : Float32Array) (i : nat) (d : R) : Float32Array :=
  <[i := read a i + d]> a.
Definition mul_at (a : Float32Array) (i : nat) (c : R) : Float32Array :=
  <[i := read a i * c]> a.

(** [for (let i = 0; i < n; i++) body] over a loop state. *)
Definition for_loop {A : Type} (n : nat) (body : nat -> A -> A) (a : A) : A :=
  fold_left (fun acc i => body i acc) (seq 0 n) a.

Module shapes.

#[warnings="-abstract-large-number"]
Definition PARTICLE_COUNT : nat := 16000.

(** [generateParticles(shape, count)] allocates [count * 3] numbers and
    fills them with random samples of the shape.  The engine uses the
    result only as an array of that length; it enters the model as the
    array itself (the argument of [App.shapeChange] and [App.mount]). *)
Definition generated (count : nat) (a : Float32Array) : Prop :=
  length a = (count * 3)%nat.

End shapes.

(** ** App.tsx *)

Module CONFIG.

Definition lerpSpeed : R := 0.035.
Definition baseParticleSize : R := 0.15.
Definition glowIntensity : R := 0.85.
Definition idleRotationSpeed : R := 0.003.
Definition gestureResponseSpeed : R := 0.08.
Definition explosionForce : R := 2.0.
Definition explosionDecay : R := 0.92.

End CONFIG.

Module App.

(** [stateRef.current] *)
Record State : Type := mkState {
  hand : HandData.t;
  explosionActive : bool;
  explosionVelocities : Float32Array;
  currentScale : R;
  rotationVelocity : R;
  targets : Float32Array
}.

(** What the engine touches of the three.js objects: the position
    attribute's array, [points.rotation.x], [points.rotation.y],
    [points.scale] (set by [setScalar]) and [material.size]. *)
Record Points : Type := mkPoints {
  positions : Float32Array;
  rotation_x : R;
  rotation_y : R;
  scale : R;
  size : R
}.

(** The component: the state ref, [pointsRef.current] ([None] while it is
    null) and the React state [handPresent]. *)
Record World : Type := mkWorld {
  stateRef : State;
  pointsRef : option Points;
  handPresent : bool
}.

Definition initialHand : HandData.t :=
  HandData.mk 0.5 0 false 0 0 0 0 0 false.

Section Engine.

(** [PARTICLE_COUNT], imported from utils/shapes.ts (16000 there). *)
Variable PARTICLE_COUNT : nat.

(** [useRef({...})]: [generatedTargets] is [generateParticles(GALAXY)]. *)
Definition initial (generatedTargets : Float32Array) : World :=
  mkWorld
    (mkState initialHand false (replicate (PARTICLE_COUNT * 3) 0) 1.2 0
       generatedTargets)
    None false.

(** The three.js setup effect: [generatedPositions] is the second
    [generateParticles(GALAXY)], which becomes the position attribute. *)
Definition mount (generatedPositions : Float32Array) (w : World) : World :=
  mkWorld (stateRef w)
    (Some (mkPoints generatedPositions 0 0 1 CONFIG.baseParticleSize))
    (handPresent w).

(** The shape-change effect:
    [stateRef.current.targets = generateParticles(activeShape)]. *)
Definition shapeChange (generatedTargets : Float32Array) (w : World) : World :=
  let state := stateRef w in
  mkWorld
    (mkState (hand state) (explosionActive state) (explosionVelocities state)
       (currentScale state) (rotationVelocity state) generatedTargets)
    (pointsRef w) (handPresent w).

(** The body of the loop of the clap detection; [rand i] is the draw of
    iteration [i]. *)
Definition explodeStep (rand : nat -> R) (positions : Float32Array) (i : nat)
    (velocities : Float32Array) : Float32Array :=
  let i3 := (i * 3)%nat in
  let x := read positions i3 in
  let y := read positions (i3 + 1) in
  let z := read positions (i3 + 2) in
  let dist :=
    let d := Math.sqrt (x * x + y * y + z * z) in
    if decide (d = 0) then 1 else d in
  let force := CONFIG.explosionForce * (0.7 + rand i * 0.6) in
  let velocities := <[i3 := (x / dist) * force]> velocities in
  let velocities := <[(i3 + 1)%nat := (y / dist) * force]> velocities in
  let velocities := <[(i3 + 2)%nat := (z / dist) * force]> velocities in
  velocities.

(** The condition of the clap detection, [pointsRef.current] apart. *)
Definition clap (data : HandData.t) (state : State) : bool :=
  bool_decide (HandData.velocity data > 0.4)
  && bool_decide (HandData.expansion data < 0.25)
  && negb (explosionActive state).

(** [handleHandUpdate(data)] *)
Definition handleHandUpdate (rand : nat -> R) (data : HandData.t) (w : World)
  : World :=
  let state := stateRef w in
  let prevPresent := HandData.isPresent (hand state) in
  let handPresent' :=
    if decide (prevPresent <> HandData.isPresent data)
    then HandData.isPresent data else handPresent w in
  (* Clap detection *)
  match pointsRef w with
  | Some points =>
      if clap data state then
        let velocities :=
          for_loop PARTICLE_COUNT (explodeStep rand (positions points))
            (explosionVelocities state) in
        mkWorld
          (mkState data true velocities (currentScale state)
             (rotationVelocity state) (targets state))
          (pointsRef w) handPresent'
      else
        mkWorld
          (mkState data (explosionActive state) (explosionVelocities state)
             (currentScale state) (rotationVelocity state) (targets state))
          (pointsRef w) handPresent'
  | None =>
      mkWorld
        (mkState data (explosionActive state) (explosionVelocities state)
           (currentScale state) (rotationVelocity state) (targets state))
        (pointsRef w) handPresent'
  end.

(** [pull] of the particle update. *)
Definition pull (hand : HandData.t) (tension : R) : R :=
  if HandData.grabbing hand then 0.6 else (tension - 0.5) * 0.8.

(** The body of the particle loop of [animate].  The loop state is
    [(positions, velocities, maxVel)]; [targets] is only read.  In the
    branch without explosion iteration [i] makes three draws, numbered
    [i*3], [i*3+1] and [i*3+2]. *)
Definition particleStep (rand : nat -> R) (hand : HandData.t)
    (explosionActive : bool) (targets : Float32Array) (tension jitter : R)
    (i : nat) (s : Float32Array * Float32Array * R)
  : Float32Array * Float32Array * R :=
  let '(positions, velocities, maxVel) := s in
  let lerpSpeed := CONFIG.lerpSpeed in
  let i3 := (i * 3)%nat in
  let tx := read targets i3 in
  let ty := read targets (i3 + 1) in
  let tz := read targets (i3 + 2) in
  let '(tx, ty, tz) :=
    if HandData.grabbing hand || bool_decide (tension > 0.5) then
      let pull := pull hand tension in
      (tx * (1 - pull), ty * (1 - pull), tz * (1 - pull))
    else (tx, ty, tz) in
  if explosionActive then
    let positions := add_at positions i3 (read velocities i3) in
    let positions := add_at positions (i3 + 1) (read velocities (i3 + 1)) in
    let positions := add_at positions (i3 + 2) (read velocities (i3 + 2)) in
    let velocities := mul_at velocities i3 CONFIG.explosionDecay in
    let velocities := mul_at velocities (i3 + 1) CONFIG.explosionDecay in
    let velocities := mul_at velocities (i3 + 2) CONFIG.explosionDecay in
    let positions :=
      add_at positions i3 ((tx - read positions i3) * lerpSpeed * 0.4) in
    let positions :=
      add_at positions (i3 + 1)
        ((ty - read positions (i3 + 1)) * lerpSpeed * 0.4) in
    let positions :=
      add_at positions (i3 + 2)
        ((tz - read positions (i3 + 2)) * lerpSpeed * 0.4) in
    let vel :=
      Math.abs (read velocities i3) + Math.abs (read velocities (i3 + 1))
      + Math.abs (read velocities (i3 + 2)) in
    let maxVel := if decide (vel > maxVel) then vel else maxVel in
    (positions, velocities, maxVel)
  else
    let positions :=
      add_at positions i3
        ((tx - read positions i3) * lerpSpeed + (rand i3 - 0.5) * jitter) in
    let positions :=
      add_at positions (i3 + 1)
        ((ty - read positions (i3 + 1)) * lerpSpeed
         + (rand (i3 + 1)%nat - 0.5) * jitter) in
    let positions :=
      add_at positions (i3 + 2)
        ((tz - read positions (i3 + 2)) * lerpSpeed
         + (rand (i3 + 2)%nat - 0.5) * jitter) in
    (positions, velocities, maxVel).

(** One run of [animate] on the mounted scene. *)
Definition animate (rand : nat -> R) (state : State) (points : Points)
  : State * Points :=
  let hand := hand state in
  let targets := targets state in
  (* Scale *)
  let targetScale :=
    if HandData.isPresent hand then 0.5 + HandData.expansion hand * 2.0
    else 1.2 in
  let currentScale :=
    currentScale state
    + (targetScale - currentScale state) * CONFIG.gestureResponseSpeed in
  (* Rotation *)
  let '(rotationVelocity, rotation_x, rotation_y) :=
    if HandData.isPresent hand then
      let targetRotX := - HandData.centerY hand * 0.6 in
      let targetRotY := HandData.centerX hand * 0.6 in
      let rotationVelocity :=
        (rotationVelocity state + HandData.rotation hand * 0.015) * 0.92 in
      let rotation_x :=
        rotation_x points
        + (targetRotX - rotation_x points) * CONFIG.gestureResponseSpeed in
      let rotation_y :=
        rotation_y points
        + (targetRotY - rotation_y points) * CONFIG.gestureResponseSpeed in
      (rotationVelocity, rotation_x, rotation_y + rotationVelocity)
    else
      (rotationVelocity state * 0.92, rotation_x points * 0.995,
       rotation_y points + CONFIG.idleRotationSpeed) in
  (* Particle update *)
  let tension := if HandData.isPresent hand then HandData.tension hand else 0 in
  let jitter := tension * 0.1 in
  let '(positions, velocities, maxVel) :=
    for_loop PARTICLE_COUNT
      (particleStep rand hand (explosionActive state) targets tension jitter)
      (positions points, explosionVelocities state, 0) in
  let explosionActive :=
    if explosionActive state && bool_decide (maxVel < 0.008) then false
    else explosionActive state in
  (* Size pulse *)
  let twistPulse :=
    if HandData.isPresent hand then 1 + HandData.twist hand * 0.25 else 1 in
  (mkState hand explosionActive velocities currentScale rotationVelocity
     targets,
   mkPoints positions rotation_x rotation_y currentScale
     (CONFIG.baseParticleSize * twistPulse)).

(** A render tick: [animate] runs on the mounted scene only. *)
Definition tick (rand : nat -> R) (w : World) : World :=
  match pointsRef w with
  | Some points =>
      let (state, points) := animate rand (stateRef w) points in
      mkWorld state (Some points) (handPresent w)
  | None => w
  end.

(** [n] render ticks in a row; [rands k] are the draws of tick [k]. *)
Fixpoint ticks (rands : nat -> nat -> R) (n : nat) (w : World) : World :=
  match n with
  | O => w
  | S n => tick (rands n) (ticks rands n w)
  end.

(** The draws [Math.random()] can return. *)
Definition draws (rand : nat -> R) : Prop := forall k, 0 <= rand k < 1.

(** What the two callbacks and the effects can do to the component. *)
Inductive Event : Type :=
  | Mount (generatedPositions : Float32Array)
  | ShapeChange (generatedTargets : Float32Array)
  | HandUpdate (rand : nat -> R) (data : HandData.t)
  | Tick (rand : nat -> R).

Definition step (e : Event) (w : World) : World :=
  match e with
  | Mount a => mount a w
  | ShapeChange a => shapeChange a w
  | HandUpdate rand data => handleHandUpdate rand data w
  | Tick rand => tick rand w
  end.

(** The generated arrays have [PARTICLE_COUNT * 3] numbers and the draws
    are in [0, 1). *)
Definition admissible (e : Event) : Prop :=
  match e with
  | Mount a | ShapeChange a => shapes.generated PARTICLE_COUNT a
  | HandUpdate rand _ | Tick rand => draws rand
  end.

(** The worlds the component can be in. *)
Inductive reachable : World -> Prop :=
  | reachable_initial generatedTargets :
      shapes.generated PARTICLE_COUNT generatedTargets ->
      reachable (initial generatedTargets)
  | reachable_step e w :
      reachable w -> admissible e -> reachable (step e w).

End Engine.

End App.

(** ** Stores into a Float32Array *)

Module Float32.

(** The spacing of the binary32 numbers around [x], searched upward from
    exponent [e]: [2 ^ k] for the least [k >= e] with
    [|x| < 2 ^ (k + 24)], and [2 ^ (e + fuel)] when there is none. *)
Fixpoint spacing (fuel : nat) (e : Z) (x : R) : R :=
  match fuel with
  | O => powerRZ 2 e
  | S fuel =>
      if decide (Rabs x < powerRZ 2 (e + 24)) then powerRZ 2 e
      else spacing fuel (e + 1) x
  end.

(** Binary32 has 24 significant bits and the exponents -149 .. 104 of
    the last bit: [2 ^ -149] up to the first binade of normal numbers,
    [2 ^ 104] in the last one. *)
Definition ulp (x : R) : R := spacing 253 (-149) x.

(** The integer nearest to [y], the even one of the two on a tie. *)
Definition nearestEven (y : R) : Z :=
  let f := Int_part y in
  let r := y - IZR f in
  if decide (r < 1 / 2) then f
  else if decide (1 / 2 < r) then (f + 1)%Z
  else if Z.even f then f else (f + 1)%Z.

(** [Math.fround(x)], the number a Float32Array holds after [x] is
    stored in it: [x] rounded to the nearest multiple of the spacing
    around it.  Overflow to an infinity (from [2 ^ 128 - 2 ^ 103] on) is
    not part of it. *)
Definition fround (x : R) : R := IZR (nearestEven (x / ulp x)) * ulp x.

End Float32.

(** ** App.tsx: the particle update with the stores of its Float32Arrays *)

Module Typed.

Section Store.

(** What a store into a Float32Array makes of a number:
    [Float32.fround] in the program, the identity when the buffers are
    read as lists of exact reals (which gives [App.animate] back). *)
Variable store : R -> R.

Variable PARTICLE_COUNT : nat.

(** [a[i] += d] and [a[i] *= c]: the new value is computed, then
    stored. *)
Definition add_at (a : Float32Array) (i : nat) (d : R) : Float32Array :=
  <[i := store (read a i + d)]> a.
Definition mul_at (a : Float32Array) (i : nat) (c : R) : Float32Array :=
  <[i := store (read a i * c)]> a.

(** The body of the particle loop of [animate]. *)
Definition particleStep (rand : nat -> R) (hand : HandData.t)
    (explosionActive : bool) (targets : Float32Array) (tension jitter : R)
    (i : nat) (s : Float32Array * Float32Array * R)
  : Float32Array * Float32Array * R :=
  let '(positions, velocities, maxVel) := s in
  let lerpSpeed := CONFIG.lerpSpeed in
  let i3 := (i * 3)%nat in
  let tx := read targets i3 in
  let ty := read targets (i3 + 1) in
  let tz := read targets (i3 + 2) in
  let '(tx, ty, tz) :=
    if HandData.grabbing hand || bool_decide (tension > 0.5) then
      let pull := App.pull hand tension in
      (tx * (1 - pull), ty * (1 - pull), tz * (1 - pull))
    else (tx, ty, tz) in
  if explosionActive then
    let positions := add_at positions i3 (read velocities i3) in
    let positions := add_at positions (i3 + 1) (read velocities (i3 + 1)) in
    let positions := add_at positions (i3 + 2) (read velocities (i3 + 2)) in
    let velocities := mul_at velocities i3 CONFIG.explosionDecay in
    let velocities := mul_at velocities (i3 + 1) CONFIG.explosionDecay in
    let velocities := mul_at velocities (i3 + 2) CONFIG.explosionDecay in
    let positions :=
      add_at positions i3 ((tx - read positions i3) * lerpSpeed * 0.4) in
    let positions :=
      add_at positions (i3 + 1)
        ((ty - read positions (i3 + 1)) * lerpSpeed * 0.4) in
    let positions :=
      add_at positions (i3 + 2)
        ((tz - read positions (i3 + 2)) * lerpSpeed * 0.4) in
    let vel :=
      Math.abs (read velocities i3) + Math.abs (read velocities (i3 + 1))
      + Math.abs (read velocities (i3 + 2)) in
    let maxVel := if decide (vel > maxVel) then vel else maxVel in
    (positions, velocities, maxVel)
  else
    let positions :=
      add_at positions i3
        ((tx - read positions i3) * lerpSpeed + (rand i3 - 0.5) * jitter) in
    let positions :=
      add_at positions (i3 + 1)
        ((ty - read positions (i3 + 1)) * lerpSpeed
         + (rand (i3 + 1)%nat - 0.5) * jitter) in
    let positions :=
      add_at positions (i3 + 2)
        ((tz - read positions (i3 + 2)) * lerpSpeed
         + (rand (i3 + 2)%nat - 0.5) * jitter) in
    (positions, velocities, maxVel).

(** One run of [animate] on the mounted scene. *)
Definition animate (rand : nat -> R) (state : App.State) (points : App.Points)
  : App.State * App.Points :=
  let hand := App.hand state in
  let targets := App.targets state in
  (* Scale *)
  let targetScale :=
    if HandData.isPresent hand then 0.5 + HandData.expansion hand * 2.0
    else 1.2 in
  let currentScale :=
    App.currentScale state
    + (targetScale - App.currentScale state) * CONFIG.gestureResponseSpeed in
  (* Rotation *)
  let '(rotationVelocity, rotation_x, rotation_y) :=
    if HandData.isPresent hand then
      let targetRotX := - HandData.centerY hand * 0.6 in
      let targetRotY := HandData.centerX hand * 0.6 in
      let rotationVelocity :=
        (App.rotationVelocity state + HandData.rotation hand * 0.015) * 0.92 in
      let rotation_x :=
        App.rotation_x points
        + (targetRotX - App.rotation_x points) * CONFIG.gestureResponseSpeed in
      let rotation_y :=
        App.rotation_y points
        + (targetRotY - App.rotation_y points) * CONFIG.gestureResponseSpeed in
      (rotationVelocity, rotation_x, rotation_y + rotationVelocity)
    else
      (App.rotationVelocity state * 0.92, App.rotation_x points * 0.995,
       App.rotation_y points + CONFIG.idleRotationSpeed) in
  (* Particle update *)
  let tension := if HandData.isPresent hand then HandData.tension hand else 0 in
  let jitter := tension * 0.1 in
  let '(positions, velocities, maxVel) :=
    for_loop PARTICLE_COUNT
      (particleStep rand hand (App.explosionActive state) targets tension
         jitter)
      (App.positions points, App.explosionVelocities state, 0) in
  let explosionActive :=
    if App.explosionActive state && bool_decide (maxVel < 0.008) then false
    else App.explosionActive state in
  (* Size pulse *)
  let twistPulse :=
    if HandData.isPresent hand then 1 + HandData.twist hand * 0.25 else 1 in
  (App.mkState hand explosionActive velocities currentScale rotationVelocity
     targets,
   App.mkPoints positions rotation_x rotation_y currentScale
     (CONFIG.baseParticleSize * twistPulse)).

(** A render tick: [animate] runs on the mounted scene only. *)
Definition tick (rand : nat -> R) (w : App.World) : App.World :=
  match App.pointsRef w with
  | Some points =>
      let (state, points) := animate rand (App.stateRef w) points in
      App.mkWorld state (Some points) (App.handPresent w)
  | None => w
  end.

(** [n] render ticks in a row; [rands k] are the draws of tick [k]. *)
Fixpoint ticks (rands : nat -> nat -> R) (n : nat) (w : App.World)
  : App.World :=
  match n with
  | O => w
  | S n => tick (rands n) (ticks rands n w)
  end.

End Store.

End Typed.

(** ** utils/shapes.ts: the shape generator *)

(** Further [Math] functions of utils/shapes.ts. *)
Module MathFns.

(** [Math.pow(v, e)] for a base [v >= 0] and a positive real exponent. *)
Definition powr (v e : R) : R := if decide (v = 0) then 0 else Rpower v e.

(** [Math.cbrt(v)] for [v >= 0]. *)
Definition cbrt (v : R) : R := powr v (1 / 3).

(** [Math.floor] *)
Definition floor (v : R) : R := IZR (Int_part v).

(** [a % b] on numbers, for [a >= 0] and [b > 0]. *)
Definition fmod (a b : R) : R := a - b * floor (a / b).

End MathFns.

(** The enum of types.ts. *)
Inductive ShapeType : Type :=
  | SPHERE | HEART | FLOWER | SATURN | BUDDHA | FIREWORKS | DNA
  | GALAXY | TORNADO | LOTUS | INFINITY | PHOENIX | WAVE.

Module Generator.

(** [random(min, max)], from one draw. *)
Definition random (draw min max : R) : R := draw * (max - min) + min.

Definition TWO_PI : R := PI * 2.

(** Declared by the source and used nowhere. *)
Definition PHI : R := (1 + Math.sqrt 5) / 2.

(** The body of the loop of [generateParticles] up to the three stores:
    the point of particle [i].  [draw k] is the k-th call of
    [Math.random()] made by this iteration, in source order along the
    branch taken ([u] and [v] are always the first two).  [shape] is
    [None] for a value outside the enum, which the [switch] sends to
    [default]. *)
Definition point (shape : option ShapeType) (count i : nat) (draw : nat -> R)
  : R * R * R :=
  let u := draw 0%nat in
  let v := draw 1%nat in
  let theta := TWO_PI * u in
  let phi := acos (2 * v - 1) in
  let t := INR i / INR count in
  match shape with
  | Some SPHERE =>
      let r := 2.5 * MathFns.cbrt (draw 2%nat) in
      (r * sin phi * cos theta, r * sin phi * sin theta, r * cos phi)
  | Some HEART =>
      let angle := draw 2%nat * TWO_PI in
      let r := Math.sqrt (draw 3%nat) * 0.15 in
      let x := r * (16 * Math.pow (sin angle) 3) in
      let y :=
        r * (13 * cos angle - 5 * cos (2 * angle) - 2 * cos (3 * angle)
             - cos (4 * angle)) in
      let z := random (draw 4%nat) (-1) 1 * r * 10 in
      (x, y + 1, z)
  | Some FLOWER =>
      let k := 4 in
      let angle := u * TWO_PI in
      let rad := cos (k * angle) + 1.5 in
      let dist := v * 2 in
      (dist * rad * cos angle, dist * rad * sin angle,
       (draw 2%nat - 0.5) * 1.5 * (1 - dist / 2))
  | Some SATURN =>
      if decide (INR i < INR count * 0.4) then
        let r := 1.5 * MathFns.cbrt (draw 2%nat) in
        (r * sin phi * cos theta, r * sin phi * sin theta, r * cos phi)
      else
        let angle := draw 2%nat * TWO_PI in
        let dist := random (draw 3%nat) 2.2 4.5 in
        (dist * cos angle, (draw 4%nat - 0.5) * 0.1, dist * sin angle)
  | Some DNA =>
      let dnaT := INR i * 0.025 in
      let radius := 1.5 in
      let strand := INR (i mod 2) in
      let helixOffset := strand * PI in
      let x := cos (dnaT * 0.5 + helixOffset) * radius in
      let z := sin (dnaT * 0.5 + helixOffset) * radius in
      let y := INR i / INR count * 10 - 5 in
      (x + (draw 2%nat - 0.5) * 0.3, y, z + (draw 3%nat - 0.5) * 0.3)
  | Some BUDDHA =>
      let roll := draw 2%nat in
      if decide (roll < 0.4) then
        let r := 1.8 * Math.sqrt (draw 3%nat) in
        let a := draw 4%nat * TWO_PI in
        (r * cos a, draw 5%nat * 2 - 2.5, r * sin a * 0.8)
      else if decide (roll < 0.7) then
        let r := 1.2 * Math.sqrt (draw 3%nat) in
        let a := draw 4%nat * TWO_PI in
        (r * cos a, draw 5%nat * 2 - 0.5, r * sin a * 0.8)
      else if decide (roll < 0.9) then
        let r := 0.8 * MathFns.cbrt (draw 3%nat) in
        (r * sin phi * cos theta, r * sin phi * sin theta + 2, r * cos phi)
      else
        let angle := draw 3%nat * TWO_PI in
        let dist := 2.5 + draw 4%nat * 0.2 in
        (dist * cos angle, dist * sin angle + 2, (draw 5%nat - 0.5) * 0.1)
  | Some FIREWORKS =>
      let r := MathFns.powr (draw 2%nat) 0.5 * 4 in
      (r * sin phi * cos theta, r * sin phi * sin theta, r * cos phi)
  | Some GALAXY =>
      let armCount := 3%nat in
      let arm := INR (i mod armCount) in
      let armOffset := arm / INR armCount * TWO_PI in
      if decide (draw 2%nat < 0.25) then
        let r := Math.pow (draw 3%nat) 2 * 1.2 in
        (r * sin phi * cos theta, (draw 4%nat - 0.5) * 0.3,
         r * sin phi * sin theta)
      else
        let spiralT := MathFns.powr (draw 3%nat) 0.7 * 4 in
        let spiralAngle := spiralT * 1.2 + armOffset in
        let r := spiralT + 0.5 in
        let spread := 0.3 + spiralT * 0.15 in
        (r * cos spiralAngle + (draw 4%nat - 0.5) * spread,
         (draw 6%nat - 0.5) * 0.2 * (1 + spiralT * 0.1),
         r * sin spiralAngle + (draw 5%nat - 0.5) * spread)
  | Some TORNADO =>
      let height := draw 2%nat in
      let radius := 0.3 + height * 2.5 in
      let angle := height * 12 + draw 3%nat * 0.5 in
      let noise := draw 4%nat * 0.3 in
      ((radius + noise) * cos angle, height * 6 - 3,
       (radius + noise) * sin angle)
  | Some LOTUS =>
      let petalCount := 8%nat in
      let layer := MathFns.floor (draw 2%nat * 4) in
      let petal := INR (i mod petalCount) in
      let petalAngle := petal / INR petalCount * TWO_PI + layer * 0.2 in
      let petalT := draw 3%nat in
      let petalLength := 2.5 - layer * 0.4 in
      let petalWidth := 0.6 - layer * 0.1 in
      let curvature := petalT * petalT * 0.8 in
      let localX := (petalT - 0.5) * petalLength in
      let localY := sin (petalT * PI) * petalWidth in
      let lift := curvature * (1 - layer * 0.2) in
      (localX * cos petalAngle + (draw 4%nat - 0.5) * 0.15,
       localY + lift - 0.5,
       localX * sin petalAngle + (draw 5%nat - 0.5) * 0.15)
  | Some INFINITY =>
      let infT := t * TWO_PI * 2 in
      let scale := 3 in
      let thickness := 0.4 in
      let denom := 1 + sin infT * sin infT in
      let lemnX := scale * cos infT / denom in
      let lemnY := scale * sin infT * cos infT / denom in
      let tubeAngle := draw 2%nat * TWO_PI in
      let tubeR := draw 3%nat * thickness in
      (lemnX, tubeR * cos tubeAngle, lemnY + tubeR * sin tubeAngle)
  | Some PHOENIX =>
      let part := draw 2%nat in
      if decide (part < 0.4) then
        let wing := if decide (i mod 2 = 0)%nat then 1 else -1 in
        let wingT := draw 3%nat in
        let wingspan := 4 in
        let wingCurve := sin (wingT * PI) * 1.5 in
        (wing * wingT * wingspan, wingCurve - wingT * 0.5,
         (draw 4%nat - 0.5) * 0.3 * (1 - wingT))
      else if decide (part < 0.6) then
        let bodyT := draw 3%nat in
        let bodyR := 0.4 * Math.sqrt (1 - Math.pow (bodyT * 2 - 1) 2) in
        let bodyAngle := draw 4%nat * TWO_PI in
        (bodyR * cos bodyAngle, bodyT * 2 - 0.5, bodyR * sin bodyAngle * 0.6)
      else if decide (part < 0.75) then
        let headR := 0.35 * MathFns.cbrt (draw 3%nat) in
        (headR * sin phi * cos theta, headR * sin phi * sin theta + 1.8,
         headR * cos phi)
      else
        let flameT := MathFns.powr (draw 3%nat) 0.5 in
        let flameSpread := flameT * 1.5 in
        let flameAngle := draw 4%nat * TWO_PI in
        (cos flameAngle * flameSpread * 0.5, -1 - flameT * 3,
         sin flameAngle * flameSpread * 0.3)
  | Some WAVE =>
      let gridSize := Math.sqrt (INR count) in
      let gridX := MathFns.fmod (INR i) gridSize / gridSize in
      let gridZ := MathFns.floor (INR i / gridSize) / gridSize in
      let worldX := (gridX - 0.5) * 8 in
      let worldZ := (gridZ - 0.5) * 8 in
      let wave1 := sin (gridX * TWO_PI * 2 + gridZ * PI) * 0.5 in
      let wave2 := sin (gridX * TWO_PI * 3 - gridZ * TWO_PI) * 0.3 in
      let wave3 := cos (gridZ * TWO_PI * 1.5) * 0.2 in
      (worldX, wave1 + wave2 + wave3, worldZ)
  | None =>
      ((draw 2%nat - 0.5) * 5, (draw 3%nat - 0.5) * 5,
       (draw 4%nat - 0.5) * 5)
  end.

(** The three stores that end an iteration. *)
Definition store (i : nat) (p : R * R * R) (positions : Float32Array)
  : Float32Array :=
  let '(x, y, z) := p in
  let idx := (i * 3)%nat in
  let positions := <[idx := x]> positions in
  let positions := <[(idx + 1)%nat := y]> positions in
  let positions := <[(idx + 2)%nat := z]> positions in
  positions.

(** [generateParticles(shape, count)]; [rand i] are the draws of
    iteration [i]. *)
Definition generateParticles (shape : option ShapeType) (count : nat)
    (rand : nat -> nat -> R) : Float32Array :=
  for_loop count (fun i positions => store i (point shape count i (rand i)) positions)
    (replicate (count * 3) 0).

End Generator.

(** ** components/HandTracker.tsx: the frame loop, and the wiring of App.tsx *)

Module Webcam.

(** [lastVideoTime.current] with the two refs of [processResults]. *)
Record Tracker : Type := mkTracker {
  lastVideoTime : R;
  refs : HandTracker.Refs
}.

Definition initial : Tracker := mkTracker (-1) HandTracker.initial.

(** [predictWebcam()].  [ready] says that [handLandmarkerRef.current]
    and [videoRef.current] are both set; [currentTime] is
    [videoRef.current.currentTime], [startTimeMs] is [performance.now()]
    and [results] is what [detectForVideo] returns when it is called.
    The result is the tracker after the call, the signal handed to
    [onHandUpdate] if any, and whether the next animation frame was
    requested. *)
Definition predictWebcam (ready : bool) (currentTime startTimeMs : R)
    (results : option (list Hand)) (t : Tracker)
  : Tracker * option HandData.t * bool :=
  if negb ready then (t, None, false)
  else if decide (lastVideoTime t <> currentTime) then
    let (refs', data) :=
      HandTracker.processResults results startTimeMs (refs t) in
    (mkTracker currentTime refs', Some data, true)
  else (t, None, true).

End Webcam.

Module Wiring.

(** [<HandTracker onHandUpdate={handleHandUpdate} />]: the extractor's
    refs next to the component's world. *)
Record System : Type := mkSystem {
  tracker : HandTracker.Refs;
  world : App.World
}.

(** What can happen to the system: the effects of App.tsx, a processed
    video frame (its signal goes straight to [handleHandUpdate]) and a
    render tick. *)
Inductive Event : Type :=
  | Mount (generatedPositions : Float32Array)
  | ShapeChange (generatedTargets : Float32Array)
  | Frame (results : option (list Hand)) (timestamp : R) (rand : nat -> R)
  | Tick (rand : nat -> R).

Definition step (PARTICLE_COUNT : nat) (e : Event) (s : System) : System :=
  match e with
  | Mount a => mkSystem (tracker s) (App.mount a (world s))
  | ShapeChange a => mkSystem (tracker s) (App.shapeChange a (world s))
  | Frame results timestamp rand =>
      let (refs', data) :=
        HandTracker.processResults results timestamp (tracker s) in
      mkSystem refs' (App.handleHandUpdate PARTICLE_COUNT rand data (world s))
  | Tick rand => mkSystem (tracker s) (App.tick PARTICLE_COUNT rand (world s))
  end.

Definition initial (PARTICLE_COUNT : nat) (generatedTargets : Float32Array)
  : System :=
  mkSystem HandTracker.initial (App.initial PARTICLE_COUNT generatedTargets).

(** The system after a list of events, oldest first. *)
Definition run (PARTICLE_COUNT : nat) (events : list Event) (s : System)
  : System :=
  fold_left (fun s e => step PARTICLE_COUNT e s) events s.

End Wiring.

(** ** The earlier, stateless HandTracker.tsx *)

Module Legacy.

(** The earlier [HandData] of types.ts. *)
Record HandData : Type := mkHandData {
  expansion : R;
  tension : R;
  isPresent : bool;
  centerX : R;
  centerY : R
}.

(** The body of the tension [forEach] up to [t]. *)
Definition handTension (landmarks : Hand) : R :=
  let avgDist :=
    fold_left
      (fun avgDist idx => avgDist + HandTracker.fingerDistance landmarks idx)
      HandTracker.tips 0 in
  let avgDist := avgDist / INR (length HandTracker.tips) in
  1 - Math.max 0 (Math.min 1 ((avgDist - 0.15) * 4)).

(** [totalTension] after the [forEach]. *)
Definition totalTension (landmarks : list Hand) : R :=
  fold_left (fun totalTension hand => totalTension + handTension hand)
    landmarks 0.

(** [processResults(results)]: the value handed to [onHandUpdate]. *)
Definition processResults (results : option (list Hand)) : HandData :=
  match results with
  | None | Some [] => mkHandData 0.5 0 false 0 0
  | Some landmarks =>
      let expansion :=
        match landmarks with
        | [h1; h2] =>
            let dist := HandTracker.wristDistance (h1 0%nat) (h2 0%nat) in
            Math.max 0 (Math.min 1 ((dist - 0.1) * 1.5))
        | _ => 0.5
        end in
      let tension := totalTension landmarks / INR (length landmarks) in
      let '(centerX, centerY, count) := HandTracker.centerPass landmarks in
      let '(centerX, centerY) :=
        if decide (0 < count)%nat then
          let centerX := centerX / INR count in
          let centerY := centerY / INR count in
          let centerX := (1 - centerX) * 2 - 1 in
          let centerY := (1 - centerY) * 2 - 1 in
          let centerY := - centerY in
          (centerX, centerY)
        else (centerX, centerY) in
      mkHandData expansion tension true centerX centerY
  end.

End Legacy.

(** * Vocabulary of the statements *)

(** ** The particle engine *)

(** [vel] of the particle loop: the sum of the absolute components of
    the velocity of particle [i]. *)
Definition aggregate (velocities : Float32Array) (i : nat) : R :=
  Math.abs (read velocities (i * 3)) + Math.abs (read velocities (i * 3 + 1))
  + Math.abs (read velocities (i * 3 + 2)).

(** [maxVel] as the loop computes it over the first [n] particles. *)
Definition maxAggregate (n : nat) (velocities : Float32Array) : R :=
  for_loop n
    (fun i maxVel =>
       if decide (aggregate velocities i > maxVel) then aggregate velocities i
       else maxVel)
    0.

(** The termination threshold of [animate]. *)
Definition threshold : R := 0.008.

(** [tension] of [animate]: [hand.isPresent ? hand.tension : 0]. *)
Definition engineTension (hand : HandData.t) : R :=
  if HandData.isPresent hand then HandData.tension hand else 0.

(** A target coordinate after the optional pull toward the origin. *)
Definition resolvedTarget (hand : HandData.t) (t : R) : R :=
  if HandData.grabbing hand || bool_decide (engineTension hand > 0.5)
  then t * (1 - App.pull hand (engineTension hand)) else t.

(** One coordinate after a tick with the explosion on: velocity added,
    then a blend at [lerpSpeed * 0.4] toward the target. *)
Definition explodingPosition (p v t : R) : R :=
  let p := p + v in p + (t - p) * CONFIG.lerpSpeed * 0.4.

(** One coordinate after a tick with the explosion off: a blend at
    [lerpSpeed] toward the target plus the jitter of the draw [r]. *)
Definition morphingPosition (p t r jitter : R) : R :=
  p + ((t - p) * CONFIG.lerpSpeed + (r - 0.5) * jitter).

(** The invariant of the particle loop with the explosion on, after [n]
    iterations started from [(P, V, 0)]. *)
Definition explodingInvariant (hand : HandData.t) (targets P V : Float32Array)
    (n : nat) (s : Float32Array * Float32Array * R) : Prop :=
  let '(P', V', m) := s in
  length P' = length P /\ length V' = length V /\
  (forall j, read P' j =
     if decide (j < n * 3)%nat
     then explodingPosition (read P j) (read V j)
            (resolvedTarget hand (read targets j))
     else read P j) /\
  (forall j, read V' j =
     if decide (j < n * 3)%nat then read V j * CONFIG.explosionDecay
     else read V j) /\
  m = maxAggregate n V'.

(** The invariant of the particle loop with the explosion off. *)
Definition morphingInvariant (rand : nat -> R) (hand : HandData.t)
    (targets P V : Float32Array) (jitter : R) (n : nat)
    (s : Float32Array * Float32Array * R) : Prop :=
  let '(P', V', m) := s in
  length P' = length P /\ V' = V /\ m = 0 /\
  (forall j, read P' j =
     if decide (j < n * 3)%nat
     then morphingPosition (read P j) (resolvedTarget hand (read targets j))
            (rand j) jitter
     else read P j).

(** [Math.sqrt(x * x + y * y + z * z)] for particle [i]. *)
Definition originDistance (positions : Float32Array) (i : nat) : R :=
  let x := read positions (i * 3) in
  let y := read positions (i * 3 + 1) in
  let z := read positions (i * 3 + 2) in
  Math.sqrt (x * x + y * y + z * z).

(** [dist] of the clap loop: the distance, or 1 when it is 0. *)
Definition divisor (positions : Float32Array) (i : nat) : R :=
  if decide (originDistance positions i = 0) then 1
  else originDistance positions i.

(** [force] of the clap loop for particle [i]. *)
Definition force (rand : nat -> R) (i : nat) : R :=
  CONFIG.explosionForce * (0.7 + rand i * 0.6).

(** The invariant of the clap loop after [n] iterations started from
    the velocities [V]. *)
Definition explodeInvariant (rand : nat -> R) (P V : Float32Array) (n : nat)
    (V' : Float32Array) : Prop :=
  length V' = length V /\
  forall k a, (a < 3)%nat ->
    read V' (k * 3 + a) =
    if decide (k < n)%nat
    then read P (k * 3 + a) / divisor P k * force rand k
    else read V (k * 3 + a).

Definition active (w : App.World) : bool :=
  App.explosionActive (App.stateRef w).

Definition velocitiesOf (w : App.World) : Float32Array :=
  App.explosionVelocities (App.stateRef w).

Definition targetsOf (w : App.World) : Float32Array :=
  App.targets (App.stateRef w).

Definition positionsOf (w : App.World) : option Float32Array :=
  App.positions <$> App.pointsRef w.

(** The three buffers hold three numbers per particle. *)
Definition buffers (N : nat) (w : App.World) : Prop :=
  length (velocitiesOf w) = (N * 3)%nat /\
  length (targetsOf w) = (N * 3)%nat /\
  forall P, positionsOf w = Some P -> length P = (N * 3)%nat.

(** The clap condition on a signal, in a world. *)
Definition qualifies (data : HandData.t) (w : App.World) : Prop :=
  HandData.velocity data > 0.4 /\ HandData.expansion data < 0.25 /\
  active w = false.

(** No explosion, no grab, no tension: the particle loop only morphs. *)
Definition calm (w : App.World) : Prop :=
  active w = false /\
  HandData.grabbing (App.hand (App.stateRef w)) = false /\
  engineTension (App.hand (App.stateRef w)) = 0.

(** ** The feature extractor *)

(** No hand detected: [!results.landmarks || results.landmarks.length === 0]. *)
Definition absent (results : option (list Hand)) : Prop :=
  results = None \/ results = Some [].

Definition unitInterval (v : R) : Prop := 0 <= v <= 1.

Definition signedUnit (v : R) : Prop := -1 <= v <= 1.

(** The wrists of a detection result lie in the normalized image. *)
Definition normalized (results : option (list Hand)) : Prop :=
  forall landmarks hand, results = Some landmarks -> In hand landmarks ->
    unitInterval (Landmark.x (hand 0%nat)) /\
    unitInterval (Landmark.y (hand 0%nat)).

Definition smoothedInRange (s : Smoothed.t) : Prop :=
  unitInterval (Smoothed.expansion s) /\ unitInterval (Smoothed.tension s) /\
  unitInterval (Smoothed.twist s) /\ signedUnit (Smoothed.rotation s) /\
  signedUnit (Smoothed.centerX s) /\ signedUnit (Smoothed.centerY s).

Definition signalInRange (d : HandData.t) : Prop :=
  unitInterval (HandData.expansion d) /\ unitInterval (HandData.tension d) /\
  unitInterval (HandData.twist d) /\ signedUnit (HandData.rotation d) /\
  signedUnit (HandData.centerX d) /\ signedUnit (HandData.centerY d).

(** [rawCenterX] and [rawCenterY] after the division by [count]. *)
Definition meanX (landmarks : list Hand) : R :=
  fst (fst (HandTracker.centerPass landmarks)) / INR (length landmarks).

Definition meanY (landmarks : list Hand) : R :=
  snd (fst (HandTracker.centerPass landmarks)) / INR (length landmarks).

(** [dt] of the velocity block. *)
Definition elapsed (timestamp : R) (prevFrame : PrevFrame.t) : R :=
  (timestamp - PrevFrame.timestamp prevFrame) / 1000.

(** The smoothed velocity after a frame with hands. *)
Definition nextVelocity (landmarks : list Hand) (timestamp : R)
    (refs : HandTracker.Refs) : R :=
  let prevFrame := HandTracker.prevFrameRef refs in
  let v := Smoothed.velocity (HandTracker.smoothedRef refs) in
  let dt := elapsed timestamp prevFrame in
  if bool_decide (dt > 0) && bool_decide (dt < 0.5) then
    HandTracker.lerp v
      (Math.min 1
         (HandTracker.rawVelocity (meanX landmarks) (meanY landmarks) dt
            prevFrame * 2))
      0.3
  else v.

(** The smoothed values after a frame with hands. *)
Definition nextSmoothed (landmarks : list Hand) (timestamp : R)
    (refs : HandTracker.Refs) : Smoothed.t :=
  let s := HandTracker.smoothedRef refs in
  let prevFrame := HandTracker.prevFrameRef refs in
  Smoothed.mk
    (HandTracker.lerp (Smoothed.expansion s)
       (HandTracker.rawExpansion landmarks) HandTracker.smoothingSpeed)
    (HandTracker.lerp (Smoothed.tension s)
       (HandTracker.rawTension landmarks) HandTracker.smoothingSpeed)
    (HandTracker.lerp (Smoothed.centerX s)
       ((1 - meanX landmarks) * 2 - 1) HandTracker.smoothingSpeed)
    (HandTracker.lerp (Smoothed.centerY s)
       (- ((1 - meanY landmarks) * 2 - 1)) HandTracker.smoothingSpeed)
    (HandTracker.lerp (Smoothed.rotation s)
       (HandTracker.rawRotation landmarks prevFrame)
       (HandTracker.smoothingSpeed * 0.5))
    (HandTracker.lerp (Smoothed.twist s)
       (HandTracker.rawTwist landmarks prevFrame)
       (HandTracker.smoothingSpeed * 0.3))
    (nextVelocity landmarks timestamp refs).

(** The smoothed values after a frame without hands. *)
Definition decayed (s : Smoothed.t) : Smoothed.t :=
  Smoothed.mk
    (HandTracker.lerp (Smoothed.expansion s) 0.5 0.05)
    (HandTracker.lerp (Smoothed.tension s) 0 0.05)
    (Smoothed.centerX s) (Smoothed.centerY s)
    (HandTracker.lerp (Smoothed.rotation s) 0 0.05)
    (HandTracker.lerp (Smoothed.twist s) 0 0.05)
    (HandTracker.lerp (Smoothed.velocity s) 0 0.1).

(** The signal built from the smoothed values. *)
Definition emitted (s : Smoothed.t) (isPresent grabbing : bool) : HandData.t :=
  HandData.mk (Smoothed.expansion s) (Smoothed.tension s) isPresent
    (Smoothed.centerX s) (Smoothed.centerY s) (Smoothed.rotation s)
    (Smoothed.twist s) (Smoothed.velocity s) grabbing.

(** [new] is what a blend at [rate] toward [neutral] makes of [old]:
    the gap shrinks by the factor [1 - rate]; the value moves no farther
    from [neutral] and stays on its side of it. *)
Definition approach (neutral rate old new : R) : Prop :=
  new - neutral = (1 - rate) * (old - neutral) /\
  Rabs (new - neutral) <= Rabs (old - neutral) /\
  0 <= (new - neutral) * (old - neutral) /\
  (old <> neutral -> Rabs (new - neutral) < Rabs (old - neutral)).

Definition allAbsent (frames : list (option (list Hand) * R)) : Prop :=
  Forall (fun frame => absent (fst frame)) frames.

Definition allNormalized (frames : list (option (list Hand) * R)) : Prop :=
  Forall (fun frame => normalized (fst frame)) frames.

(** The velocity as the specification words it: the displacement of the
    center between two frames over the elapsed time, smoothed, then
    clamped to [0, 1]. *)
Definition velocityAsSpecified (v : R) (previousCenter center : R * R)
    (dt : R) : R :=
  let dx := fst center - fst previousCenter in
  let dy := snd center - snd previousCenter in
  Math.max 0
    (Math.min 1
       (HandTracker.lerp v (Math.sqrt (dx * dx + dy * dy) / dt) 0.3)).

(** ** Concrete inputs *)

(** A signal that meets the clap condition. *)
Definition clapData : HandData.t := HandData.mk 0.1 0 true 0 0 0 0 0.5 false.

(** One particle on the x axis at distance 1, mounted. *)
Definition mountedUnit : App.World :=
  App.mount [1; 0; 0] (App.initial 1 [0; 0; 0]).

Definition unitPoints : App.Points :=
  App.mkPoints [1; 0; 0] 0 0 1 CONFIG.baseParticleSize.

(** The same world after a clap with every draw 0.5. *)
Definition unitWorld : App.World :=
  App.handleHandUpdate 1 (fun _ => 0.5) clapData mountedUnit.

(** One particle at the origin, mounted. *)
Definition mountedOrigin : App.World :=
  App.mount [0; 0; 0] (App.initial 1 [1; 1; 1]).

Definition originPoints : App.Points :=
  App.mkPoints [0; 0; 0] 0 0 1 CONFIG.baseParticleSize.

(** The same world after a clap with every draw 0.5. *)
Definition originWorld : App.World :=
  App.handleHandUpdate 1 (fun _ => 0.5) clapData mountedOrigin.

(** A hand that does not move: every landmark at (0.25, 0.5). *)
Definition stillHand : Hand := fun _ => Landmark.mk 0.25 0.5.

(** ** More vocabulary: the gestures *)

(** The mean of the five fingertip-to-wrist distances of a hand
    ([avgDist] after the division). *)
Definition meanTipDistance (hand : Hand) : R :=
  (HandTracker.fingerDistance hand 4 + HandTracker.fingerDistance hand 8
   + HandTracker.fingerDistance hand 12 + HandTracker.fingerDistance hand 16
   + HandTracker.fingerDistance hand 20) / 5.

(** The two vertical displacements have the same sign: both positive,
    both negative or both zero. *)
Definition sameDirection (v1 v2 : R) : Prop :=
  (0 < v1 /\ 0 < v2) \/ (v1 < 0 /\ v2 < 0) \/ (v1 = 0 /\ v2 = 0).

(** ** More vocabulary: the render tick *)

(** [targetScale] of [animate]. *)
Definition targetScale (hand : HandData.t) : R :=
  if HandData.isPresent hand then 0.5 + HandData.expansion hand * 2.0
  else 1.2.

Definition handOf (w : App.World) : HandData.t := App.hand (App.stateRef w).

Definition scaleOf (w : App.World) : R := App.currentScale (App.stateRef w).

Definition spinOf (w : App.World) : R :=
  App.rotationVelocity (App.stateRef w).

(** The bound the spin accumulator keeps for rotation signals in
    [-1, 1]: the fixed point of [(b + 0.015) * 0.92 = b]. *)
Definition spinBound : R := 0.1725.

(** One particle at distance 1 that sits on its target, mounted. *)
Definition mountedShape : App.World :=
  App.mount [1; 0; 0] (App.initial 1 [1; 0; 0]).

(** ** More vocabulary: the whole pipeline *)

(** The smoothed fields whose range needs no assumption on the
    landmarks. *)
Definition coreInRange (s : Smoothed.t) : Prop :=
  unitInterval (Smoothed.expansion s) /\ unitInterval (Smoothed.tension s) /\
  unitInterval (Smoothed.twist s) /\ signedUnit (Smoothed.rotation s) /\
  unitInterval (Smoothed.velocity s).

Definition signalCoreInRange (d : HandData.t) : Prop :=
  unitInterval (HandData.expansion d) /\ unitInterval (HandData.tension d) /\
  unitInterval (HandData.twist d) /\ signedUnit (HandData.rotation d) /\
  unitInterval (HandData.velocity d).

(** The engine's view of a healthy system: the signal it holds has its
    core fields in range, and scale and spin are within their bounds. *)
Definition steady (s : Wiring.System) : Prop :=
  coreInRange (HandTracker.smoothedRef (Wiring.tracker s)) /\
  signalCoreInRange (handOf (Wiring.world s)) /\
  0.5 <= scaleOf (Wiring.world s) <= 2.5 /\
  - spinBound <= spinOf (Wiring.world s) <= spinBound.

(** A hand whose wrist is left of the image, at x = -1. *)
Definition outsideHand : Hand := fun _ => Landmark.mk (-1) 0.5.

(** ** More vocabulary: the shape generator *)

(** [c] lies in [[-b, b]]. *)
Definition within (b c : R) : Prop := - b <= c <= b.

Definition pointWithin (b : R) (p : R * R * R) : Prop :=
  within b (fst (fst p)) /\ within b (snd (fst p)) /\ within b (snd p).

(** Every draw of one iteration, and of a whole call, is in [0, 1). *)
Definition unitDraws (draw : nat -> R) : Prop := forall k, 0 <= draw k < 1.

Definition allUnitDraws (rand : nat -> nat -> R) : Prop :=
  forall i, unitDraws (rand i).

(** The invariant of the generator's loop after [n] iterations. *)
Definition generatorInvariant (shape : option ShapeType) (count : nat)
    (rand : nat -> nat -> R) (n : nat) (positions : Float32Array) : Prop :=
  length positions = (count * 3)%nat /\
  forall i, (i < count)%nat ->
    (read positions (i * 3), read positions (i * 3 + 1),
     read positions (i * 3 + 2))
    = if decide (i < n)%nat then Generator.point shape count i (rand i)
      else (0, 0, 0).

(** ** More vocabulary: numbers held in a Float32Array *)

(** [x] is a binary32 number: storing it changes nothing. *)
Definition binary32 (x : R) : Prop := Float32.fround x = x.

(** Every entry of the array is a binary32 number. *)
Definition typed (a : Float32Array) : Prop := Forall binary32 a.

(** The invariant of the particle loop with the explosion off and
    rounded stores, after [n] iterations started from [(P, V, 0)]. *)
Definition storedMorphingInvariant (store : R -> R) (rand : nat -> R)
    (hand : HandData.t) (targets P V : Float32Array) (jitter : R) (n : nat)
    (s : Float32Array * Float32Array * R) : Prop :=
  let '(P', V', m) := s in
  length P' = length P /\ V' = V /\ m = 0 /\
  (forall j, read P' j =
     if decide (j < n * 3)%nat
     then store (morphingPosition (read P j)
                   (resolvedTarget hand (read targets j)) (rand j) jitter)
     else read P j).

(** The blend of a calm tick before it is stored. *)
Definition blend (p t : R) : R := p + (t - p) * CONFIG.lerpSpeed.

(** One particle at 1 on the x axis whose new target is the next
    binary32 number, [1 + 2 ^ -23]. *)
Definition nextTargets : Float32Array := [1 + powerRZ 2 (-23); 0; 0].

Definition stalledWorld : App.World := App.shapeChange nextTargets mountedUnit.

(** Two hands that do not move, their wrists 0.08 apart around the
    middle of the image. *)
Definition stillPair : list Hand :=
  [fun _ => Landmark.mk 0.46 0.5; fun _ => Landmark.mk 0.54 0.5].

(** Five frames of them, 100 ms apart. *)
Definition stillFrames : list (option (list Hand) * R) :=
  [(Some stillPair, 1000); (Some stillPair, 1100); (Some stillPair, 1200);
   (Some stillPair, 1300); (Some stillPair, 1400)].

(** * Proofs *)

Lemma read_insert (a : Float32Array) (i j : nat) (v : R) :
  read (<[i := v]> a) j = if decide (i = j /\ (i < length a)%nat) then v else read a j.
Proof.
  unfold read. rewrite !nth_lookup, list_lookup_insert.
  destruct (decide _); reflexivity.
Qed.

Lemma read_add_at a i j d :
  read (add_at a i d) j = if decide (i = j /\ (i < length a)%nat) then read a i + d else read a j.
Proof. apply read_insert. Qed.

Lemma read_mul_at a i j c :
  read (mul_at a i c) j = if decide (i = j /\ (i < length a)%nat) then read a i * c else read a j.
Proof. apply read_insert. Qed.

Lemma length_add_at a i d : length (add_at a i d) = length a.
Proof. apply length_insert. Qed.

Lemma length_mul_at a i c : length (mul_at a i c) = length a.
Proof. apply length_insert. Qed.

Lemma read_add_at_eq a i d :
  (i < length a)%nat -> read (add_at a i d) i = read a i + d.
Proof. intros H. rewrite read_add_at. destruct (decide _) as [|n]; [reflexivity|]. exfalso; apply n; split; [reflexivity|exact H]. Qed.

Lemma read_add_at_ne a i j d : i <> j -> read (add_at a i d) j = read a j.
Proof. intros H. rewrite read_add_at. destruct (decide _) as [[e _]|]; [contradiction|reflexivity]. Qed.

Lemma read_mul_at_eq a i c :
  (i < length a)%nat -> read (mul_at a i c) i = read a i * c.
Proof. intros H. rewrite read_mul_at. destruct (decide _) as [|n]; [reflexivity|]. exfalso; apply n; split; [reflexivity|exact H]. Qed.

Lemma read_mul_at_ne a i j c : i <> j -> read (mul_at a i c) j = read a j.
Proof. intros H. rewrite read_mul_at. destruct (decide _) as [[e _]|]; [contradiction|reflexivity]. Qed.

Ltac array_reads :=
  repeat first
    [ rewrite length_add_at | rewrite length_mul_at
    | rewrite read_add_at_ne by lia | rewrite read_mul_at_ne by lia
    | rewrite read_add_at_eq by (repeat first [rewrite length_add_at | rewrite length_mul_at]; lia)
    | rewrite read_mul_at_eq by (repeat first [rewrite length_add_at | rewrite length_mul_at]; lia) ].

Ltac particle_index i j :=
  destruct (decide (j < S i * 3)%nat);
  [ destruct (decide (j < i * 3)%nat);
    [ | assert (j = (i * 3)%nat \/ j = (i * 3 + 1)%nat \/ j = (i * 3 + 2)%nat)
          as [-> | [-> | ->]] by lia ]
  | destruct (decide (j < i * 3)%nat); [lia|] ].

Lemma for_loop_S {A : Type} (n : nat) (body : nat -> A -> A) (a : A) :
  for_loop (S n) body a = body n (for_loop n body a).
Proof.
  unfold for_loop. rewrite seq_S, fold_left_app. reflexivity.
Qed.

Lemma for_loop_ind {A : Type} (Inv : nat -> A -> Prop) (n : nat)
    (body : nat -> A -> A) (a : A) :
  Inv 0%nat a ->
  (forall i s, (i < n)%nat -> Inv i s -> Inv (S i) (body i s)) ->
  Inv n (for_loop n body a).
Proof.
  intros H0 Hstep. induction n as [|n IH].
  - exact H0.
  - rewrite for_loop_S. apply Hstep; [lia|]. apply IH.
    intros i s Hi. apply Hstep. lia.
Qed.

Ltac index_cases :=
  repeat match goal with
         | |- context [decide ?P] => destruct (decide P)
         | H : _ /\ _ |- _ => destruct H
         end; subst; try lia; try lra; try reflexivity.

Section Loop.
Variables (rand : nat -> R) (hand : HandData.t) (targets P V : Float32Array).
Variable jitter : R.

Local Abbreviation tension := (engineTension hand).
Local Abbreviation stepA := (App.particleStep rand hand true targets tension jitter).
Local Abbreviation stepI := (App.particleStep rand hand false targets tension jitter).

Lemma resolved_cases (t1 t2 t3 : R) :
  (if HandData.grabbing hand || bool_decide (tension > 0.5)
   then (t1 * (1 - App.pull hand tension), t2 * (1 - App.pull hand tension), t3 * (1 - App.pull hand tension))
   else (t1, t2, t3)) = (resolvedTarget hand t1, resolvedTarget hand t2, resolvedTarget hand t3).
Proof. unfold resolvedTarget. destruct (_ || _); reflexivity. Qed.

Lemma maxAggregate_S n W :
  maxAggregate (S n) W =
  if decide (aggregate W n > maxAggregate n W) then aggregate W n else maxAggregate n W.
Proof. unfold maxAggregate. rewrite for_loop_S. reflexivity. Qed.

Lemma maxAggregate_ext n W W' :
  (forall j, (j < n * 3)%nat -> read W j = read W' j) ->
  maxAggregate n W = maxAggregate n W'.
Proof.
  induction n as [|n IH]; intros H; [reflexivity|].
  rewrite !maxAggregate_S, IH by (intros; apply H; lia).
  assert (aggregate W n = aggregate W' n) as ->.
  { unfold aggregate. rewrite !H by lia. reflexivity. }
  reflexivity.
Qed.

Lemma stepA_inv i s :
  (i * 3 + 3 <= length P)%nat -> (i * 3 + 3 <= length V)%nat ->
  explodingInvariant hand targets P V i s ->
  explodingInvariant hand targets P V (S i) (stepA i s).
Proof.
  intros HP HV. destruct s as [[P' V'] m]. intros (LP & LV & HPr & HVr & Hm).
  unfold App.particleStep. rewrite resolved_cases. cbv zeta.
  repeat split.
  - rewrite !length_add_at. exact LP.
  - rewrite !length_mul_at. exact LV.
  - intros j. particle_index i j; array_reads; rewrite ?HPr, ?HVr;
      repeat (destruct (decide _); try lia); reflexivity.
  - intros j. particle_index i j; array_reads; rewrite ?HVr;
      repeat (destruct (decide _); try lia); reflexivity.
  - rewrite maxAggregate_S.
    match goal with |- _ = (if decide (aggregate ?W _ > _) then _ else _) =>
      assert (maxAggregate i V' = maxAggregate i W) as <-
    end.
    { apply maxAggregate_ext. intros j Hj.
      array_reads. reflexivity. }
    rewrite <- Hm. reflexivity.
Qed.

Lemma stepI_inv i s :
  (i * 3 + 3 <= length P)%nat ->
  morphingInvariant rand hand targets P V jitter i s ->
  morphingInvariant rand hand targets P V jitter (S i) (stepI i s).
Proof.
  intros HP. destruct s as [[P' V'] m]. intros (LP & -> & -> & HPr).
  unfold App.particleStep. rewrite resolved_cases. cbv zeta.
  repeat split.
  - rewrite !length_add_at. exact LP.
  - intros j. particle_index i j; array_reads; rewrite ?HPr;
      repeat (destruct (decide _); try lia); reflexivity.
Qed.

Lemma loop_exploding n :
  (n * 3 <= length P)%nat -> (n * 3 <= length V)%nat ->
  explodingInvariant hand targets P V n (for_loop n stepA (P, V, 0)).
Proof.
  intros HP HV. apply for_loop_ind.
  - repeat split; intros; destruct (decide _); try lia; reflexivity.
  - intros i s Hi. apply stepA_inv; lia.
Qed.

Lemma loop_morphing n :
  (n * 3 <= length P)%nat -> morphingInvariant rand hand targets P V jitter n (for_loop n stepI (P, V, 0)).
Proof.
  intros HP. apply for_loop_ind.
  - repeat split; intros; destruct (decide _); try lia; reflexivity.
  - intros i s Hi. apply stepI_inv; lia.
Qed.

End Loop.

Lemma read_insert_eq (a : Float32Array) i v :
  (i < length a)%nat -> read (<[i := v]> a) i = v.
Proof.
  intros H. rewrite read_insert. destruct (decide _) as [|n]; [reflexivity|].
  exfalso; apply n; split; [reflexivity|exact H].
Qed.

Lemma read_insert_ne (a : Float32Array) i j v :
  i <> j -> read (<[i := v]> a) j = read a j.
Proof.
  intros H. rewrite read_insert.
  destruct (decide _) as [[e _]|]; [contradiction|reflexivity].
Qed.

Section Explode.
Variables (rand : nat -> R) (P V : Float32Array).

Lemma explodeStep_inv i V' :
  (i * 3 + 3 <= length V)%nat ->
  explodeInvariant rand P V i V' ->
  explodeInvariant rand P V (S i) (App.explodeStep rand P i V').
Proof.
  intros HV (LV & HVr). unfold App.explodeStep. cbv zeta.
  fold (originDistance P i). fold (divisor P i). fold (force rand i).
  split.
  - rewrite !length_insert. exact LV.
  - intros k a Ha. destruct (decide (k = i)) as [->|Hk].
    + destruct (decide (i < S i)%nat); [|lia].
      assert (a = 0 \/ a = 1 \/ a = 2)%nat as [-> | [-> | ->]] by lia.
      * rewrite Nat.add_0_r.
        rewrite !read_insert_ne by lia. rewrite read_insert_eq by lia.
        reflexivity.
      * rewrite read_insert_ne by lia.
        rewrite read_insert_eq by (rewrite length_insert; lia).
        reflexivity.
      * rewrite read_insert_eq by (rewrite !length_insert; lia).
        reflexivity.
    + rewrite !read_insert_ne by lia. rewrite HVr by exact Ha.
      repeat (destruct (decide _); try lia); reflexivity.
Qed.

Lemma loop_explode n :
  (n * 3 <= length V)%nat ->
  explodeInvariant rand P V n (for_loop n (App.explodeStep rand P) V).
Proof.
  intros HV. apply for_loop_ind.
  - split; [reflexivity|]. intros k a _. destruct (decide _); [lia|reflexivity].
  - intros i s Hi. apply explodeStep_inv. lia.
Qed.

End Explode.

Section Animate.
Variable N : nat.
Variables (rand : nat -> R) (state : App.State) (points : App.Points).

Local Abbreviation state' := (fst (App.animate N rand state points)).
Local Abbreviation points' := (snd (App.animate N rand state points)).

Lemma animate_frame :
  App.hand state' = App.hand state /\ App.targets state' = App.targets state.
Proof.
  unfold App.animate.
  destruct (HandData.isPresent (App.hand state)); cbv zeta;
    destruct (for_loop _ _ _) as [[P' V'] m]; split; reflexivity.
Qed.

Lemma animate_exploding :
  App.explosionActive state = true ->
  (N * 3 <= length (App.positions points))%nat ->
  (N * 3 <= length (App.explosionVelocities state))%nat ->
  length (App.positions points') = length (App.positions points) /\
  length (App.explosionVelocities state')
    = length (App.explosionVelocities state) /\
  (forall j, read (App.positions points') j =
     if decide (j < N * 3)%nat
     then explodingPosition (read (App.positions points) j)
            (read (App.explosionVelocities state) j)
            (resolvedTarget (App.hand state) (read (App.targets state) j))
     else read (App.positions points) j) /\
  (forall j, read (App.explosionVelocities state') j =
     if decide (j < N * 3)%nat
     then read (App.explosionVelocities state) j * CONFIG.explosionDecay
     else read (App.explosionVelocities state) j) /\
  App.explosionActive state' =
    negb (bool_decide
            (maxAggregate N (App.explosionVelocities state') < 0.008)).
Proof.
  intros Hact HP HV. unfold App.animate. rewrite Hact.
  match goal with |- context [for_loop N ?body ?init] =>
    assert (explodingInvariant (App.hand state) (App.targets state) (App.positions points)
              (App.explosionVelocities state) N (for_loop N body init))
      as Hloop by (apply loop_exploding; assumption)
  end.
  destruct (HandData.isPresent (App.hand state)); cbv zeta in *;
    destruct (for_loop _ _ _) as [[P' V'] m];
    destruct Hloop as (LP & LV & HPr & HVr & Hm); cbn [fst snd App.positions
      App.explosionVelocities App.explosionActive andb];
    (repeat split; [exact LP | exact LV | exact HPr | exact HVr |]);
    rewrite Hm; destruct (bool_decide _); reflexivity.
Qed.

Lemma animate_morphing :
  App.explosionActive state = false ->
  (N * 3 <= length (App.positions points))%nat ->
  length (App.positions points') = length (App.positions points) /\
  App.explosionVelocities state' = App.explosionVelocities state /\
  App.explosionActive state' = false /\
  (forall j, read (App.positions points') j =
     if decide (j < N * 3)%nat
     then morphingPosition (read (App.positions points) j)
            (resolvedTarget (App.hand state) (read (App.targets state) j))
            (rand j) (engineTension (App.hand state) * 0.1)
     else read (App.positions points) j).
Proof.
  intros Hact HP. unfold App.animate. rewrite Hact.
  match goal with |- context [for_loop N ?body ?init] =>
    assert (morphingInvariant rand (App.hand state) (App.targets state)
              (App.positions points) (App.explosionVelocities state)
              (engineTension (App.hand state) * 0.1) N (for_loop N body init))
      as Hloop by (apply loop_morphing; assumption)
  end.
  destruct (HandData.isPresent (App.hand state)) eqn:Hpres; cbv zeta in *;
    destruct (for_loop _ _ _) as [[P' V'] m];
    destruct Hloop as (LP & -> & -> & HPr); cbn [fst snd App.positions
      App.explosionVelocities App.explosionActive andb];
    (repeat split; [exact LP | exact HPr]).
Qed.

End Animate.

Lemma maxAggregate_nonneg n W : 0 <= maxAggregate n W.
Proof.
  induction n as [|n IH]; [unfold maxAggregate, for_loop; simpl; lra|].
  rewrite maxAggregate_S. destruct (decide _); lra.
Qed.


Lemma aggregate_scale W W' k c :
  0 <= c ->
  (forall j, (j < S k * 3)%nat -> read W' j = read W j * c) ->
  aggregate W' k = aggregate W k * c.
Proof.
  intros Hc H. unfold aggregate, Math.abs.
  rewrite !H by lia. rewrite !Rabs_mult, (Rabs_pos_eq c Hc). lra.
Qed.

Lemma maxAggregate_scale n W W' c :
  0 <= c ->
  (forall j, (j < n * 3)%nat -> read W' j = read W j * c) ->
  maxAggregate n W' = maxAggregate n W * c.
Proof.
  intros Hc. induction n as [|n IH]; intros H.
  - unfold maxAggregate, for_loop; simpl; lra.
  - rewrite !maxAggregate_S, IH by (intros; apply H; lia).
    rewrite (aggregate_scale W W' n c Hc H).
    pose proof (maxAggregate_nonneg n W).
    repeat destruct (decide _); nra.
Qed.

Section World.
Variable N : nat.

Lemma tick_unmounted rand w :
  App.pointsRef w = None -> App.tick N rand w = w.
Proof. intros H. unfold App.tick. rewrite H. reflexivity. Qed.

Lemma tick_mounted rand w points :
  App.pointsRef w = Some points ->
  App.tick N rand w =
  App.mkWorld (fst (App.animate N rand (App.stateRef w) points))
    (Some (snd (App.animate N rand (App.stateRef w) points)))
    (App.handPresent w).
Proof.
  intros H. unfold App.tick. rewrite H.
  destruct (App.animate _ _ _ _). reflexivity.
Qed.

Lemma tick_targets rand w : targetsOf (App.tick N rand w) = targetsOf w.
Proof.
  destruct (App.pointsRef w) as [p|] eqn:Hp.
  - rewrite (tick_mounted _ _ _ Hp). unfold targetsOf. cbn.
    apply animate_frame.
  - rewrite tick_unmounted by exact Hp. reflexivity.
Qed.

Lemma tick_buffers rand w : buffers N w -> buffers N (App.tick N rand w).
Proof.
  intros (HV & HT & HP).
  destruct (App.pointsRef w) as [p|] eqn:Hp.
  2:{ rewrite tick_unmounted by exact Hp. repeat split; assumption. }
  assert (length (App.positions p) = (N * 3)%nat) as LP.
  { apply HP. unfold positionsOf. rewrite Hp. reflexivity. }
  unfold velocitiesOf in HV.
  pose proof (tick_targets rand w) as HT'.
  rewrite (tick_mounted _ _ _ Hp) in *.
  unfold buffers, velocitiesOf, positionsOf. cbn [App.stateRef App.pointsRef fmap option_fmap option_map].
  destruct (App.explosionActive (App.stateRef w)) eqn:Hact.
  - destruct (animate_exploding N rand _ p Hact) as (L1 & L2 & _); try lia.
    repeat split; [lia | rewrite HT'; exact HT |].
    intros P [= <-]. lia.
  - destruct (animate_morphing N rand _ p Hact) as (L1 & L2 & _); try lia.
    repeat split; [rewrite L2; exact HV | rewrite HT'; exact HT |].
    intros P [= <-]. lia.
Qed.

End World.

Lemma clap_qualifies data w :
  App.clap data (App.stateRef w) = true <-> qualifies data w.
Proof.
  unfold App.clap, qualifies, active.
  rewrite !andb_true_iff, !bool_decide_eq_true, negb_true_iff. tauto.
Qed.

Section Update.
Variable N : nat.
Variables (rand : nat -> R) (data : HandData.t) (w : App.World).

Local Abbreviation w' := (App.handleHandUpdate N rand data w).

Lemma update_frame :
  App.pointsRef w' = App.pointsRef w /\ targetsOf w' = targetsOf w /\
  App.hand (App.stateRef w') = data.
Proof.
  unfold App.handleHandUpdate, targetsOf.
  destruct (App.pointsRef w) as [p|] eqn:Hp; [destruct (App.clap _ _)|];
    cbn; rewrite ?Hp; repeat split; reflexivity.
Qed.

Lemma update_fires points :
  App.pointsRef w = Some points -> qualifies data w ->
  active w' = true /\
  velocitiesOf w' =
    for_loop N (App.explodeStep rand (App.positions points)) (velocitiesOf w).
Proof.
  intros Hp Hq. apply clap_qualifies in Hq.
  unfold App.handleHandUpdate, active, velocitiesOf. rewrite Hp, Hq.
  split; reflexivity.
Qed.

Lemma update_idle :
  App.pointsRef w = None \/ ~ qualifies data w ->
  active w' = active w /\ velocitiesOf w' = velocitiesOf w.
Proof.
  intros H. unfold App.handleHandUpdate, active, velocitiesOf.
  destruct (App.pointsRef w) as [p|] eqn:Hp.
  - destruct (App.clap data (App.stateRef w)) eqn:Hc.
    + apply clap_qualifies in Hc. destruct H as [H|H]; [discriminate|tauto].
    + split; reflexivity.
  - split; reflexivity.
Qed.

Lemma update_buffers : buffers N w -> buffers N w'.
Proof.
  intros (HV & HT & HP).
  destruct update_frame as (Hpts & Htg & _).
  unfold buffers, positionsOf. rewrite Hpts, Htg.
  repeat split; try assumption.
  destruct (App.pointsRef w) as [p|] eqn:Hp.
  - destruct (App.clap data (App.stateRef w)) eqn:Hc.
    + apply clap_qualifies in Hc.
      destruct (update_fires p Hp Hc) as (_ & ->).
      destruct (loop_explode rand (App.positions p) (velocitiesOf w) N) as (L & _);
        [lia|]. rewrite L. exact HV.
    + destruct update_idle as (_ & ->); [|exact HV].
      right. intros Hq. apply clap_qualifies in Hq. congruence.
  - destruct update_idle as (_ & ->); [left; exact Hp|exact HV].
Qed.

End Update.

Lemma reachable_buffers N w : App.reachable N w -> buffers N w.
Proof.
  induction 1 as [T HT | e w Hw IH He].
  - unfold buffers, velocitiesOf, targetsOf, positionsOf. cbn.
    rewrite length_replicate. repeat split; [exact HT | discriminate].
  - destruct e as [a | a | rand data | rand]; cbn in *.
    + destruct IH as (HV & HT' & _). repeat split; try assumption.
      intros P [= <-]. exact He.
    + destruct IH as (HV & _ & HP). repeat split; assumption.
    + apply update_buffers. exact IH.
    + apply tick_buffers. exact IH.
Qed.

Lemma reachable_active_mounted N w :
  App.reachable N w -> active w = true -> exists points, App.pointsRef w = Some points.
Proof.
  induction 1 as [T HT | e w Hw IH He]; intros Hact.
  - discriminate.
  - destruct e as [a | a | rand data | rand]; cbn in *.
    + eexists. reflexivity.
    + apply IH. exact Hact.
    + destruct (update_frame N rand data w) as (-> & _).
      destruct (App.pointsRef w) as [p|] eqn:Hp; [eexists; reflexivity|].
      destruct (update_idle N rand data w) as (Ha & _); [left; exact Hp|].
      rewrite Ha in Hact. destruct (IH Hact) as [? ?]. discriminate.
    + destruct (App.pointsRef w) as [p|] eqn:Hp.
      * rewrite (tick_mounted _ _ _ _ Hp). eexists. reflexivity.
      * rewrite tick_unmounted in Hact by exact Hp. destruct (IH Hact) as [? ?]. discriminate.
Qed.

Section Decay.
Variable N : nat.

Lemma tick_points rand w :
  is_Some (App.pointsRef w) -> is_Some (App.pointsRef (App.tick N rand w)).
Proof.
  intros [p Hp]. rewrite (tick_mounted _ _ _ _ Hp). eexists. reflexivity.
Qed.

Lemma tick_exploding rand w :
  buffers N w -> is_Some (App.pointsRef w) -> active w = true ->
  (forall j, (j < N * 3)%nat ->
     read (velocitiesOf (App.tick N rand w)) j
     = read (velocitiesOf w) j * CONFIG.explosionDecay) /\
  maxAggregate N (velocitiesOf (App.tick N rand w))
  = maxAggregate N (velocitiesOf w) * CONFIG.explosionDecay /\
  active (App.tick N rand w)
  = negb (bool_decide
            (maxAggregate N (velocitiesOf (App.tick N rand w)) < threshold)).
Proof.
  intros (HV & HT & HP) [p Hp] Hact.
  assert (length (App.positions p) = (N * 3)%nat) as LP.
  { apply HP. unfold positionsOf. rewrite Hp. reflexivity. }
  rewrite (tick_mounted _ _ _ _ Hp). unfold active, velocitiesOf in *. cbn.
  destruct (animate_exploding N rand _ p Hact) as (_ & _ & _ & HVr & Ha);
    try lia.
  assert (forall j, (j < N * 3)%nat ->
     read (App.explosionVelocities (fst (App.animate N rand (App.stateRef w) p))) j
     = read (App.explosionVelocities (App.stateRef w)) j * CONFIG.explosionDecay)
    as Hr.
  { intros j Hj. rewrite HVr. destruct (decide _); [reflexivity|lia]. }
  repeat split.
  - exact Hr.
  - apply maxAggregate_scale; [unfold CONFIG.explosionDecay; lra | exact Hr].
  - exact Ha.
Qed.

Lemma tick_quiet rand w :
  buffers N w -> active w = false ->
  active (App.tick N rand w) = false /\
  velocitiesOf (App.tick N rand w) = velocitiesOf w.
Proof.
  intros (HV & HT & HP) Hact.
  destruct (App.pointsRef w) as [p|] eqn:Hp.
  - assert (length (App.positions p) = (N * 3)%nat) as LP.
    { apply HP. unfold positionsOf. rewrite Hp. reflexivity. }
    rewrite (tick_mounted _ _ _ _ Hp). unfold active, velocitiesOf in *. cbn.
    destruct (animate_morphing N rand _ p Hact) as (_ & HVr & Ha & _);
      [lia|]. split; assumption.
  - rewrite tick_unmounted by exact Hp. split; [exact Hact|reflexivity].
Qed.

Lemma ticks_buffers rands n w : buffers N w -> buffers N (App.ticks N rands n w).
Proof.
  intros H. induction n as [|n IH]; [exact H|]. cbn. apply tick_buffers, IH.
Qed.

Lemma ticks_points rands n w :
  is_Some (App.pointsRef w) -> is_Some (App.pointsRef (App.ticks N rands n w)).
Proof.
  intros H. induction n as [|n IH]; [exact H|]. cbn. apply tick_points, IH.
Qed.

Lemma decay_pow_pos n : 0 < CONFIG.explosionDecay ^ n.
Proof. apply pow_lt. unfold CONFIG.explosionDecay. lra. Qed.

Lemma decay_pow_S_le n M :
  0 <= M -> CONFIG.explosionDecay ^ S n * M <= CONFIG.explosionDecay ^ n * M.
Proof.
  intros HM. pose proof (decay_pow_pos n). cbn [pow].
  unfold CONFIG.explosionDecay in *. nra.
Qed.

Section Run.
Variables (rands : nat -> nat -> R) (w : App.World).
Hypothesis Hbuf : buffers N w.
Hypothesis Hpts : is_Some (App.pointsRef w).
Hypothesis Hact : active w = true.

Local Abbreviation after n := (App.ticks N rands n w).
Local Abbreviation M0 := (maxAggregate N (velocitiesOf w)).

(** While the explosion lasts, the velocities after [n] ticks are the
    triggered ones times [explosionDecay ^ n]; the flag after [n >= 1]
    ticks is on exactly when that has not brought the largest aggregate
    below the threshold. *)
Lemma decay_run n :
  (active (after n) = true <->
     n = 0%nat \/ threshold <= CONFIG.explosionDecay ^ n * M0) /\
  (active (after n) = true ->
     (forall j, (j < N * 3)%nat ->
        read (velocitiesOf (after n)) j
        = read (velocitiesOf w) j * CONFIG.explosionDecay ^ n) /\
     maxAggregate N (velocitiesOf (after n)) = CONFIG.explosionDecay ^ n * M0).
Proof.
  pose proof (maxAggregate_nonneg N (velocitiesOf w)) as HM0.
  induction n as [|n [IHa IHv]].
  - split; [tauto|]. intros _. split; [intros; cbn; lra | cbn; lra].
  - pose proof (ticks_buffers rands n w Hbuf) as Hb.
    pose proof (ticks_points rands n w Hpts) as Hp.
    cbn [App.ticks].
    destruct (active (App.ticks N rands n w)) eqn:Han.
    + destruct (IHv eq_refl) as (Hr & HM).
      destruct (tick_exploding (rands n) _ Hb Hp Han) as (Hr' & HM' & Ha').
      assert (maxAggregate N (velocitiesOf (App.tick N (rands n) (App.ticks N rands n w)))
              = CONFIG.explosionDecay ^ S n * M0) as HMS.
      { rewrite HM', HM. cbn [pow]. lra. }
      split.
      * rewrite Ha', HMS, negb_true_iff, bool_decide_eq_false. split.
        -- intros H. right. lra.
        -- intros [H|H]; [discriminate|lra].
      * intros _. split; [|exact HMS].
        intros j Hj. rewrite Hr', Hr by exact Hj. cbn [pow]. lra.
    + destruct (tick_quiet (rands n) _ Hb Han) as (Ha' & _).
      rewrite Ha'. split; [|discriminate].
      split; [discriminate|]. intros [H|H]; [discriminate|].
      exfalso. pose proof (decay_pow_S_le n M0 HM0).
      destruct IHa as [_ IHa]. 
      assert (n = 0%nat \/ threshold <= CONFIG.explosionDecay ^ n * M0) as Hn
        by (right; lra).
      apply IHa in Hn. discriminate.
Qed.


End Run.
End Decay.

Section Termination.
Variable N : nat.
Variables (rands : nat -> nat -> R) (w : App.World).
Hypothesis Hbuf : buffers N w.
Hypothesis Hpts : is_Some (App.pointsRef w).
Hypothesis Hact : active w = true.

Local Abbreviation after n := (App.ticks N rands n w).

Lemma active_downward n : active (after (S n)) = true -> active (after n) = true.
Proof.
  intros H. destruct (active (after n)) eqn:Hn; [reflexivity|].
  destruct (tick_quiet N (rands n) _ (ticks_buffers N rands n w Hbuf) Hn)
    as (H' & _).
  cbn [App.ticks] in H. congruence.
Qed.

Lemma active_before n m :
  (m <= n)%nat -> active (after n) = true -> active (after m) = true.
Proof.
  induction 1 as [|n Hle IH]; [tauto|]. intros H. apply IH, active_downward, H.
Qed.

Lemma decay_reaches_threshold :
  exists n, active (after n) = false.
Proof.
  pose proof (maxAggregate_nonneg N (velocitiesOf w)) as HM0.
  destruct (pow_lt_1_zero CONFIG.explosionDecay) with
    (y := threshold / (maxAggregate N (velocitiesOf w) + 1)) as [n0 Hn0].
  - unfold CONFIG.explosionDecay. rewrite Rabs_pos_eq; lra.
  - apply Rdiv_lt_0_compat; [unfold threshold|]; lra.
  - exists (S n0).
    destruct (active (after (S n0))) eqn:Hn; [|reflexivity]. exfalso.
    apply (proj1 (decay_run N rands w Hbuf Hpts Hact (S n0))) in Hn.
    destruct Hn as [Hn|Hn]; [discriminate|].
    specialize (Hn0 (S n0) ltac:(lia)).
    pose proof (decay_pow_pos (S n0)) as Hpos.
    rewrite Rabs_pos_eq in Hn0 by lra.
    set (M := maxAggregate N (velocitiesOf w)) in *.
    set (d := CONFIG.explosionDecay ^ S n0) in *.
    assert (d * (M + 1) < threshold) as Hlt.
    { apply (Rmult_lt_compat_r (M + 1)) in Hn0; [|lra].
      unfold Rdiv in Hn0. rewrite Rmult_assoc, Rinv_l in Hn0 by lra. lra. }
    unfold threshold in *. nra.
Qed.

Lemma explosion_ends_once :
  exists n, (0 < n)%nat /\
    (forall m, (m < n)%nat -> active (after m) = true) /\
    (forall m, (n <= m)%nat -> active (after m) = false).
Proof.
  destruct decay_reaches_threshold as [k Hk].
  induction k as [|k IH].
  - cbn in Hk. congruence.
  - destruct (active (after k)) eqn:Hk'.
    + exists (S k). split; [lia|]. split.
      * intros m Hm. apply (active_before k); [lia|exact Hk'].
      * intros m Hm. destruct (active (after m)) eqn:Ham; [|reflexivity].
        rewrite (active_before m (S k)) in Hk; [discriminate|lia|exact Ham].
    + apply IH. reflexivity.
Qed.

End Termination.

Lemma read_replicate n j : read (replicate n 0) j = 0.
Proof.
  unfold read. rewrite nth_lookup.
  destruct (replicate n 0 !! j) as [v|] eqn:H; [|reflexivity].
  apply lookup_replicate in H. destruct H as [-> _]. reflexivity.
Qed.


(** ** Two concrete worlds: one particle at distance 1, one at the origin *)

Lemma half_is_draw : App.draws (fun _ => 0.5).
Proof. intros k. lra. Qed.

Lemma mountedUnit_reachable : App.reachable 1 mountedUnit.
Proof.
  apply (App.reachable_step 1 (App.Mount [1; 0; 0])).
  - apply App.reachable_initial. reflexivity.
  - reflexivity.
Qed.

Lemma mountedOrigin_reachable : App.reachable 1 mountedOrigin.
Proof.
  apply (App.reachable_step 1 (App.Mount [0; 0; 0])).
  - apply App.reachable_initial. reflexivity.
  - reflexivity.
Qed.

Lemma clapData_qualifies : qualifies clapData mountedUnit.
Proof. unfold qualifies, clapData. cbn. repeat split; lra. Qed.

Lemma clapData_qualifies_origin : qualifies clapData mountedOrigin.
Proof. unfold qualifies, clapData. cbn. repeat split; lra. Qed.

Lemma unit_distance : originDistance [1; 0; 0] 0 = 1.
Proof.
  unfold originDistance, read, Math.sqrt. cbn.
  replace (1 * 1 + 0 * 0 + 0 * 0) with 1 by ring. apply sqrt_1.
Qed.

Lemma unitWorld_facts :
  App.reachable 1 unitWorld /\ active unitWorld = true /\
  velocitiesOf unitWorld = [2; 0; 0].
Proof.
  split.
  { apply (App.reachable_step 1 (App.HandUpdate (fun _ => 0.5) clapData));
      [exact mountedUnit_reachable | exact half_is_draw]. }
  unfold unitWorld.
  destruct (update_fires 1 (fun _ => 0.5) clapData mountedUnit unitPoints
              eq_refl clapData_qualifies) as (-> & ->).
  split; [reflexivity|].
  unfold velocitiesOf, for_loop, App.explodeStep, read, Math.sqrt. cbn.
  replace (1 * 1 + 0 * 0 + 0 * 0) with 1 by ring. rewrite sqrt_1.
  destruct (decide (1 = 0)); [lra|].
  unfold CONFIG.explosionForce. repeat f_equal; lra.
Qed.


Lemma originWorld_facts :
  App.reachable 1 originWorld /\ active originWorld = true /\
  velocitiesOf originWorld = [0; 0; 0].
Proof.
  split.
  { apply (App.reachable_step 1 (App.HandUpdate (fun _ => 0.5) clapData));
      [exact mountedOrigin_reachable | exact half_is_draw]. }
  unfold originWorld.
  destruct (update_fires 1 (fun _ => 0.5) clapData mountedOrigin originPoints
              eq_refl clapData_qualifies_origin) as (-> & ->).
  split; [reflexivity|].
  unfold velocitiesOf, for_loop, App.explodeStep, read. cbn.
  repeat f_equal; unfold Rdiv; ring.
Qed.

Lemma force_band rand k :
  App.draws rand -> 1.4 <= force rand k < 2.6.
Proof.
  intros H. specialize (H k). unfold force, CONFIG.explosionForce. lra.
Qed.

Section Radial.
Variables (P : Float32Array) (k : nat).

Local Abbreviation x := (read P (k * 3)).
Local Abbreviation y := (read P (k * 3 + 1)).
Local Abbreviation z := (read P (k * 3 + 2)).
Local Abbreviation d := (originDistance P k).

Lemma originDistance_sqr : d * d = x * x + y * y + z * z.
Proof. unfold originDistance, Math.sqrt. apply sqrt_sqrt. nra. Qed.

Lemma originDistance_nonneg : 0 <= d.
Proof. unfold originDistance, Math.sqrt. apply sqrt_pos. Qed.

Lemma at_origin : d = 0 <-> x = 0 /\ y = 0 /\ z = 0.
Proof.
  pose proof originDistance_sqr as H. split.
  - intros H0. rewrite H0 in H. repeat split; nra.
  - intros (Hx & Hy & Hz). rewrite Hx, Hy, Hz in H. nra.
Qed.

Lemma radial_unit :
  d <> 0 -> (x / d) * (x / d) + (y / d) * (y / d) + (z / d) * (z / d) = 1.
Proof.
  intros Hd. pose proof originDistance_sqr as H.
  transitivity ((x * x + y * y + z * z) / (d * d)); [field; exact Hd|].
  rewrite <- H. field. exact Hd.
Qed.

End Radial.

Lemma aggregate_pos_of_unit (ux uy uz f : R) :
  ux * ux + uy * uy + uz * uz = 1 -> 0 < f ->
  0 < Rabs (ux * f) + Rabs (uy * f) + Rabs (uz * f).
Proof.
  intros Hu Hf.
  pose proof (Rabs_pos (ux * f)). pose proof (Rabs_pos (uy * f)).
  pose proof (Rabs_pos (uz * f)).
  destruct (Req_dec ux 0) as [Hx|Hx].
  - destruct (Req_dec uy 0) as [Hy|Hy].
    + assert (uz <> 0) as Hz by (intros ->; subst; lra).
      assert (0 < Rabs (uz * f)) by (apply Rabs_pos_lt; nra). lra.
    + assert (0 < Rabs (uy * f)) by (apply Rabs_pos_lt; nra). lra.
  - assert (0 < Rabs (ux * f)) by (apply Rabs_pos_lt; nra). lra.
Qed.

(** C1, as amended.  In a mounted scene of a reachable world a hand
    update whose signal qualifies (velocity above 0.4, expansion below
    0.25, no explosion on) sets [explosionActive] and gives every
    particle [k] a velocity computed from its current position: off the
    origin it is the unit vector from the origin to the particle times
    an impulse in the band [1.4, 2.6), and it is not zero; exactly at the
    origin the distance is replaced by 1 and the velocity is zero.  An
    update that does not qualify, in particular any update while the
    explosion is on, leaves the flag and the velocities as they are. *)
Theorem clap_trigger (N : nat) (rand : nat -> R) (data : HandData.t)
    (w : App.World) (points : App.Points) :
  App.reachable N w -> App.draws rand -> App.pointsRef w = Some points ->
  let w' := App.handleHandUpdate N rand data w in
  let P := App.positions points in
  let V' := velocitiesOf w' in
  (qualifies data w ->
     active w' = true /\
     forall k, (k < N)%nat ->
       let f := force rand k in
       let d := originDistance P k in
       1.4 <= f < 2.6 /\
       (d <> 0 ->
          read V' (k * 3) = read P (k * 3) / d * f /\
          read V' (k * 3 + 1) = read P (k * 3 + 1) / d * f /\
          read V' (k * 3 + 2) = read P (k * 3 + 2) / d * f /\
          (read P (k * 3) / d) * (read P (k * 3) / d)
          + (read P (k * 3 + 1) / d) * (read P (k * 3 + 1) / d)
          + (read P (k * 3 + 2) / d) * (read P (k * 3 + 2) / d) = 1 /\
          0 < aggregate V' k) /\
       (d = 0 ->
          read V' (k * 3) = 0 /\ read V' (k * 3 + 1) = 0 /\
          read V' (k * 3 + 2) = 0)) /\
  (~ qualifies data w ->
     active w' = active w /\ V' = velocitiesOf w).
Proof.
  intros Hw Hr Hp. cbv zeta. split.
  - intros Hq. destruct (update_fires N rand data w points Hp Hq) as (Ha & HV).
    split; [exact Ha|]. intros k Hk. rewrite HV.
    destruct (reachable_buffers N w Hw) as (LV & _).
    destruct (loop_explode rand (App.positions points) (velocitiesOf w) N)
      as (_ & Hread); [lia|].
    pose proof (Hread k 0%nat ltac:(lia)) as H0.
    pose proof (Hread k 1%nat ltac:(lia)) as H1.
    pose proof (Hread k 2%nat ltac:(lia)) as H2.
    rewrite Nat.add_0_r in H0.
    destruct (decide (k < N)%nat); [|lia].
    pose proof (force_band rand k Hr) as Hf.
    split; [exact Hf|]. unfold divisor in *. split.
    + intros Hd. destruct (decide _) as [|_]; [contradiction|].
      pose proof (radial_unit (App.positions points) k Hd) as Hu.
      repeat split; try assumption.
      unfold aggregate, Math.abs. rewrite H0, H1, H2.
      apply aggregate_pos_of_unit; [exact Hu|lra].
    + intros Hd. destruct (decide _) as [_|]; [|contradiction].
      apply at_origin in Hd. destruct Hd as (Hx & Hy & Hz).
      rewrite H0, H1, H2, Hx, Hy, Hz. repeat split; lra.
  - intros Hq. apply update_idle. right. exact Hq.
Qed.

(** C1, counterexample.  One particle at the origin, a qualifying clap:
    the explosion is on and the particle's velocity is zero, where the
    claim gives every particle a velocity that is not zero. *)
Lemma clap_origin_particle :
  App.reachable 1 mountedOrigin /\ qualifies clapData mountedOrigin /\
  positionsOf mountedOrigin = Some [0; 0; 0] /\
  active originWorld = true /\ velocitiesOf originWorld = [0; 0; 0].
Proof.
  split; [exact mountedOrigin_reachable|].
  split; [exact clapData_qualifies_origin|]. split; [reflexivity|].
  exact (proj2 originWorld_facts).
Qed.

(** C2.  From a reachable world with the explosion on, the flag after
    [m] ticks is on exactly when [m = 0] or the largest aggregate
    velocity, which every tick multiplies by [explosionDecay], is still
    at or above the threshold; hence there is one tick count [n >= 1]
    before which the flag is on and from which on it stays off.  No tick
    counter enters: the end is decided by the decayed velocities. *)
Theorem explosion_self_terminates (N : nat) (rands : nat -> nat -> R)
    (w : App.World) :
  App.reachable N w -> active w = true ->
  (forall m,
     active (App.ticks N rands m w) = true <->
     m = 0%nat \/
     threshold
     <= CONFIG.explosionDecay ^ m * maxAggregate N (velocitiesOf w)) /\
  (exists n, (0 < n)%nat /\
     (forall m, (m < n)%nat -> active (App.ticks N rands m w) = true) /\
     (forall m, (n <= m)%nat -> active (App.ticks N rands m w) = false)).
Proof.
  intros Hw Hact.
  pose proof (reachable_buffers N w Hw) as Hb.
  destruct (reachable_active_mounted N w Hw Hact) as [p Hp].
  assert (is_Some (App.pointsRef w)) as Hs by (eexists; exact Hp).
  split.
  - intros m. apply (decay_run N rands w Hb Hs Hact m).
  - apply explosion_ends_once; assumption.
Qed.







Lemma pull_band (hand : HandData.t) (tension : R) :
  HandData.grabbing hand = false -> 0.5 < tension <= 1 ->
  0 < App.pull hand tension <= 0.4.
Proof. intros Hg Ht. unfold App.pull. rewrite Hg. lra. Qed.

Lemma resolvedTarget_inward hand t :
  HandData.grabbing hand = true \/ 0.5 < engineTension hand <= 1 ->
  Rabs (resolvedTarget hand t) <= Rabs t.
Proof.
  intros H. unfold resolvedTarget, App.pull.
  destruct (HandData.grabbing hand) eqn:Hg; cbn [orb].
  - rewrite Rabs_mult, (Rabs_pos_eq (1 - 0.6)) by lra.
    pose proof (Rabs_pos t). nra.
  - destruct H as [H|H]; [discriminate|].
    rewrite bool_decide_eq_true_2 by lra.
    rewrite Rabs_mult, (Rabs_pos_eq (1 - _)) by lra.
    pose proof (Rabs_pos t). nra.
Qed.

(** C9.  A tick leaves [targets] as it is.  Each coordinate is updated
    toward a resolved target [t']: the target times [1 - 0.6] when
    grabbing, the target times [1 - (tension - 0.5) * 0.8] when not
    grabbing and tension exceeds 0.5, the target itself otherwise; when
    grabbing, or for a tension in (0.5, 1], [t'] is no farther from 0
    than the target.  For such a tension the grabbing fraction 0.6 is
    strictly larger than the tension fraction, which is positive. *)
Theorem implosion_pull (N : nat) (rand : nat -> R) (w : App.World)
    (points : App.Points) :
  App.reachable N w -> App.pointsRef w = Some points ->
  let hand := App.hand (App.stateRef w) in
  let tension := engineTension hand in
  let w' := App.tick N rand w in
  targetsOf w' = targetsOf w /\
  (forall j, (j < N * 3)%nat ->
     exists t' P',
       positionsOf w' = Some P' /\
       read P' j =
         (if active w
          then explodingPosition (read (App.positions points) j)
                 (read (velocitiesOf w) j) t'
          else morphingPosition (read (App.positions points) j) t' (rand j)
                 (tension * 0.1)) /\
       (HandData.grabbing hand = true ->
          t' = read (targetsOf w) j * (1 - 0.6)) /\
       (HandData.grabbing hand = false -> tension > 0.5 ->
          t' = read (targetsOf w) j * (1 - (tension - 0.5) * 0.8)) /\
       (HandData.grabbing hand = false -> ~ tension > 0.5 ->
          t' = read (targetsOf w) j) /\
       (HandData.grabbing hand = true \/ 0.5 < tension <= 1 ->
          Rabs t' <= Rabs (read (targetsOf w) j))) /\
  (forall grabbingHand tenseHand t,
     HandData.grabbing grabbingHand = true ->
     HandData.grabbing tenseHand = false -> 0.5 < t <= 1 ->
     App.pull grabbingHand t = 0.6 /\
     App.pull tenseHand t = (t - 0.5) * 0.8 /\
     0 < App.pull tenseHand t < App.pull grabbingHand t).
Proof.
  intros Hw Hp. cbv zeta. split; [apply tick_targets|].
  split; [|intros g h t Hg Hh Ht; unfold App.pull; rewrite Hg, Hh;
           repeat split; lra].
  intros j Hj.
  destruct (reachable_buffers N w Hw) as (HV & HT & HP).
  assert (length (App.positions points) = (N * 3)%nat) as LP.
  { apply HP. unfold positionsOf. rewrite Hp. reflexivity. }
  exists (resolvedTarget (App.hand (App.stateRef w)) (read (targetsOf w) j)).
  exists (App.positions (snd (App.animate N rand (App.stateRef w) points))).
  rewrite (tick_mounted _ _ _ _ Hp). unfold positionsOf, velocitiesOf, targetsOf, active in *.
  cbn [App.pointsRef fmap option_fmap option_map App.stateRef].
  split; [reflexivity|]. split.
  - destruct (App.explosionActive (App.stateRef w)) eqn:Hact.
    + destruct (animate_exploding N rand _ points Hact) as (_ & _ & Hr & _);
        try lia.
      rewrite Hr. destruct (decide _); [reflexivity|lia].
    + destruct (animate_morphing N rand _ points Hact) as (_ & _ & _ & Hr);
        try lia.
      rewrite Hr. destruct (decide _); [reflexivity|lia].
  - unfold resolvedTarget at 1 2 3, App.pull. repeat split.
    + intros ->. reflexivity.
    + intros -> Ht. cbn [orb]. rewrite bool_decide_eq_true_2 by exact Ht.
      reflexivity.
    + intros -> Ht. cbn [orb]. rewrite bool_decide_eq_false_2 by exact Ht.
      reflexivity.
    + apply resolvedTarget_inward.
Qed.

Lemma shapeChange_frame generated w :
  App.pointsRef (App.shapeChange generated w) = App.pointsRef w /\
  targetsOf (App.shapeChange generated w) = generated /\
  velocitiesOf (App.shapeChange generated w) = velocitiesOf w /\
  active (App.shapeChange generated w) = active w /\
  App.hand (App.stateRef (App.shapeChange generated w))
  = App.hand (App.stateRef w).
Proof. repeat split; reflexivity. Qed.

Lemma calm_resolved w t :
  calm w -> resolvedTarget (App.hand (App.stateRef w)) t = t.
Proof.
  intros (_ & Hg & Ht). unfold resolvedTarget. rewrite Hg, Ht.
  rewrite bool_decide_eq_false_2 by lra. reflexivity.
Qed.

Section Morph.
Variable N : nat.

Lemma tick_hand rand w :
  App.hand (App.stateRef (App.tick N rand w)) = App.hand (App.stateRef w).
Proof.
  destruct (App.pointsRef w) as [p|] eqn:Hp.
  - rewrite (tick_mounted _ _ _ _ Hp). cbn. apply animate_frame.
  - rewrite tick_unmounted by exact Hp. reflexivity.
Qed.

Lemma tick_calm rand w : buffers N w -> calm w -> calm (App.tick N rand w).
Proof.
  intros Hb (Ha & Hg & Ht). unfold calm. rewrite tick_hand.
  destruct (tick_quiet N rand w Hb Ha) as (Ha' & _). repeat split; assumption.
Qed.

Lemma tick_morph rand w P :
  buffers N w -> calm w -> positionsOf w = Some P ->
  exists P', positionsOf (App.tick N rand w) = Some P' /\
    forall j, (j < N * 3)%nat ->
      read P' j - read (targetsOf w) j
      = (1 - CONFIG.lerpSpeed) * (read P j - read (targetsOf w) j).
Proof.
  intros Hb Hc HP. pose proof Hc as (Ha & Hg & Ht).
  unfold positionsOf in HP.
  destruct (App.pointsRef w) as [p|] eqn:Hp; [|discriminate].
  cbn in HP. injection HP as <-.
  destruct Hb as (_ & _ & HL).
  assert (length (App.positions p) = (N * 3)%nat) as LP.
  { apply HL. unfold positionsOf. rewrite Hp. reflexivity. }
  rewrite (tick_mounted _ _ _ _ Hp). unfold positionsOf. cbn.
  eexists. split; [reflexivity|]. intros j Hj.
  destruct (animate_morphing N rand _ p Ha) as (_ & _ & _ & Hr); [lia|].
  rewrite Hr. destruct (decide _); [|lia].
  fold (targetsOf w). rewrite (calm_resolved w _ Hc), Ht.
  unfold morphingPosition. lra.
Qed.

Lemma ticks_morph rands n w P :
  buffers N w -> calm w -> positionsOf w = Some P ->
  calm (App.ticks N rands n w) /\
  exists P', positionsOf (App.ticks N rands n w) = Some P' /\
    forall j, (j < N * 3)%nat ->
      read P' j - read (targetsOf w) j
      = (1 - CONFIG.lerpSpeed) ^ n * (read P j - read (targetsOf w) j).
Proof.
  intros Hb Hc HP. induction n as [|n (IHc & P' & HP' & IH)].
  - split; [exact Hc|]. exists P. split; [exact HP|]. intros; cbn; lra.
  - cbn [App.ticks].
    pose proof (ticks_buffers N rands n w Hb) as Hbn.
    split; [apply tick_calm; assumption|].
    destruct (tick_morph (rands n) _ P' Hbn IHc HP') as (P'' & HP'' & Hstep).
    exists P''. split; [exact HP''|]. intros j Hj.
    assert (targetsOf (App.ticks N rands n w) = targetsOf w) as HT.
    { clear. induction n as [|n IH]; [reflexivity|].
      cbn [App.ticks]. rewrite tick_targets. exact IH. }
    rewrite HT in Hstep. rewrite Hstep, IH by exact Hj. cbn [pow]. lra.
Qed.

End Morph.

(** ** Rounding to binary32 *)

Lemma pow2_pos e : 0 < powerRZ 2 e.
Proof. apply powerRZ_lt. lra. Qed.

Lemma pow2_add a b : powerRZ 2 (a + b) = powerRZ 2 a * powerRZ 2 b.
Proof. apply powerRZ_add. lra. Qed.

Lemma pow2_ge_1 n : (0 <= n)%Z -> 1 <= powerRZ 2 n.
Proof.
  intros Hn. rewrite <- (Z2Nat.id n Hn), <- pow_powerRZ.
  apply pow_R1_Rle. lra.
Qed.

Lemma pow2_le a b : (a <= b)%Z -> powerRZ 2 a <= powerRZ 2 b.
Proof.
  intros Hab. replace b with (a + (b - a))%Z by lia. rewrite pow2_add.
  pose proof (pow2_pos a). pose proof (pow2_ge_1 (b - a) ltac:(lia)). nra.
Qed.

Lemma pow2_lt a b : (a < b)%Z -> powerRZ 2 a < powerRZ 2 b.
Proof.
  intros Hab. apply Rlt_le_trans with (powerRZ 2 (a + 1)).
  - rewrite pow2_add. replace (powerRZ 2 1) with 2 by (simpl; lra).
    pose proof (pow2_pos a). lra.
  - apply pow2_le. lia.
Qed.

Lemma floor_bounds y : IZR (Int_part y) <= y < IZR (Int_part y) + 1.
Proof. destruct (base_Int_part y). lra. Qed.

Lemma nearestEven_floor y :
  (Int_part y <= Float32.nearestEven y <= Int_part y + 1)%Z.
Proof.
  unfold Float32.nearestEven. cbv zeta.
  repeat destruct (decide _); try destruct (Z.even _); lia.
Qed.

Lemma nearestEven_near y : Rabs (IZR (Float32.nearestEven y) - y) <= 1 / 2.
Proof.
  pose proof (floor_bounds y) as Hf. unfold Float32.nearestEven. cbv zeta.
  repeat destruct (decide _); try destruct (Z.even _);
    rewrite ?plus_IZR; apply Rabs_le; lra.
Qed.

Lemma nearestEven_lb n y : IZR n <= y -> (n <= Float32.nearestEven y)%Z.
Proof.
  intros Hn. pose proof (floor_bounds y) as Hf.
  pose proof (nearestEven_floor y) as Hr.
  assert (n < Int_part y + 1)%Z; [|lia].
  apply lt_IZR. rewrite plus_IZR. lra.
Qed.

Lemma nearestEven_ub n y : y <= IZR n -> (Float32.nearestEven y <= n)%Z.
Proof.
  intros Hn. pose proof (floor_bounds y) as Hf.
  unfold Float32.nearestEven. cbv zeta.
  destruct (decide (y - IZR (Int_part y) < 1 / 2)) as [Hr|Hr].
  - apply le_IZR. lra.
  - assert (Int_part y < n)%Z by (apply lt_IZR; lra).
    repeat destruct (decide _); try destruct (Z.even _); lia.
Qed.

Lemma nearestEven_IZR n : Float32.nearestEven (IZR n) = n.
Proof.
  pose proof (nearestEven_lb n (IZR n) (Rle_refl _)).
  pose proof (nearestEven_ub n (IZR n) (Rle_refl _)). lia.
Qed.

Lemma nearestEven_mono y1 y2 :
  y1 <= y2 -> (Float32.nearestEven y1 <= Float32.nearestEven y2)%Z.
Proof.
  intros Hy. pose proof (floor_bounds y1) as H1.
  pose proof (floor_bounds y2) as H2.
  assert (Int_part y1 < Int_part y2 + 1)%Z as Hf
    by (apply lt_IZR; rewrite plus_IZR; lra).
  destruct (Z.eq_dec (Int_part y1) (Int_part y2)) as [He|He].
  - unfold Float32.nearestEven. cbv zeta. rewrite He in *.
    repeat destruct (decide _); try destruct (Z.even _); try lia; lra.
  - pose proof (nearestEven_floor y1). pose proof (nearestEven_floor y2). lia.
Qed.

Lemma spacing_spec fuel e x :
  exists k : Z,
    (e <= k <= e + Z.of_nat fuel)%Z /\
    Float32.spacing fuel e x = powerRZ 2 k /\
    ((k < e + Z.of_nat fuel)%Z -> Rabs x < powerRZ 2 (k + 24)) /\
    ((e < k)%Z -> powerRZ 2 (k + 23) <= Rabs x).
Proof.
  revert e. induction fuel as [|fuel IH]; intros e.
  - exists e. cbn [Float32.spacing]. repeat split; try lia.
  - cbn [Float32.spacing].
    destruct (decide (Rabs x < powerRZ 2 (e + 24))) as [Hlt|Hge].
    + exists e. repeat split; try lia. intros _. exact Hlt.
    + destruct (IH (e + 1)%Z) as (k & Hk & Hs & Hup & Hlow).
      exists k. split; [lia|]. split; [exact Hs|]. split.
      * intros H. apply Hup. lia.
      * intros H. destruct (Z.eq_dec k (e + 1)%Z) as [->|Hne].
        -- replace (e + 1 + 23)%Z with (e + 24)%Z by lia. lra.
        -- apply Hlow. lia.
Qed.

(** The exponent of the last bit of [x]. *)
Lemma ulp_spec x :
  exists k : Z,
    (-149 <= k <= 104)%Z /\ Float32.ulp x = powerRZ 2 k /\
    ((k < 104)%Z -> Rabs x < powerRZ 2 (k + 24)) /\
    ((-149 < k)%Z -> powerRZ 2 (k + 23) <= Rabs x).
Proof.
  destruct (spacing_spec 253 (-149) x) as (k & Hk & Hs & Hup & Hlow).
  exists k. split; [lia|]. split; [exact Hs|]. split.
  - intros H. apply Hup. lia.
  - exact Hlow.
Qed.

Lemma ulp_unique x k :
  (-149 <= k <= 104)%Z ->
  ((k < 104)%Z -> Rabs x < powerRZ 2 (k + 24)) ->
  ((-149 < k)%Z -> powerRZ 2 (k + 23) <= Rabs x) ->
  Float32.ulp x = powerRZ 2 k.
Proof.
  intros Hk Hup Hlow. destruct (ulp_spec x) as (k' & Hk' & -> & Hup' & Hlow').
  f_equal. destruct (Z.lt_trichotomy k' k) as [H|[H|H]]; [|exact H|].
  - exfalso. specialize (Hup' ltac:(lia)). specialize (Hlow ltac:(lia)).
    pose proof (pow2_le (k' + 24) (k + 23) ltac:(lia)). lra.
  - exfalso. specialize (Hup ltac:(lia)). specialize (Hlow' ltac:(lia)).
    pose proof (pow2_le (k + 24) (k' + 23) ltac:(lia)). lra.
Qed.

Lemma ulp_pos x : 0 < Float32.ulp x.
Proof. destruct (ulp_spec x) as (k & _ & -> & _). apply pow2_pos. Qed.

Lemma fround_near x : Rabs (Float32.fround x - x) <= Float32.ulp x / 2.
Proof.
  unfold Float32.fround. pose proof (ulp_pos x) as Hu.
  set (u := Float32.ulp x) in *.
  pose proof (nearestEven_near (x / u)) as Hn.
  replace (IZR (Float32.nearestEven (x / u)) * u - x)
    with ((IZR (Float32.nearestEven (x / u)) - x / u) * u) by (field; lra).
  rewrite Rabs_mult, (Rabs_pos_eq u) by lra. nra.
Qed.

Lemma fround_lb x (n e : Z) :
  Float32.ulp x = powerRZ 2 e -> IZR n * powerRZ 2 e <= x ->
  IZR n * powerRZ 2 e <= Float32.fround x.
Proof.
  intros Hu Hn. unfold Float32.fround. rewrite Hu.
  pose proof (pow2_pos e) as Hp.
  apply Rmult_le_compat_r; [lra|]. apply IZR_le, nearestEven_lb.
  apply (Rmult_le_reg_r (powerRZ 2 e)); [exact Hp|].
  unfold Rdiv. rewrite Rmult_assoc, Rinv_l by lra. lra.
Qed.

Lemma fround_ub x (n e : Z) :
  Float32.ulp x = powerRZ 2 e -> x <= IZR n * powerRZ 2 e ->
  Float32.fround x <= IZR n * powerRZ 2 e.
Proof.
  intros Hu Hn. unfold Float32.fround. rewrite Hu.
  pose proof (pow2_pos e) as Hp.
  apply Rmult_le_compat_r; [lra|]. apply IZR_le, nearestEven_ub.
  apply (Rmult_le_reg_r (powerRZ 2 e)); [exact Hp|].
  unfold Rdiv. rewrite Rmult_assoc, Rinv_l by lra. lra.
Qed.

Lemma pow2_IZR n : (0 <= n)%Z -> powerRZ 2 n = IZR (2 ^ n).
Proof.
  intros Hn. rewrite <- (Z2Nat.id n Hn) at 1.
  rewrite <- pow_powerRZ, pow_IZR, Z2Nat.id by exact Hn. reflexivity.
Qed.

Lemma pow2_scaled (a e : Z) :
  (0 <= a)%Z -> IZR (2 ^ a) * powerRZ 2 e = powerRZ 2 (e + a).
Proof.
  intros Ha. rewrite <- pow2_IZR by exact Ha. rewrite pow2_add. ring.
Qed.

(** Rounding is monotone. *)
Lemma fround_mono x y : x <= y -> Float32.fround x <= Float32.fround y.
Proof.
  intros Hxy.
  destruct (ulp_spec x) as (ex & Hex & Hux & Hupx & Hlowx).
  destruct (ulp_spec y) as (ey & Hey & Huy & Hupy & Hlowy).
  destruct (Z.lt_trichotomy ex ey) as [H|[H|H]].
  - specialize (Hupx ltac:(lia)). specialize (Hlowy ltac:(lia)).
    pose proof (pow2_le (ex + 24) (ey + 23) ltac:(lia)) as Hp.
    assert (0 < y) as Hy.
    { destruct (Rle_dec y 0) as [Hn|Hn]; [|lra].
      rewrite (Rabs_left1 y), (Rabs_left1 x) in * by lra. lra. }
    rewrite (Rabs_pos_eq y) in Hlowy by lra.
    apply Rle_trans with (IZR (2 ^ 24) * powerRZ 2 ex).
    + apply fround_ub; [exact Hux|]. rewrite pow2_scaled by lia.
      pose proof (Rle_abs x). lra.
    + apply Rle_trans with (IZR (2 ^ 23) * powerRZ 2 ey).
      * rewrite !pow2_scaled by lia. lra.
      * apply fround_lb; [exact Huy|]. rewrite pow2_scaled by lia. lra.
  - subst ey. unfold Float32.fround. rewrite Hux, Huy.
    pose proof (pow2_pos ex) as Hp.
    apply Rmult_le_compat_r; [lra|]. apply IZR_le, nearestEven_mono.
    unfold Rdiv. apply Rmult_le_compat_r; [|exact Hxy].
    apply Rlt_le, Rinv_0_lt_compat, Hp.
  - specialize (Hupy ltac:(lia)). specialize (Hlowx ltac:(lia)).
    pose proof (pow2_le (ey + 24) (ex + 23) ltac:(lia)) as Hp.
    assert (x < 0) as Hx.
    { destruct (Rle_dec 0 x) as [Hn|Hn]; [|lra].
      rewrite (Rabs_pos_eq y), (Rabs_pos_eq x) in * by lra. lra. }
    rewrite (Rabs_left x) in Hlowx by lra.
    apply Rle_trans with (IZR (- 2 ^ 23) * powerRZ 2 ex).
    + apply fround_ub; [exact Hux|]. rewrite opp_IZR, Ropp_mult_distr_l_reverse.
      rewrite pow2_scaled by lia. lra.
    + apply Rle_trans with (IZR (- 2 ^ 24) * powerRZ 2 ey).
      * rewrite !opp_IZR, !Ropp_mult_distr_l_reverse, !pow2_scaled by lia. lra.
      * apply fround_lb; [exact Huy|].
        rewrite opp_IZR, Ropp_mult_distr_l_reverse, pow2_scaled by lia.
        pose proof (Rle_abs (- y)). rewrite Rabs_Ropp in *. lra.
Qed.

(** A multiple [m * 2 ^ e] of a spacing with at most 24 significant
    bits is a binary32 number. *)
Lemma fround_scaled (m e : Z) :
  (-149 <= e <= 104)%Z -> (Z.abs m <= 2 ^ 24)%Z ->
  Float32.fround (IZR m * powerRZ 2 e) = IZR m * powerRZ 2 e.
Proof.
  intros He Hm. set (x := IZR m * powerRZ 2 e).
  assert (Rabs x = IZR (Z.abs m) * powerRZ 2 e) as Habs.
  { unfold x. rewrite Rabs_mult, (Rabs_pos_eq (powerRZ 2 e)), abs_IZR
      by (apply Rlt_le, pow2_pos). reflexivity. }
  assert (Rabs x <= powerRZ 2 (e + 24)) as Hle.
  { rewrite Habs, <- pow2_scaled by lia.
    apply Rmult_le_compat_r; [apply Rlt_le, pow2_pos|]. apply IZR_le. exact Hm. }
  destruct (ulp_spec x) as (k & Hk & Hu & Hup & Hlow).
  assert (k <= e + 1)%Z as Hke.
  { destruct (Z_le_gt_dec k (e + 1)) as [H|H]; [exact H|exfalso].
    specialize (Hlow ltac:(lia)).
    pose proof (pow2_lt (e + 24) (k + 23) ltac:(lia)). lra. }
  unfold Float32.fround. rewrite Hu.
  destruct (Z_le_gt_dec k e) as [H|H].
  - (* the spacing divides [2 ^ e] *)
    assert (x / powerRZ 2 k = IZR (m * 2 ^ (e - k))) as ->.
    { unfold x. rewrite mult_IZR, <- pow2_IZR by lia.
      replace e with (k + (e - k))%Z at 1 by lia. rewrite pow2_add.
      pose proof (pow2_pos k). field. lra. }
    rewrite nearestEven_IZR, mult_IZR, <- pow2_IZR by lia. unfold x.
    replace e with (k + (e - k))%Z at 2 by lia. rewrite pow2_add. ring.
  - (* [k = e + 1]: then [|m| = 2 ^ 24] *)
    assert (k = e + 1)%Z as -> by lia.
    specialize (Hlow ltac:(lia)).
    replace (e + 1 + 23)%Z with (e + 24)%Z in Hlow by lia.
    assert (Rabs x = powerRZ 2 (e + 24)) as Heq by lra.
    rewrite Habs, <- pow2_scaled in Heq by lia.
    apply Rmult_eq_reg_r in Heq; [|pose proof (pow2_pos e); lra].
    apply eq_IZR in Heq.
    assert (m = (2 * (m / 2))%Z) as Hm2.
    { destruct (Z.abs_spec m) as [[_ Ha]|[_ Ha]]; rewrite Ha in Heq.
      - rewrite Heq. reflexivity.
      - replace m with (- 2 ^ 24)%Z by lia. reflexivity. }
    assert (x / powerRZ 2 (e + 1) = IZR (m / 2)) as ->.
    { unfold x. rewrite Hm2 at 1. rewrite mult_IZR, pow2_add.
      replace (powerRZ 2 1) with 2 by (simpl; lra).
      pose proof (pow2_pos e). field. lra. }
    rewrite nearestEven_IZR. unfold x. rewrite Hm2 at 2.
    rewrite mult_IZR, pow2_add.
    replace (powerRZ 2 1) with 2 by (simpl; lra). ring.
Qed.

(** What a Float32Array holds is a binary32 number. *)
Lemma fround_binary32 x : binary32 (Float32.fround x).
Proof.
  unfold binary32.
  destruct (ulp_spec x) as (e & He & Hu & Hup & Hlow).
  set (m := Float32.nearestEven (x / Float32.ulp x)).
  assert (Float32.fround x = IZR m * powerRZ 2 e) as Hf
    by (unfold Float32.fround; fold m; rewrite Hu; reflexivity).
  rewrite Hf.
  destruct (Z_lt_ge_dec e 104) as [H|H].
  - apply fround_scaled; [exact He|]. specialize (Hup H).
    pose proof (pow2_pos e) as Hp.
    assert (- IZR (2 ^ 24) <= x / Float32.ulp x <= IZR (2 ^ 24)) as Hq.
    { rewrite Hu. pose proof (Rle_abs x). pose proof (Rle_abs (- x)) as Hn.
      rewrite Rabs_Ropp in Hn. rewrite <- pow2_scaled in Hup by lia.
      split.
      - apply (Rmult_le_reg_r (powerRZ 2 e)); [exact Hp|].
        unfold Rdiv. rewrite Rmult_assoc, Rinv_l by lra. lra.
      - apply (Rmult_le_reg_r (powerRZ 2 e)); [exact Hp|].
        unfold Rdiv. rewrite Rmult_assoc, Rinv_l by lra. lra. }
    destruct Hq as (Hq1 & Hq2). rewrite <- opp_IZR in Hq1.
    apply nearestEven_lb in Hq1. apply nearestEven_ub in Hq2. fold m in Hq1, Hq2.
    lia.
  - (* the last binade and beyond: the spacing stays [2 ^ 104] *)
    assert (e = 104%Z) as -> by lia. specialize (Hlow ltac:(lia)).
    pose proof (pow2_pos 104) as Hp.
    assert (IZR (2 ^ 23) <= Rabs (IZR m)) as Hm.
    { destruct (Rle_dec 0 x) as [Hx|Hx].
      - rewrite Rabs_pos_eq in Hlow by exact Hx.
        assert (IZR (2 ^ 23) <= x / Float32.ulp x) as Hq.
        { rewrite Hu. apply (Rmult_le_reg_r (powerRZ 2 104)); [exact Hp|].
          unfold Rdiv. rewrite Rmult_assoc, Rinv_l by lra.
          rewrite pow2_scaled by lia. lra. }
        apply nearestEven_lb in Hq. fold m in Hq. apply IZR_le in Hq.
        pose proof (Rle_abs (IZR m)). lra.
      - rewrite Rabs_left in Hlow by lra.
        assert (x / Float32.ulp x <= IZR (- 2 ^ 23)) as Hq.
        { rewrite Hu. apply (Rmult_le_reg_r (powerRZ 2 104)); [exact Hp|].
          unfold Rdiv. rewrite Rmult_assoc, Rinv_l by lra.
          rewrite opp_IZR, Ropp_mult_distr_l_reverse, pow2_scaled by lia. lra. }
        apply nearestEven_ub in Hq. fold m in Hq. apply IZR_le in Hq.
        rewrite opp_IZR in Hq.
        pose proof (Rle_abs (- IZR m)) as Hn. rewrite Rabs_Ropp in Hn. lra. }
    assert (Float32.ulp (IZR m * powerRZ 2 104) = powerRZ 2 104) as Hu'.
    { apply ulp_unique; [lia|lia|]. intros _.
      rewrite Rabs_mult, (Rabs_pos_eq (powerRZ 2 104)) by lra.
      rewrite <- (pow2_scaled 23 104) by lia.
      apply Rmult_le_compat_r; [lra|exact Hm]. }
    unfold Float32.fround. rewrite Hu'.
    replace (IZR m * powerRZ 2 104 / powerRZ 2 104) with (IZR m)
      by (field; lra).
    rewrite nearestEven_IZR. reflexivity.
Qed.

Lemma binary32_0 : binary32 0.
Proof.
  unfold binary32. replace 0 with (IZR 0 * powerRZ 2 0) by (simpl; lra).
  apply fround_scaled; lia.
Qed.

(** Rounding keeps a number between two binary32 numbers between them. *)
Lemma fround_between a b x :
  binary32 a -> binary32 b -> a <= x <= b ->
  a <= Float32.fround x <= b.
Proof.
  unfold binary32. intros Ha Hb (H1 & H2). split.
  - rewrite <- Ha. apply fround_mono. exact H1.
  - rewrite <- Hb. apply fround_mono. exact H2.
Qed.

(** ** The particle update with rounded stores *)

(** With the identity for the store the typed engine is the engine. *)
Lemma typed_exact N rand state points :
  Typed.animate (fun x => x) N rand state points
  = App.animate N rand state points.
Proof. reflexivity. Qed.

Section Stored.
Variable store : R -> R.

Lemma length_stored_add a i d : length (Typed.add_at store a i d) = length a.
Proof. apply length_insert. Qed.

Lemma read_stored_add_eq a i d :
  (i < length a)%nat ->
  read (Typed.add_at store a i d) i = store (read a i + d).
Proof. intros H. apply read_insert_eq. exact H. Qed.

Lemma read_stored_add_ne a i j d :
  i <> j -> read (Typed.add_at store a i d) j = read a j.
Proof. intros H. apply read_insert_ne. exact H. Qed.

Variables (rand : nat -> R) (hand : HandData.t) (targets P V : Float32Array).
Variable jitter : R.

Lemma stored_step_inv i s :
  (i * 3 + 3 <= length P)%nat ->
  storedMorphingInvariant store rand hand targets P V jitter i s ->
  storedMorphingInvariant store rand hand targets P V jitter (S i)
    (Typed.particleStep store rand hand false targets (engineTension hand)
       jitter i s).
Proof.
  intros HP. destruct s as [[P' V'] m]. intros (LP & -> & -> & HPr).
  unfold Typed.particleStep. rewrite resolved_cases. cbv zeta.
  repeat split.
  - rewrite !length_stored_add. exact LP.
  - intros j. particle_index i j;
      repeat first
        [ rewrite read_stored_add_ne by lia
        | rewrite read_stored_add_eq by (rewrite ?length_stored_add; lia) ];
      rewrite ?HPr; repeat (destruct (decide _); try lia); reflexivity.
Qed.

Lemma stored_loop_morphing n :
  (n * 3 <= length P)%nat ->
  storedMorphingInvariant store rand hand targets P V jitter n
    (for_loop n
       (Typed.particleStep store rand hand false targets (engineTension hand)
          jitter)
       (P, V, 0)).
Proof.
  intros HP. apply for_loop_ind.
  - repeat split; intros; destruct (decide _); try lia; reflexivity.
  - intros i s Hi. apply stored_step_inv; lia.
Qed.

End Stored.

(** A calm tick with rounded stores: every coordinate becomes the stored
    blend; targets, signal and flag stay. *)
Lemma stored_tick_morph store N rand w P :
  positionsOf w = Some P -> length P = (N * 3)%nat -> calm w ->
  let w1 := Typed.tick store N rand w in
  calm w1 /\ targetsOf w1 = targetsOf w /\
  exists P', positionsOf w1 = Some P' /\ length P' = (N * 3)%nat /\
    forall j, (j < N * 3)%nat ->
      read P' j = store (blend (read P j) (read (targetsOf w) j)).
Proof.
  intros HP LP Hc. pose proof Hc as (Ha & Hg & Ht). cbv zeta.
  unfold positionsOf in HP.
  destruct (App.pointsRef w) as [p|] eqn:Hp; [|discriminate].
  cbn in HP. injection HP as <-.
  unfold Typed.tick, Typed.animate. rewrite Hp. cbv zeta.
  unfold active in Ha. rewrite Ha.
  fold (engineTension (App.hand (App.stateRef w))).
  pose proof (stored_loop_morphing store rand (App.hand (App.stateRef w))
                (App.targets (App.stateRef w)) (App.positions p)
                (App.explosionVelocities (App.stateRef w))
                (engineTension (App.hand (App.stateRef w)) * 0.1) N
                ltac:(lia)) as Hinv.
  destruct (HandData.isPresent (App.hand (App.stateRef w)));
    destruct (for_loop _ _ _) as [[P' V'] m];
    destruct Hinv as (LP' & -> & -> & Hr);
    (split; [unfold calm, active; cbn; repeat split; assumption|]);
    (split; [reflexivity|]);
    exists P'; (split; [reflexivity|]); (split; [lia|]);
    intros j Hj; rewrite Hr; (destruct (decide _); [|lia]);
    fold (targetsOf w); rewrite (calm_resolved w _ Hc), Ht;
    unfold morphingPosition, blend; f_equal; lra.
Qed.

Lemma Rabs_le_bounds x b : Rabs x <= b -> - b <= x <= b.
Proof.
  intros H. pose proof (Rle_abs x). pose proof (Rle_abs (- x)) as Hn.
  rewrite Rabs_Ropp in Hn. lra.
Qed.

Lemma typed_read a j : typed a -> binary32 (read a j).
Proof.
  intros Ha. unfold read. destruct (le_lt_dec (length a) j) as [H|H].
  - rewrite nth_overflow by exact H. exact binary32_0.
  - apply (proj1 (List.Forall_nth binary32 a) Ha j 0 H).
Qed.

Lemma typed_of_reads a :
  (forall j, (j < length a)%nat -> binary32 (read a j)) -> typed a.
Proof.
  intros H. apply List.Forall_nth. intros i d Hi.
  rewrite (nth_indep a d 0 Hi). apply H. exact Hi.
Qed.

(** One coordinate of a calm tick: the blend lies between the position
    and the target, so the stored value does too; the store moves the
    blend by at most half a spacing, and the coordinate gets strictly
    closer when the step is more than that. *)
Lemma blend_stored p t :
  binary32 p -> binary32 t ->
  let p' := Float32.fround (blend p t) in
  (p <= t -> p <= p' <= t) /\ (t <= p -> t <= p' <= p) /\
  Rabs (p' - t) <= Rabs (p - t) /\
  Rabs (p' - blend p t) <= Float32.ulp (blend p t) / 2 /\
  (Float32.ulp (blend p t) / 2 < Rabs (t - p) * CONFIG.lerpSpeed ->
   Rabs (p' - t) < Rabs (p - t)).
Proof.
  intros Hp Ht. cbv zeta.
  pose proof (fround_near (blend p t)) as Hn.
  assert (p <= t -> p <= Float32.fround (blend p t) <= t) as Hup.
  { intros H. apply fround_between; [exact Hp|exact Ht|].
    unfold blend, CONFIG.lerpSpeed. split; nra. }
  assert (t <= p -> t <= Float32.fround (blend p t) <= p) as Hdown.
  { intros H. apply fround_between; [exact Ht|exact Hp|].
    unfold blend, CONFIG.lerpSpeed. split; nra. }
  split; [exact Hup|]. split; [exact Hdown|]. split; [|split; [exact Hn|]].
  - destruct (Rle_dec p t) as [H|H].
    + specialize (Hup H). rewrite !Rabs_left1 by lra. lra.
    + specialize (Hdown ltac:(lra)). rewrite !Rabs_pos_eq by lra. lra.
  - intros Hs. revert Hn Hs. unfold blend, CONFIG.lerpSpeed.
    set (u := Float32.ulp _). set (p' := Float32.fround _).
    intros Hn Hs.
    destruct (Rle_dec p t) as [H|H].
    + specialize (Hup H). fold p' in Hup.
      rewrite (Rabs_pos_eq (t - p)) in Hs by lra.
      apply Rabs_le_bounds in Hn.
      rewrite !Rabs_left1 by lra. lra.
    + specialize (Hdown ltac:(lra)). fold p' in Hdown.
      rewrite (Rabs_left1 (t - p)) in Hs by lra.
      apply Rabs_le_bounds in Hn.
      rewrite !Rabs_pos_eq by lra. lra.
Qed.

(** A step of less than half a spacing is lost in the store. *)
Lemma fround_lost_step (m e : Z) (d : R) :
  (-149 <= e <= 104)%Z -> (2 ^ 23 <= m < 2 ^ 24)%Z -> 0 <= d < 1 / 2 ->
  Float32.fround ((IZR m + d) * powerRZ 2 e) = IZR m * powerRZ 2 e.
Proof.
  intros He Hm Hd. pose proof (pow2_pos e) as Hp.
  assert (IZR (2 ^ 23) <= IZR m) as Hm1 by (apply IZR_le; lia).
  assert (IZR m + 1 <= IZR (2 ^ 24)) as Hm2
    by (rewrite <- plus_IZR; apply IZR_le; lia).
  assert (0 < IZR (2 ^ 23)) as H23 by (apply IZR_lt; lia).
  assert (Float32.ulp ((IZR m + d) * powerRZ 2 e) = powerRZ 2 e) as Hu.
  { apply ulp_unique; [exact He| |]; intros _;
      rewrite Rabs_mult, (Rabs_pos_eq (powerRZ 2 e)), Rabs_pos_eq by lra.
    - rewrite <- pow2_scaled by lia. apply Rmult_lt_compat_r; lra.
    - rewrite <- pow2_scaled by lia. apply Rmult_le_compat_r; lra. }
  unfold Float32.fround. rewrite Hu. f_equal. f_equal.
  replace ((IZR m + d) * powerRZ 2 e / powerRZ 2 e) with (IZR m + d)
    by (field; lra).
  unfold Float32.nearestEven. cbv zeta.
  assert (Int_part (IZR m + d) = m) as ->
    by (symmetry; apply Int_part_spec; lra).
  destruct (decide _) as [_|Hn]; [reflexivity|]. exfalso. apply Hn. lra.
Qed.

Lemma binary32_1 : binary32 1.
Proof.
  unfold binary32.
  replace 1 with (IZR (2 ^ 23) * powerRZ 2 (-23))
    by (rewrite pow2_scaled by lia; simpl; lra).
  apply fround_scaled; lia.
Qed.

Lemma binary32_next : binary32 (1 + powerRZ 2 (-23)).
Proof.
  unfold binary32.
  replace (1 + powerRZ 2 (-23)) with (IZR (2 ^ 23 + 1) * powerRZ 2 (-23)).
  - apply fround_scaled; lia.
  - rewrite plus_IZR, Rmult_plus_distr_r, pow2_scaled by lia.
    simpl (powerRZ 2 (-23 + 23)). lra.
Qed.

Lemma binary32_2 : binary32 2.
Proof.
  unfold binary32.
  replace 2 with (IZR (2 ^ 23) * powerRZ 2 (-22))
    by (rewrite pow2_scaled by lia; simpl; lra).
  apply fround_scaled; lia.
Qed.

(** Between 1 and the next binary32 number the blend is stored as 1. *)
Lemma blend_stalls : Float32.fround (blend 1 (1 + powerRZ 2 (-23))) = 1.
Proof.
  unfold blend, CONFIG.lerpSpeed.
  replace (1 + (1 + powerRZ 2 (-23) - 1) * 0.035)
    with ((IZR (2 ^ 23) + 0.035) * powerRZ 2 (-23)).
  - rewrite fround_lost_step by (try lia; lra).
    rewrite pow2_scaled by lia. simpl. lra.
  - rewrite Rmult_plus_distr_r, pow2_scaled by lia.
    simpl (powerRZ 2 (-23 + 23)). lra.
Qed.

Lemma stored_ticks_morph N rands n w P :
  positionsOf w = Some P -> length P = (N * 3)%nat -> calm w ->
  typed P -> typed (targetsOf w) ->
  let wn := Typed.ticks Float32.fround N rands n w in
  calm wn /\ targetsOf wn = targetsOf w /\
  exists Pn, positionsOf wn = Some Pn /\ length Pn = (N * 3)%nat /\
    typed Pn /\
    forall j, (j < N * 3)%nat ->
      Rabs (read Pn j - read (targetsOf w) j)
      <= Rabs (read P j - read (targetsOf w) j).
Proof.
  intros HP LP Hc HtP HtT. cbv zeta.
  induction n as [|n (IHc & IHT & Pn & HPn & LPn & HtPn & IH)].
  - split; [exact Hc|]. split; [reflexivity|]. exists P.
    split; [exact HP|]. split; [exact LP|]. split; [exact HtP|].
    intros j _. apply Rle_refl.
  - cbn [Typed.ticks].
    destruct (stored_tick_morph Float32.fround N (rands n) _ Pn HPn LPn IHc)
      as (Hc' & HT' & P' & HP' & LP' & Hr).
    rewrite IHT in HT', Hr.
    split; [exact Hc'|]. split; [exact HT'|]. exists P'.
    split; [exact HP'|]. split; [exact LP'|]. split.
    + apply typed_of_reads. intros j Hj. rewrite Hr by lia.
      apply fround_binary32.
    + intros j Hj. rewrite (Hr j Hj).
      destruct (blend_stored (read Pn j) (read (targetsOf w) j)
                  (typed_read Pn j HtPn) (typed_read _ j HtT))
        as (_ & _ & Hle & _).
      specialize (IH j Hj). lra.
Qed.

(** C7, as amended.  A shape change puts the generated array in place
    of [targets] and leaves [positions] as they are.  If the world is
    then calm (no explosion, not grabbing, tension 0), every tick stores
    in each coordinate the binary32 number nearest to its blend
    [p + (t - p) * lerpSpeed] toward the target, whatever the draws.
    The stored value is within half a spacing of the blend and lies
    between the old position and the target: the coordinate never moves
    away from its target nor past it, it is never farther than at the
    shape change, and it is strictly closer after the tick whenever the
    step [|t - p| * lerpSpeed] exceeds half the spacing at the blend. *)
Theorem morph_toward_target (N : nat) (rands : nat -> nat -> R)
    (generated : Float32Array) (w : App.World) (P : Float32Array) :
  shapes.generated N generated -> typed generated ->
  positionsOf w = Some P -> length P = (N * 3)%nat -> typed P ->
  let w0 := App.shapeChange generated w in
  (positionsOf w0 = Some P /\ targetsOf w0 = generated) /\
  (calm w0 ->
   forall n, exists Pn Pn',
     positionsOf (Typed.ticks Float32.fround N rands n w0) = Some Pn /\
     positionsOf (Typed.ticks Float32.fround N rands (S n) w0) = Some Pn' /\
     forall j, (j < N * 3)%nat ->
       let p := read Pn j in
       let t := read generated j in
       read Pn' j = Float32.fround (blend p t) /\
       Rabs (read Pn' j - blend p t) <= Float32.ulp (blend p t) / 2 /\
       (p <= t -> p <= read Pn' j <= t) /\
       (t <= p -> t <= read Pn' j <= p) /\
       Rabs (read Pn' j - t) <= Rabs (p - t) /\
       Rabs (p - t) <= Rabs (read P j - t) /\
       (Float32.ulp (blend p t) / 2 < Rabs (t - p) * CONFIG.lerpSpeed ->
        Rabs (read Pn' j - t) < Rabs (p - t))).
Proof.
  intros Hg HtT HP LP HtP. cbv zeta.
  split; [split; [exact HP|reflexivity]|].
  intros Hc n.
  assert (positionsOf (App.shapeChange generated w) = Some P) as HP0
    by exact HP.
  destruct (stored_ticks_morph N rands n _ P HP0 LP Hc HtP HtT)
    as (Hcn & HTn & Pn & HPn & LPn & HtPn & Hgap).
  change (targetsOf (App.shapeChange generated w)) with generated in *.
  destruct (stored_tick_morph Float32.fround N (rands n) _ Pn HPn LPn Hcn)
    as (_ & _ & Pn' & HPn' & _ & Hr).
  rewrite HTn in Hr.
  exists Pn, Pn'. split; [exact HPn|]. split; [exact HPn'|].
  intros j Hj. cbv zeta. rewrite (Hr j Hj).
  destruct (blend_stored (read Pn j) (read generated j)
              (typed_read Pn j HtPn) (typed_read generated j HtT))
    as (Hup & Hdown & Hle & Hnear & Hstrict).
  split; [reflexivity|]. split; [exact Hnear|]. split; [exact Hup|].
  split; [exact Hdown|]. split; [exact Hle|]. split; [apply Hgap; exact Hj|].
  exact Hstrict.
Qed.

Lemma typed_unit : typed [1; 0; 0].
Proof.
  repeat constructor; [exact binary32_1 | exact binary32_0 | exact binary32_0].
Qed.

Lemma typed_nextTargets : typed nextTargets.
Proof.
  repeat constructor; [exact binary32_next | exact binary32_0 | exact binary32_0].
Qed.

Lemma stalledWorld_calm : calm stalledWorld.
Proof. repeat split. Qed.

Lemma stalled_tick rand w :
  calm w -> positionsOf w = Some [1; 0; 0] -> targetsOf w = nextTargets ->
  calm (Typed.tick Float32.fround 1 rand w) /\
  positionsOf (Typed.tick Float32.fround 1 rand w) = Some [1; 0; 0] /\
  targetsOf (Typed.tick Float32.fround 1 rand w) = nextTargets.
Proof.
  intros Hc HP HT.
  destruct (stored_tick_morph Float32.fround 1 rand w [1; 0; 0] HP eq_refl Hc)
    as (Hc' & HT' & P' & HP' & LP' & Hr).
  split; [exact Hc'|]. split; [|congruence].
  rewrite HP'. f_equal. rewrite HT in Hr.
  pose proof (Hr 0%nat ltac:(lia)) as H0.
  pose proof (Hr 1%nat ltac:(lia)) as H1.
  pose proof (Hr 2%nat ltac:(lia)) as H2.
  destruct P' as [|a [|b [|c [|d P']]]]; try discriminate.
  unfold read, nextTargets in H0, H1, H2. cbn [nth] in H0, H1, H2.
  rewrite blend_stalls in H0.
  replace (blend 0 0) with 0 in H1, H2 by (unfold blend; lra).
  rewrite binary32_0 in H1, H2. congruence.
Qed.

(** C7, counterexample.  One particle at 1 on the x axis, and a shape
    change whose target for it is the next binary32 number,
    [1 + 2 ^ -23]; the world is calm.  The blend of a tick is
    [1 + 0.035 * 2 ^ -23], which the store rounds back to 1: after any
    number of ticks the coordinate is still 1, off its target and no
    closer to it. *)
Lemma morph_stalls :
  let rands : nat -> nat -> R := fun _ _ => 0.5 in
  let after := fun n => Typed.ticks Float32.fround 1 rands n stalledWorld in
  calm stalledWorld /\ typed [1; 0; 0] /\ typed nextTargets /\
  positionsOf stalledWorld = Some [1; 0; 0] /\
  (forall n, positionsOf (after n) = Some [1; 0; 0] /\
             targetsOf (after n) = nextTargets /\ calm (after n)) /\
  read [1; 0; 0] 0 <> read nextTargets 0 /\
  ~ (forall P1, positionsOf (after 1%nat) = Some P1 ->
       Rabs (read P1 0 - read nextTargets 0)
       < Rabs (read [1; 0; 0] 0 - read nextTargets 0)).
Proof.
  cbv zeta.
  assert (forall n,
            positionsOf
              (Typed.ticks Float32.fround 1 (fun _ _ => 0.5) n stalledWorld)
            = Some [1; 0; 0] /\
            targetsOf
              (Typed.ticks Float32.fround 1 (fun _ _ => 0.5) n stalledWorld)
            = nextTargets /\
            calm (Typed.ticks Float32.fround 1 (fun _ _ => 0.5) n stalledWorld))
    as Hall.
  { induction n as [|n (HP & HT & Hc)].
    - split; [reflexivity|]. split; [reflexivity|exact stalledWorld_calm].
    - cbn [Typed.ticks].
      destruct (stalled_tick (fun _ => 0.5) _ Hc HP HT) as (Hc' & HP' & HT').
      split; [exact HP'|]. split; [exact HT'|exact Hc']. }
  split; [exact stalledWorld_calm|]. split; [exact typed_unit|].
  split; [exact typed_nextTargets|]. split; [reflexivity|].
  split; [exact Hall|].
  pose proof (pow2_pos (-23)) as Hp.
  split.
  - unfold read, nextTargets. cbn [nth]. lra.
  - intros H. specialize (H [1; 0; 0] (proj1 (Hall 1%nat))).
    apply (Rlt_irrefl _ H).
Qed.

(** ** The feature extractor *)

Ltac clamp :=
  unfold Math.max, Math.min, Rmax, Rmin;
  repeat match goal with
         | |- context [Rle_dec ?a ?b] => destruct (Rle_dec a b)
         | H : context [Rle_dec ?a ?b] |- _ => destruct (Rle_dec a b)
         end;
  try lra.

Lemma lerp_toward c t s : HandTracker.lerp c t s - t = (1 - s) * (c - t).
Proof. unfold HandTracker.lerp. lra. Qed.

Lemma lerp_between lo hi c t s :
  lo <= c <= hi -> lo <= t <= hi -> 0 <= s <= 1 ->
  lo <= HandTracker.lerp c t s <= hi.
Proof. intros Hc Ht Hs. unfold HandTracker.lerp. split; nra. Qed.

Lemma div_unit s n : 0 < n -> 0 <= s <= n -> 0 <= s / n <= 1.
Proof.
  intros Hn Hs. assert (0 < / n) as Hi by (apply Rinv_0_lt_compat; exact Hn).
  assert (n * / n = 1) as H1 by (apply Rinv_r; lra).
  unfold Rdiv. split; nra.
Qed.

Lemma rawExpansion_unit landmarks :
  unitInterval (HandTracker.rawExpansion landmarks).
Proof.
  unfold unitInterval, HandTracker.rawExpansion.
  destruct landmarks as [|h1 [|h2 [|h3 l]]]; try lra. cbv zeta. clamp.
Qed.

Lemma rawRotation_signed landmarks prevFrame :
  signedUnit (HandTracker.rawRotation landmarks prevFrame).
Proof.
  unfold signedUnit, HandTracker.rawRotation.
  destruct landmarks as [|h1 [|h2 [|h3 l]]]; try lra. cbv zeta.
  destruct (decide _); [clamp|lra].
Qed.

Lemma rawTwist_unit landmarks prevFrame :
  unitInterval (HandTracker.rawTwist landmarks prevFrame).
Proof.
  unfold unitInterval, HandTracker.rawTwist.
  destruct landmarks as [|h1 [|h2 [|h3 l]]]; try lra. cbv zeta.
  match goal with |- context [Math.min 1 (?v * 5)] =>
    assert (0 <= v) by
      (unfold Math.abs;
       match goal with |- 0 <= Rabs ?a + Rabs ?b =>
         pose proof (Rabs_pos a); pose proof (Rabs_pos b); lra end)
  end.
  clamp.
Qed.

Lemma handTension_unit hand : unitInterval (HandTracker.handTension hand).
Proof. unfold unitInterval, HandTracker.handTension. cbv zeta. clamp. Qed.

Lemma tensionPass_fold landmarks a c :
  let r := fold_left
    (fun acc hand =>
       let t := HandTracker.handTension hand in
       (fst acc + t, if decide (t > 0.6) then S (snd acc) else snd acc))
    landmarks (a, c) in
  a <= fst r <= a + INR (length landmarks) /\
  (c <= snd r <= c + length landmarks)%nat /\
  (snd r = (c + length landmarks)%nat <->
   Forall (fun hand => HandTracker.handTension hand > 0.6) landmarks).
Proof.
  revert a c. induction landmarks as [|h l IH]; intros a c; cbv zeta.
  - cbn. repeat split; try lra; try lia. constructor.
  - cbn [fold_left fst snd length]. rewrite S_INR.
    pose proof (handTension_unit h) as Hu. unfold unitInterval in Hu.
    match goal with |- context [fold_left ?f l (?a', ?c')] =>
      specialize (IH a' c'); cbv zeta in IH end.
    destruct IH as (Hs & Hc & Hall).
    destruct (decide (HandTracker.handTension h > 0.6)) as [Hg|Hg];
      cbv iota in *.
    + repeat split; try lra; try lia.
      * intros H. constructor; [exact Hg|]. apply Hall. lia.
      * intros H. inversion H; subst. apply Hall in H3. lia.
    + repeat split; try lra; try lia.
      intros H. inversion H; subst. contradiction.
Qed.

Lemma rawTension_unit h l : unitInterval (HandTracker.rawTension (h :: l)).
Proof.
  unfold HandTracker.rawTension, HandTracker.tensionPass.
  destruct (tensionPass_fold (h :: l) 0 0%nat) as (Hs & _).
  apply div_unit.
  - apply lt_0_INR. cbn. lia.
  - lra.
Qed.

Lemma grabbing_spec landmarks :
  HandTracker.grabbing landmarks = true <->
  length landmarks = 2%nat /\
  Forall (fun hand => HandTracker.handTension hand > 0.6) landmarks.
Proof.
  unfold HandTracker.grabbing, HandTracker.tensionPass.
  destruct (tensionPass_fold landmarks 0 0%nat) as (_ & _ & Hall).
  rewrite andb_true_iff, !bool_decide_eq_true. cbn in Hall. tauto.
Qed.

Lemma centerPass_fold landmarks a b c :
  let r := fold_left
    (fun acc hand =>
       let w := hand 0%nat in
       (fst (fst acc) + Landmark.x w, snd (fst acc) + Landmark.y w,
        S (snd acc)))
    landmarks (a, b, c) in
  snd r = (c + length landmarks)%nat /\
  (normalized (Some landmarks) ->
   a <= fst (fst r) <= a + INR (length landmarks) /\
   b <= snd (fst r) <= b + INR (length landmarks)).
Proof.
  revert a b c. induction landmarks as [|h l IH]; intros a b c; cbv zeta.
  - cbn. split; [lia|]. intros _. lra.
  - cbn [fold_left fst snd length]. rewrite S_INR.
    match goal with |- context [fold_left ?f l (?a', ?b', ?c')] =>
      specialize (IH a' b' c'); cbv zeta in IH end.
    destruct IH as (Hc & Hn). split; [lia|].
    intros Hnorm.
    destruct (Hnorm (h :: l) h eq_refl (or_introl eq_refl)) as (Hx & Hy).
    unfold unitInterval in *.
    destruct Hn as (Hsx & Hsy).
    { intros l' h' [= <-] Hin. apply (Hnorm (h :: l) h' eq_refl).
      right. exact Hin. }
    split; lra.
Qed.

Lemma storeHandY_frame landmarks prevFrame :
  PrevFrame.centerX (HandTracker.storeHandY landmarks prevFrame)
  = PrevFrame.centerX prevFrame /\
  PrevFrame.centerY (HandTracker.storeHandY landmarks prevFrame)
  = PrevFrame.centerY prevFrame /\
  PrevFrame.timestamp (HandTracker.storeHandY landmarks prevFrame)
  = PrevFrame.timestamp prevFrame.
Proof.
  unfold HandTracker.storeHandY.
  destruct landmarks as [|h1 [|h2 [|h3 l]]]; repeat split; reflexivity.
Qed.

Lemma processResults_absent results timestamp refs :
  absent results ->
  HandTracker.processResults results timestamp refs =
  (HandTracker.mkRefs (decayed (HandTracker.smoothedRef refs))
     (HandTracker.prevFrameRef refs),
   emitted (decayed (HandTracker.smoothedRef refs)) false false).
Proof. intros [-> | ->]; reflexivity. Qed.

Lemma processResults_present h l timestamp refs :
  let landmarks := h :: l in
  HandTracker.processResults (Some landmarks) timestamp refs =
  (HandTracker.mkRefs (nextSmoothed landmarks timestamp refs)
     (PrevFrame.mk ((1 - meanX landmarks) * 2 - 1)
        (- ((1 - meanY landmarks) * 2 - 1)) timestamp
        (PrevFrame.hand1Y
           (HandTracker.storeHandY landmarks (HandTracker.prevFrameRef refs)))
        (PrevFrame.hand2Y
           (HandTracker.storeHandY landmarks (HandTracker.prevFrameRef refs)))),
   emitted (nextSmoothed landmarks timestamp refs) true
     (HandTracker.grabbing landmarks)).
Proof.
  cbv zeta. unfold HandTracker.processResults, nextSmoothed, nextVelocity,
    meanX, meanY, elapsed, HandTracker.rawVelocity, emitted.
  destruct (storeHandY_frame (h :: l) (HandTracker.prevFrameRef refs))
    as (Hx & Hy & Ht).
  unfold HandTracker.centerPass.
  destruct (centerPass_fold (h :: l) 0 0 0%nat) as (Hc & _).
  cbv beta iota zeta in *.
  match goal with |- context [fold_left ?f (h :: l) (0, 0, 0%nat)] =>
    destruct (fold_left f (h :: l) (0, 0, 0%nat)) as [[cx cy] count]
  end.
  cbn [fst snd] in *. rewrite Hx, Hy, Ht.
  destruct (decide (0 < count)%nat) as [_|Hn]; [|cbn in Hc; lia].
  rewrite Hc. cbn [plus]. reflexivity.
Qed.

Lemma lerp_approach neutral rate old :
  0 < rate < 1 -> approach neutral rate old (HandTracker.lerp old neutral rate).
Proof.
  intros Hr. pose proof (lerp_toward old neutral rate) as H.
  unfold approach. rewrite H. split; [reflexivity|].
  rewrite Rabs_mult, (Rabs_pos_eq (1 - rate)) by lra.
  pose proof (Rabs_pos (old - neutral)).
  pose proof (Rle_0_sqr (old - neutral)) as Hsq. unfold Rsqr in Hsq.
  repeat split; [nra | nra |].
  intros Hne. assert (0 < Rabs (old - neutral)) by (apply Rabs_pos_lt; lra).
  nra.
Qed.

Lemma run_cons results timestamp rest refs :
  HandTracker.run ((results, timestamp) :: rest) refs =
  (fst (HandTracker.run rest
          (fst (HandTracker.processResults results timestamp refs))),
   snd (HandTracker.processResults results timestamp refs)
   :: snd (HandTracker.run rest
             (fst (HandTracker.processResults results timestamp refs)))).
Proof.
  cbn [HandTracker.run].
  destruct (HandTracker.processResults results timestamp refs) as [refs' d].
  cbn [fst snd]. destruct (HandTracker.run rest refs') as [refs'' out].
  reflexivity.
Qed.

Lemma absent_run frames refs :
  allAbsent frames ->
  let s0 := HandTracker.smoothedRef refs in
  let s := HandTracker.smoothedRef (fst (HandTracker.run frames refs)) in
  let n := length frames in
  Forall (fun d => HandData.isPresent d = false /\ HandData.grabbing d = false)
    (snd (HandTracker.run frames refs)) /\
  Smoothed.expansion s - 0.5 = (1 - 0.05) ^ n * (Smoothed.expansion s0 - 0.5) /\
  Smoothed.tension s = (1 - 0.05) ^ n * Smoothed.tension s0 /\
  Smoothed.rotation s = (1 - 0.05) ^ n * Smoothed.rotation s0 /\
  Smoothed.twist s = (1 - 0.05) ^ n * Smoothed.twist s0 /\
  Smoothed.velocity s = (1 - 0.1) ^ n * Smoothed.velocity s0.
Proof.
  intros H. revert refs. induction H as [|[results ts] rest Hab _ IH];
    intros refs; cbv zeta.
  - cbn. repeat split; try lra. constructor.
  - rewrite run_cons. cbn [fst snd length].
    specialize (IH (fst (HandTracker.processResults results ts refs))).
    cbv zeta in IH. destruct IH as (Hall & He & Ht & Hr & Hw & Hv).
    rewrite (processResults_absent results ts refs Hab) in *.
    cbn [fst snd HandTracker.smoothedRef] in *.
    split; [constructor; [split; reflexivity|exact Hall]|].
    rewrite He, Ht, Hr, Hw, Hv. unfold decayed, HandTracker.lerp.
    cbn [Smoothed.expansion Smoothed.tension Smoothed.rotation Smoothed.twist
         Smoothed.velocity pow].
    repeat split; lra.
Qed.

(** C3.  A call without hands emits [isPresent = false] and
    [grabbing = false]; expansion approaches 0.5 and tension, rotation
    and twist approach 0 at rate 0.05, velocity approaches 0 at rate 0.1
    (each gap shrinks by [1 - rate], so no value moves away from its
    rest value or crosses it); both rates are below [smoothingSpeed].
    Over any run of such calls every signal is absent and the gaps are
    the first ones times [(1 - rate) ^ n]. *)
Theorem absent_hand_decay (results : option (list Hand)) (timestamp : R)
    (frames : list (option (list Hand) * R)) (refs : HandTracker.Refs) :
  absent results -> allAbsent frames ->
  let s := HandTracker.smoothedRef refs in
  let d := snd (HandTracker.processResults results timestamp refs) in
  let s' :=
    HandTracker.smoothedRef
      (fst (HandTracker.processResults results timestamp refs)) in
  let sn := HandTracker.smoothedRef (fst (HandTracker.run frames refs)) in
  let n := length frames in
  (HandData.isPresent d = false /\ HandData.grabbing d = false) /\
  (approach 0.5 0.05 (Smoothed.expansion s) (HandData.expansion d) /\
   approach 0 0.05 (Smoothed.tension s) (HandData.tension d) /\
   approach 0 0.05 (Smoothed.rotation s) (HandData.rotation d) /\
   approach 0 0.05 (Smoothed.twist s) (HandData.twist d) /\
   approach 0 0.1 (Smoothed.velocity s) (HandData.velocity d)) /\
  d = emitted s' false false /\
  (0.05 < HandTracker.smoothingSpeed /\ 0.1 < HandTracker.smoothingSpeed) /\
  (Forall
     (fun d => HandData.isPresent d = false /\ HandData.grabbing d = false)
     (snd (HandTracker.run frames refs)) /\
   Smoothed.expansion sn - 0.5 = (1 - 0.05) ^ n * (Smoothed.expansion s - 0.5) /\
   Smoothed.tension sn = (1 - 0.05) ^ n * Smoothed.tension s /\
   Smoothed.rotation sn = (1 - 0.05) ^ n * Smoothed.rotation s /\
   Smoothed.twist sn = (1 - 0.05) ^ n * Smoothed.twist s /\
   Smoothed.velocity sn = (1 - 0.1) ^ n * Smoothed.velocity s).
Proof.
  intros Hab Hall. cbv zeta.
  rewrite (processResults_absent results timestamp refs Hab).
  cbn [fst snd HandTracker.smoothedRef].
  split; [split; reflexivity|]. split.
  { unfold emitted, decayed.
    cbn [HandData.expansion HandData.tension HandData.rotation HandData.twist
         HandData.velocity Smoothed.expansion Smoothed.tension
         Smoothed.rotation Smoothed.twist Smoothed.velocity].
    repeat split; apply lerp_approach; lra. }
  split; [reflexivity|].
  split; [unfold HandTracker.smoothingSpeed; lra|].
  apply absent_run. exact Hall.
Qed.

Lemma mean_unit h l :
  normalized (Some (h :: l)) ->
  unitInterval (meanX (h :: l)) /\ unitInterval (meanY (h :: l)).
Proof.
  intros Hn. unfold meanX, meanY, HandTracker.centerPass.
  destruct (centerPass_fold (h :: l) 0 0 0%nat) as (_ & Hb).
  destruct (Hb Hn) as (Hx & Hy).
  assert (0 < INR (length (h :: l))) by (apply lt_0_INR; cbn; lia).
  rewrite Rplus_0_l in Hx, Hy.
  split; apply div_unit; assumption.
Qed.

Lemma decayed_in_range s : smoothedInRange s -> smoothedInRange (decayed s).
Proof.
  unfold smoothedInRange, decayed, unitInterval, signedUnit.
  cbn [Smoothed.expansion Smoothed.tension Smoothed.rotation Smoothed.twist
       Smoothed.centerX Smoothed.centerY].
  intros (He & Ht & Hw & Hr & Hx & Hy).
  split; [apply lerp_between; lra|]. split; [apply lerp_between; lra|].
  split; [apply lerp_between; lra|]. split; [apply lerp_between; lra|].
  split; assumption.
Qed.

Lemma nextSmoothed_in_range h l timestamp refs :
  normalized (Some (h :: l)) ->
  smoothedInRange (HandTracker.smoothedRef refs) ->
  smoothedInRange (nextSmoothed (h :: l) timestamp refs).
Proof.
  intros Hn (He & Ht & Hw & Hr & Hx & Hy).
  destruct (mean_unit h l Hn) as (Hmx & Hmy).
  pose proof (rawExpansion_unit (h :: l)) as H1.
  pose proof (rawTension_unit h l) as H2.
  pose proof (rawTwist_unit (h :: l) (HandTracker.prevFrameRef refs)) as H3.
  pose proof (rawRotation_signed (h :: l) (HandTracker.prevFrameRef refs)) as H4.
  unfold smoothedInRange, nextSmoothed, unitInterval, signedUnit in *.
  cbn [Smoothed.expansion Smoothed.tension Smoothed.rotation Smoothed.twist
       Smoothed.centerX Smoothed.centerY].
  unfold HandTracker.smoothingSpeed.
  split; [apply lerp_between; lra|]. split; [apply lerp_between; lra|].
  split; [apply lerp_between; lra|]. split; [apply lerp_between; lra|].
  split; apply lerp_between; lra.
Qed.

Lemma emitted_in_range s p g : smoothedInRange s -> signalInRange (emitted s p g).
Proof. intros H. exact H. Qed.

Lemma processResults_in_range results timestamp refs :
  normalized results -> smoothedInRange (HandTracker.smoothedRef refs) ->
  smoothedInRange
    (HandTracker.smoothedRef
       (fst (HandTracker.processResults results timestamp refs))) /\
  signalInRange (snd (HandTracker.processResults results timestamp refs)).
Proof.
  intros Hn Hs. destruct results as [[|h l]|].
  - rewrite processResults_absent by (right; reflexivity).
    cbn [fst snd HandTracker.smoothedRef].
    split; [|apply emitted_in_range]; apply decayed_in_range, Hs.
  - rewrite processResults_present. cbn [fst snd HandTracker.smoothedRef].
    split; [|apply emitted_in_range]; apply nextSmoothed_in_range; assumption.
  - rewrite processResults_absent by (left; reflexivity).
    cbn [fst snd HandTracker.smoothedRef].
    split; [|apply emitted_in_range]; apply decayed_in_range, Hs.
Qed.

(** C5.  Over any run of frames whose wrists lie in the normalized
    image, started from smoothed values in range, the smoothed values
    stay in range and every emitted signal has expansion, tension and
    twist in [0, 1] and rotation, centerX and centerY in [-1, 1]. *)
Theorem signal_bounds (frames : list (option (list Hand) * R))
    (refs : HandTracker.Refs) :
  allNormalized frames ->
  smoothedInRange (HandTracker.smoothedRef refs) ->
  smoothedInRange (HandTracker.smoothedRef (fst (HandTracker.run frames refs)))
  /\ Forall signalInRange (snd (HandTracker.run frames refs)).
Proof.
  intros H. revert refs. induction H as [|[results ts] rest Hn _ IH];
    intros refs Hs.
  - split; [exact Hs|constructor].
  - rewrite run_cons. cbn [fst snd].
    destruct (processResults_in_range results ts refs Hn Hs) as (Hs' & Hd).
    destruct (IH _ Hs') as (Hs'' & Hall).
    split; [exact Hs''|constructor; assumption].
Qed.

Lemma initial_in_range : smoothedInRange (HandTracker.smoothedRef HandTracker.initial).
Proof.
  unfold smoothedInRange, unitInterval, signedUnit. cbn. repeat split; lra.
Qed.

Lemma wristDistance_euclid a b :
  0 <= HandTracker.wristDistance a b /\
  HandTracker.wristDistance a b * HandTracker.wristDistance a b
  = (Landmark.x a - Landmark.x b) * (Landmark.x a - Landmark.x b)
    + (Landmark.y a - Landmark.y b) * (Landmark.y a - Landmark.y b).
Proof.
  unfold HandTracker.wristDistance, Math.sqrt, Math.pow. cbn [pow]. split.
  - apply sqrt_pos.
  - rewrite sqrt_sqrt; [lra|].
    pose proof (Rle_0_sqr (Landmark.x a - Landmark.x b)).
    pose proof (Rle_0_sqr (Landmark.y a - Landmark.y b)).
    unfold Rsqr in *. lra.
Qed.

(** C8.  With exactly two hands the raw expansion is the Euclidean
    distance of the two wrists taken from [0.1, 0.1 + 1/1.5] to [0, 1]
    and clamped; with any other number of hands it is 0.5.  A frame with
    hands blends the smoothed expansion toward that raw value, a frame
    without hands blends it toward 0.5. *)
Theorem expansion_needs_two_hands :
  (forall h1 h2 : Hand,
     let d := HandTracker.wristDistance (h1 0%nat) (h2 0%nat) in
     let raw := HandTracker.rawExpansion [h1; h2] in
     (0 <= d /\
      d * d
      = (Landmark.x (h1 0%nat) - Landmark.x (h2 0%nat))
        * (Landmark.x (h1 0%nat) - Landmark.x (h2 0%nat))
        + (Landmark.y (h1 0%nat) - Landmark.y (h2 0%nat))
          * (Landmark.y (h1 0%nat) - Landmark.y (h2 0%nat))) /\
     raw = Rmax 0 (Rmin 1 ((d - 0.1) * 1.5)) /\
     (d <= 0.1 -> raw = 0) /\
     (0.1 <= d <= 0.1 + 1 / 1.5 -> raw = (d - 0.1) / (1 / 1.5)) /\
     (0.1 + 1 / 1.5 <= d -> raw = 1)) /\
  (forall landmarks : list Hand,
     length landmarks <> 2%nat -> HandTracker.rawExpansion landmarks = 0.5) /\
  (forall (h : Hand) (l : list Hand) timestamp refs,
     Smoothed.expansion
       (HandTracker.smoothedRef
          (fst (HandTracker.processResults (Some (h :: l)) timestamp refs)))
     = HandTracker.lerp (Smoothed.expansion (HandTracker.smoothedRef refs))
         (HandTracker.rawExpansion (h :: l)) HandTracker.smoothingSpeed) /\
  (forall results timestamp refs,
     absent results ->
     Smoothed.expansion
       (HandTracker.smoothedRef
          (fst (HandTracker.processResults results timestamp refs)))
     = HandTracker.lerp (Smoothed.expansion (HandTracker.smoothedRef refs))
         0.5 0.05).
Proof.
  split; [|split; [|split]].
  - intros h1 h2. cbv zeta. split; [apply wristDistance_euclid|].
    unfold HandTracker.rawExpansion. cbv zeta.
    split; [reflexivity|]. repeat split; intros; clamp.
  - intros landmarks Hl. unfold HandTracker.rawExpansion.
    destruct landmarks as [|h1 [|h2 [|h3 l]]]; try reflexivity.
    cbn in Hl. lia.
  - intros h l timestamp refs. rewrite processResults_present. reflexivity.
  - intros results timestamp refs Hab.
    rewrite processResults_absent by exact Hab. reflexivity.
Qed.

Lemma rawVelocity_nonneg cx cy dt prevFrame :
  0 < dt -> 0 <= HandTracker.rawVelocity cx cy dt prevFrame.
Proof.
  intros Hdt. unfold HandTracker.rawVelocity, Math.sqrt. cbv zeta.
  apply Rle_mult_inv_pos; [apply sqrt_pos|exact Hdt].
Qed.

Lemma nextVelocity_cases landmarks timestamp refs :
  let dt := elapsed timestamp (HandTracker.prevFrameRef refs) in
  let v := Smoothed.velocity (HandTracker.smoothedRef refs) in
  (0 < dt < 0.5 ->
   nextVelocity landmarks timestamp refs
   = HandTracker.lerp v
       (Rmin 1
          (HandTracker.rawVelocity (meanX landmarks) (meanY landmarks) dt
             (HandTracker.prevFrameRef refs) * 2))
       0.3) /\
  (~ 0 < dt < 0.5 -> nextVelocity landmarks timestamp refs = v).
Proof.
  cbv zeta. unfold nextVelocity. cbv zeta. split; intros H.
  - rewrite !bool_decide_eq_true_2 by lra. reflexivity.
  - destruct (bool_decide (_ > 0)) eqn:H1; [|reflexivity].
    destruct (bool_decide (_ < 0.5)) eqn:H2; [|reflexivity].
    apply bool_decide_eq_true in H1, H2. exfalso. apply H. lra.
Qed.

Lemma nextVelocity_unit landmarks timestamp refs :
  unitInterval (Smoothed.velocity (HandTracker.smoothedRef refs)) ->
  unitInterval (nextVelocity landmarks timestamp refs).
Proof.
  intros Hv. unfold unitInterval in *.
  destruct (nextVelocity_cases landmarks timestamp refs) as (Hin & Hout).
  cbv zeta in *.
  destruct (Rlt_dec 0 (elapsed timestamp (HandTracker.prevFrameRef refs)))
    as [H0|H0].
  - destruct (Rlt_dec (elapsed timestamp (HandTracker.prevFrameRef refs)) 0.5)
      as [H1|H1].
    + rewrite Hin by lra.
      pose proof (rawVelocity_nonneg (meanX landmarks) (meanY landmarks) _
                    (HandTracker.prevFrameRef refs) H0) as Hr.
      apply lerp_between; [lra| |lra]. unfold Rmin.
      destruct (Rle_dec _ _); lra.
    + rewrite Hout by lra. exact Hv.
  - rewrite Hout by lra. exact Hv.
Qed.

Lemma processResults_velocity_unit results timestamp refs :
  unitInterval (Smoothed.velocity (HandTracker.smoothedRef refs)) ->
  unitInterval
    (Smoothed.velocity
       (HandTracker.smoothedRef
          (fst (HandTracker.processResults results timestamp refs)))) /\
  HandData.velocity (snd (HandTracker.processResults results timestamp refs))
  = Smoothed.velocity
      (HandTracker.smoothedRef
         (fst (HandTracker.processResults results timestamp refs))).
Proof.
  intros Hv. destruct results as [[|h l]|].
  - rewrite processResults_absent by (right; reflexivity).
    split; [|reflexivity]. cbn. apply lerp_between; unfold unitInterval in *; lra.
  - rewrite processResults_present. split; [|reflexivity].
    cbn. apply nextVelocity_unit. exact Hv.
  - rewrite processResults_absent by (left; reflexivity).
    split; [|reflexivity]. cbn. apply lerp_between; unfold unitInterval in *; lra.
Qed.

Lemma run_velocity_unit frames refs :
  unitInterval (Smoothed.velocity (HandTracker.smoothedRef refs)) ->
  Forall (fun d => unitInterval (HandData.velocity d))
    (snd (HandTracker.run frames refs)).
Proof.
  revert refs. induction frames as [|[results ts] rest IH]; intros refs Hv.
  - constructor.
  - rewrite run_cons. cbn [snd].
    destruct (processResults_velocity_unit results ts refs Hv) as (Hv' & He).
    constructor; [rewrite He; exact Hv'|apply IH; exact Hv'].
Qed.

(** The gate of the velocity block.  On a frame with hands the smoothed
    velocity is touched only when the elapsed time [dt] since the stored
    frame is positive and below 0.5 s; it is then blended at rate 0.3
    toward the raw velocity of the frame (the distance between the wrist
    mean and the stored center, over [dt]), doubled and capped at 1
    before the blend; otherwise it is left as it is.  The emitted
    velocity is the smoothed one, and it stays in [0, 1] over any run. *)
Lemma velocity_gate (h : Hand) (l : list Hand) (timestamp : R)
    (refs : HandTracker.Refs) (frames : list (option (list Hand) * R)) :
  let dt := elapsed timestamp (HandTracker.prevFrameRef refs) in
  let v := Smoothed.velocity (HandTracker.smoothedRef refs) in
  let out := HandTracker.processResults (Some (h :: l)) timestamp refs in
  let v' := Smoothed.velocity (HandTracker.smoothedRef (fst out)) in
  let raw :=
    HandTracker.rawVelocity (meanX (h :: l)) (meanY (h :: l)) dt
      (HandTracker.prevFrameRef refs) in
  HandData.velocity (snd out) = v' /\
  (0 < dt < 0.5 ->
   0 <= raw /\ v' = HandTracker.lerp v (Math.min 1 (raw * 2)) 0.3) /\
  (~ 0 < dt < 0.5 -> v' = v) /\
  (unitInterval v -> unitInterval v') /\
  (unitInterval v ->
   Forall (fun d => unitInterval (HandData.velocity d))
     (snd (HandTracker.run frames refs))).
Proof.
  cbv zeta. rewrite processResults_present. cbn [fst snd HandTracker.smoothedRef].
  unfold nextSmoothed, emitted. cbn [Smoothed.velocity HandData.velocity].
  destruct (nextVelocity_cases (h :: l) timestamp refs) as (Hin & Hout).
  cbv zeta in *. split; [reflexivity|]. split; [|split; [|split]].
  - intros Hdt. split; [|apply Hin; exact Hdt].
    apply rawVelocity_nonneg. lra.
  - exact Hout.
  - apply nextVelocity_unit.
  - apply run_velocity_unit.
Qed.

Lemma mean_single (h : Hand) :
  meanX [h] = Landmark.x (h 0%nat) /\ meanY [h] = Landmark.y (h 0%nat).
Proof.
  unfold meanX, meanY, HandTracker.centerPass. cbn. split; lra.
Qed.

(** C6, at the failing input.  A hand that stays at (0.25, 0.5) over
    two frames 100 ms apart: the center has not moved, so the velocity
    the claim describes is 0.  The code takes the displacement from the
    stored center, which it mirrored to (0.5, 0) before storing, to the
    unmirrored mean (0.25, 0.5), and emits 0.3 (clamping after the
    blend the raw value the code computes would give 1). *)
Lemma stationary_hand_velocity :
  let refs1 :=
    fst (HandTracker.processResults (Some [stillHand]) 1000
           HandTracker.initial) in
  let out2 := HandTracker.processResults (Some [stillHand]) 1100 refs1 in
  let center := (meanX [stillHand], meanY [stillHand]) in
  let dt := elapsed 1100 (HandTracker.prevFrameRef refs1) in
  let raw :=
    HandTracker.rawVelocity (fst center) (snd center) dt
      (HandTracker.prevFrameRef refs1) in
  Smoothed.velocity (HandTracker.smoothedRef refs1) = 0 /\
  dt = 0.1 /\
  HandData.velocity (snd out2) = 0.3 /\
  velocityAsSpecified 0 center center dt = 0 /\
  Math.max 0 (Math.min 1 (HandTracker.lerp 0 raw 0.3)) = 1.
Proof.
  cbv zeta. destruct (mean_single stillHand) as (Hmx & Hmy).
  cbn [stillHand Landmark.x Landmark.y] in Hmx, Hmy.
  assert (0.5 <= sqrt 0.3125) as Hs.
  { replace 0.5 with (sqrt (0.5 * 0.5)) by (rewrite sqrt_square; lra).
    apply sqrt_le_1; lra. }
  rewrite !processResults_present. cbn [fst snd].
  unfold emitted, nextSmoothed. cbn [HandData.velocity Smoothed.velocity].
  unfold nextVelocity, elapsed, HandTracker.rawVelocity, velocityAsSpecified.
  cbn [HandTracker.prevFrameRef HandTracker.smoothedRef HandTracker.initial
       PrevFrame.timestamp PrevFrame.centerX PrevFrame.centerY
       Smoothed.velocity Smoothed.initial PrevFrame.initial fst snd].
  cbv zeta. rewrite Hmx, Hmy.
  rewrite (bool_decide_eq_true_2 ((1000 - 0) / 1000 > 0)) by lra.
  rewrite (bool_decide_eq_false_2 ((1000 - 0) / 1000 < 0.5)) by lra.
  cbn [andb].
  rewrite (bool_decide_eq_true_2 ((1100 - 1000) / 1000 > 0)) by lra.
  rewrite (bool_decide_eq_true_2 ((1100 - 1000) / 1000 < 0.5)) by lra.
  cbn [andb].
  replace ((0.25 - ((1 - 0.25) * 2 - 1)) * (0.25 - ((1 - 0.25) * 2 - 1))
           + (0.5 - - ((1 - 0.5) * 2 - 1)) * (0.5 - - ((1 - 0.5) * 2 - 1)))
    with 0.3125 by lra.
  replace ((0.25 - 0.25) * (0.25 - 0.25) + (0.5 - 0.5) * (0.5 - 0.5))
    with 0 by lra.
  unfold Math.sqrt. rewrite sqrt_0.
  split; [reflexivity|]. split; [lra|]. unfold HandTracker.lerp.
  split; [|split]; clamp.
Qed.

(** ** Two motionless hands *)

Lemma stillPair_raw :
  meanX stillPair = 0.5 /\ meanY stillPair = 0.5 /\
  HandTracker.rawExpansion stillPair = 0.
Proof.
  split; [unfold meanX, HandTracker.centerPass, stillPair; cbn; lra|].
  split; [unfold meanY, HandTracker.centerPass, stillPair; cbn; lra|].
  unfold stillPair, HandTracker.rawExpansion, HandTracker.wristDistance.
  cbv zeta. cbn [Landmark.x Landmark.y]. unfold Math.sqrt, Math.pow.
  assert (sqrt ((0.46 - 0.54) ^ 2 + (0.5 - 0.5) ^ 2) <= 0.1) as Hs.
  { replace 0.1 with (sqrt (0.1 * 0.1)) by (rewrite sqrt_square; lra).
    apply sqrt_le_1; nra. }
  revert Hs. generalize (sqrt ((0.46 - 0.54) ^ 2 + (0.5 - 0.5) ^ 2)).
  intros d Hd. clamp.
Qed.

Lemma stillPair_present timestamp refs :
  HandTracker.processResults (Some stillPair) timestamp refs =
  (HandTracker.mkRefs (nextSmoothed stillPair timestamp refs)
     (PrevFrame.mk ((1 - meanX stillPair) * 2 - 1)
        (- ((1 - meanY stillPair) * 2 - 1)) timestamp
        (PrevFrame.hand1Y
           (HandTracker.storeHandY stillPair (HandTracker.prevFrameRef refs)))
        (PrevFrame.hand2Y
           (HandTracker.storeHandY stillPair (HandTracker.prevFrameRef refs)))),
   emitted (nextSmoothed stillPair timestamp refs) true
     (HandTracker.grabbing stillPair)).
Proof. exact (processResults_present _ _ timestamp refs). Qed.

(** A frame of the pair that follows a frame of the pair less than
    half a second earlier: the stored center is the mirrored (0, 0), the
    mean is (0.5, 0.5), and the velocity is blended toward 1. *)
Lemma stillPair_frame timestamp refs :
  PrevFrame.centerX (HandTracker.prevFrameRef refs) = 0 ->
  PrevFrame.centerY (HandTracker.prevFrameRef refs) = 0 ->
  0 < timestamp - PrevFrame.timestamp (HandTracker.prevFrameRef refs) <= 100 ->
  let out := HandTracker.processResults (Some stillPair) timestamp refs in
  let s := HandTracker.smoothedRef refs in
  let s' := HandTracker.smoothedRef (fst out) in
  Smoothed.velocity s' = HandTracker.lerp (Smoothed.velocity s) 1 0.3 /\
  Smoothed.expansion s' = HandTracker.lerp (Smoothed.expansion s) 0 0.15 /\
  PrevFrame.centerX (HandTracker.prevFrameRef (fst out)) = 0 /\
  PrevFrame.centerY (HandTracker.prevFrameRef (fst out)) = 0 /\
  PrevFrame.timestamp (HandTracker.prevFrameRef (fst out)) = timestamp /\
  HandData.velocity (snd out) = Smoothed.velocity s' /\
  HandData.expansion (snd out) = Smoothed.expansion s'.
Proof.
  intros Hcx Hcy Hdt. cbv zeta.
  destruct stillPair_raw as (Hmx & Hmy & He).
  rewrite stillPair_present. cbn [fst snd HandTracker.smoothedRef HandTracker.prevFrameRef
    PrevFrame.centerX PrevFrame.centerY PrevFrame.timestamp].
  unfold emitted, nextSmoothed.
  cbn [Smoothed.velocity Smoothed.expansion HandData.velocity
       HandData.expansion].
  rewrite Hmx, Hmy, He.
  destruct (nextVelocity_cases stillPair timestamp refs) as (Hin & _).
  cbv zeta in Hin. rewrite Hin by (unfold elapsed; lra).
  unfold HandTracker.rawVelocity, Math.sqrt. rewrite Hmx, Hmy, Hcx, Hcy.
  assert (Rmin 1
            (sqrt ((0.5 - 0) * (0.5 - 0) + (0.5 - 0) * (0.5 - 0))
             / elapsed timestamp (HandTracker.prevFrameRef refs) * 2) = 1)
    as ->.
  { assert (0.5 <= sqrt ((0.5 - 0) * (0.5 - 0) + (0.5 - 0) * (0.5 - 0)))
      as Hs.
    { replace 0.5 with (sqrt (0.5 * 0.5)) at 1 by (rewrite sqrt_square; lra).
      apply sqrt_le_1; lra. }
    revert Hs.
    generalize (sqrt ((0.5 - 0) * (0.5 - 0) + (0.5 - 0) * (0.5 - 0))).
    intros r Hr. unfold elapsed.
    set (d := timestamp - PrevFrame.timestamp (HandTracker.prevFrameRef refs))
      in *.
    assert (1 <= r / (d / 1000) * 2) as Hge.
    { apply (Rmult_le_reg_r (d / 1000)); [lra|].
      replace (r / (d / 1000) * 2 * (d / 1000)) with (r * 2)
        by (field; lra).
      lra. }
    unfold Rmin. destruct (Rle_dec _ _); lra. }
  unfold HandTracker.smoothingSpeed. repeat split; lra.
Qed.

(** Five frames of two motionless hands, processed from the initial
    refs: the first frame comes a second after the stored timestamp 0
    and leaves the velocity at 0, each of the next four blends it
    toward 1.  The fifth signal has velocity 0.7599 and expansion
    0.2219 and meets the clap condition: handed to the engine, it
    starts an explosion. *)
Lemma still_hands_fire_clap :
  let signals := snd (HandTracker.run stillFrames HandTracker.initial) in
  exists d1 d2 d3 d4 d5,
    signals = [d1; d2; d3; d4; d5] /\
    HandData.velocity d5 = 0.7599 /\ HandData.expansion d5 < 0.25 /\
    qualifies d5 mountedUnit /\
    active (App.handleHandUpdate 1 (fun _ => 0.5) d5 mountedUnit) = true.
Proof.
  cbv zeta. unfold stillFrames. rewrite !run_cons. cbn [snd HandTracker.run].
  set (o1 := HandTracker.processResults (Some stillPair) 1000
               HandTracker.initial).
  set (o2 := HandTracker.processResults (Some stillPair) 1100 (fst o1)).
  set (o3 := HandTracker.processResults (Some stillPair) 1200 (fst o2)).
  set (o4 := HandTracker.processResults (Some stillPair) 1300 (fst o3)).
  set (o5 := HandTracker.processResults (Some stillPair) 1400 (fst o4)).
  assert (Smoothed.velocity (HandTracker.smoothedRef (fst o1)) = 0 /\
          Smoothed.expansion (HandTracker.smoothedRef (fst o1)) = 0.425 /\
          PrevFrame.centerX (HandTracker.prevFrameRef (fst o1)) = 0 /\
          PrevFrame.centerY (HandTracker.prevFrameRef (fst o1)) = 0 /\
          PrevFrame.timestamp (HandTracker.prevFrameRef (fst o1)) = 1000)
    as (V1 & E1 & X1 & Y1 & T1).
  { destruct stillPair_raw as (Hmx & Hmy & He).
    unfold o1. rewrite stillPair_present.
    cbn [fst HandTracker.smoothedRef HandTracker.prevFrameRef
         PrevFrame.centerX PrevFrame.centerY PrevFrame.timestamp].
    unfold nextSmoothed. cbn [Smoothed.velocity Smoothed.expansion].
    rewrite Hmx, Hmy, He.
    destruct (nextVelocity_cases stillPair 1000 HandTracker.initial)
      as (_ & Hout).
    cbv zeta in Hout. rewrite Hout by (unfold elapsed; cbn; lra).
    unfold HandTracker.lerp, HandTracker.smoothingSpeed. cbn.
    repeat split; lra. }
  destruct (stillPair_frame 1100 (fst o1) X1 Y1 ltac:(rewrite T1; lra))
    as (V2 & E2 & X2 & Y2 & T2 & _). fold o2 in V2, E2, X2, Y2, T2.
  destruct (stillPair_frame 1200 (fst o2) X2 Y2 ltac:(rewrite T2; lra))
    as (V3 & E3 & X3 & Y3 & T3 & _). fold o3 in V3, E3, X3, Y3, T3.
  destruct (stillPair_frame 1300 (fst o3) X3 Y3 ltac:(rewrite T3; lra))
    as (V4 & E4 & X4 & Y4 & T4 & _). fold o4 in V4, E4, X4, Y4, T4.
  destruct (stillPair_frame 1400 (fst o4) X4 Y4 ltac:(rewrite T4; lra))
    as (V5 & E5 & _ & _ & _ & D5v & D5e). fold o5 in V5, E5, D5v, D5e.
  unfold HandTracker.lerp in *.
  assert (HandData.velocity (snd o5) = 0.7599) as Hv
    by (rewrite D5v, V5, V4, V3, V2, V1; lra).
  assert (HandData.expansion (snd o5) < 0.25) as He
    by (rewrite D5e, E5, E4, E3, E2, E1; lra).
  assert (qualifies (snd o5) mountedUnit) as Hq
    by (split; [lra|split; [exact He|reflexivity]]).
  exists (snd o1), (snd o2), (snd o3), (snd o4), (snd o5).
  split; [reflexivity|]. split; [exact Hv|]. split; [exact He|].
  split; [exact Hq|].
  exact (proj1 (update_fires 1 (fun _ => 0.5) (snd o5) mountedUnit unitPoints
                  eq_refl Hq)).
Qed.

Lemma clap_trigger_witness :
  qualifies clapData mountedUnit /\
  active (App.handleHandUpdate 1 (fun _ => 0.5) clapData mountedUnit) = true /\
  0 < aggregate
        (velocitiesOf
           (App.handleHandUpdate 1 (fun _ => 0.5) clapData mountedUnit)) 0.
Proof.
  split; [exact clapData_qualifies|].
  destruct (clap_trigger 1 (fun _ => 0.5) clapData mountedUnit unitPoints
              mountedUnit_reachable half_is_draw eq_refl) as [Hfire _].
  destruct (Hfire clapData_qualifies) as (Ha & Hk).
  split; [exact Ha|].
  destruct (Hk 0%nat (Nat.lt_0_succ 0)) as (_ & Hnz & _).
  apply Hnz. change (App.positions unitPoints) with [1; 0; 0].
  rewrite unit_distance. exact R1_neq_R0.
Defined.

Lemma explosion_self_terminates_witness :
  App.reachable 1 unitWorld /\ active unitWorld = true /\
  exists n, (0 < n)%nat /\
    (forall m, (m < n)%nat ->
       active (App.ticks 1 (fun _ _ => 0.5) m unitWorld) = true) /\
    (forall m, (n <= m)%nat ->
       active (App.ticks 1 (fun _ _ => 0.5) m unitWorld) = false).
Proof.
  split; [exact (proj1 unitWorld_facts)|].
  split; [exact (proj1 (proj2 unitWorld_facts))|].
  exact (proj2 (explosion_self_terminates 1 (fun _ _ => 0.5) unitWorld
                  (proj1 unitWorld_facts) (proj1 (proj2 unitWorld_facts)))).
Defined.


Lemma implosion_pull_witness :
  App.pointsRef mountedUnit = Some unitPoints /\
  targetsOf (App.tick 1 (fun _ => 0.5) mountedUnit) = targetsOf mountedUnit.
Proof.
  split; [reflexivity|].
  exact (proj1 (implosion_pull 1 (fun _ => 0.5) mountedUnit unitPoints
                  mountedUnit_reachable eq_refl)).
Defined.

Lemma morph_toward_target_witness :
  shapes.generated 1 [2; 0; 0] /\ typed [2; 0; 0] /\
  positionsOf mountedUnit = Some [1; 0; 0] /\ typed [1; 0; 0] /\
  calm (App.shapeChange [2; 0; 0] mountedUnit) /\
  exists P0 P1,
    positionsOf
      (Typed.ticks Float32.fround 1 (fun _ _ => 0.5) 0
         (App.shapeChange [2; 0; 0] mountedUnit)) = Some P0 /\
    positionsOf
      (Typed.ticks Float32.fround 1 (fun _ _ => 0.5) 1
         (App.shapeChange [2; 0; 0] mountedUnit)) = Some P1 /\
    P0 = [1; 0; 0] /\
    Rabs (read P1 0 - 2) < Rabs (1 - 2).
Proof.
  assert (typed [2; 0; 0]) as HtT
    by (repeat constructor;
        [exact binary32_2 | exact binary32_0 | exact binary32_0]).
  assert (calm (App.shapeChange [2; 0; 0] mountedUnit)) as Hc
    by (repeat split).
  split; [reflexivity|]. split; [exact HtT|]. split; [reflexivity|].
  split; [exact typed_unit|]. split; [exact Hc|].
  destruct (proj2 (morph_toward_target 1 (fun _ _ => 0.5) [2; 0; 0]
                     mountedUnit [1; 0; 0] eq_refl HtT eq_refl eq_refl
                     typed_unit) Hc 0%nat)
    as (P0 & P1 & HP0 & HP1 & Hj).
  exists P0, P1. split; [exact HP0|]. split; [exact HP1|].
  assert (P0 = [1; 0; 0]) as E.
  { cbn [Typed.ticks] in HP0. injection HP0 as <-. reflexivity. }
  split; [exact E|].
  destruct (Hj 0%nat ltac:(lia)) as (_ & _ & _ & _ & _ & _ & Hstrict).
  subst P0. cbv zeta in Hstrict.
  change (read [1; 0; 0] 0) with 1 in Hstrict.
  change (read [2; 0; 0] 0) with 2 in Hstrict.
  apply Hstrict.
  assert (Float32.ulp (blend 1 2) = powerRZ 2 (-23)) as ->.
  { unfold blend, CONFIG.lerpSpeed. apply ulp_unique; [lia| |]; intros _.
    - rewrite Rabs_pos_eq by lra. simpl. lra.
    - rewrite Rabs_pos_eq by lra. simpl. lra. }
  replace (2 - 1) with 1 by lra. rewrite Rabs_R1.
  unfold CONFIG.lerpSpeed.
  assert (powerRZ 2 (-23) <= powerRZ 2 (-5)) as Hp by (apply pow2_le; lia).
  assert (powerRZ 2 (-5) = / 32) as E5 by (simpl; lra).
  lra.
Defined.

Lemma absent_hand_decay_witness :
  absent None /\ allAbsent [(None, 0); (Some [], 16)] /\
  HandData.isPresent
    (snd (HandTracker.processResults None 0 HandTracker.initial)) = false /\
  HandData.grabbing
    (snd (HandTracker.processResults None 0 HandTracker.initial)) = false.
Proof.
  assert (absent None) as H1 by exact (or_introl eq_refl).
  assert (allAbsent [(None, 0); (Some [], 16)]) as H2.
  { constructor; [exact (or_introl eq_refl)|].
    constructor; [exact (or_intror eq_refl)|constructor]. }
  split; [exact H1|]. split; [exact H2|].
  exact (proj1 (absent_hand_decay None 0 [(None, 0); (Some [], 16)]
                  HandTracker.initial H1 H2)).
Defined.

Lemma stillHand_normalized : allNormalized [(Some [stillHand], 1000)].
Proof.
  repeat constructor; cbn in *;
    match goal with H : Some _ = Some _ |- _ => injection H as <- end;
    match goal with H : In _ _ |- _ => destruct H as [<-|[]] end;
    cbn; lra.
Qed.

Lemma signal_bounds_witness :
  allNormalized [(Some [stillHand], 1000)] /\
  Forall signalInRange
    (snd (HandTracker.run [(Some [stillHand], 1000)] HandTracker.initial)).
Proof.
  split; [exact stillHand_normalized|].
  exact (proj2 (signal_bounds [(Some [stillHand], 1000)] HandTracker.initial
                  stillHand_normalized initial_in_range)).
Defined.

(** ** The gestures of a frame with hands *)

Lemma sign_same_direction v1 v2 :
  Math.sign v1 = Math.sign v2 <-> sameDirection v1 v2.
Proof.
  unfold Math.sign, sameDirection.
  repeat destruct (decide _); split; intros H; try lra;
    try (destruct H as [H | [H | H]]; lra).
Qed.

Ltac clamp_all :=
  unfold Math.max, Math.min, Rmax, Rmin in *;
  repeat match goal with
         | |- context [Rle_dec ?a ?b] => destruct (Rle_dec a b)
         | H : context [Rle_dec ?a ?b] |- _ => destruct (Rle_dec a b)
         end;
  try lra.

(** X1.  With two hands the raw rotation is 0 exactly when the two
    wrists' vertical displacements since the stored frame have the same
    sign (both up, both down or both still); otherwise it is ten times
    the difference of the displacements clamped to [-1, 1], which is not
    0 and has the sign of that difference.  One still hand and one
    moving hand therefore give a rotation.  With any other number of
    hands the raw rotation is 0. *)
Theorem rotation_gesture (h1 h2 : Hand) (prevFrame : PrevFrame.t) :
  let v1 := Landmark.y (h1 0%nat) - PrevFrame.hand1Y prevFrame in
  let v2 := Landmark.y (h2 0%nat) - PrevFrame.hand2Y prevFrame in
  let raw := HandTracker.rawRotation [h1; h2] prevFrame in
  (raw = 0 <-> sameDirection v1 v2) /\
  (~ sameDirection v1 v2 ->
   raw = Rmax (-1) (Rmin 1 ((v2 - v1) * 10)) /\
   (v1 < v2 -> 0 < raw) /\ (v2 < v1 -> raw < 0)) /\
  -1 <= raw <= 1 /\
  (forall landmarks : list Hand,
     length landmarks <> 2%nat ->
     HandTracker.rawRotation landmarks prevFrame = 0).
Proof.
  cbv zeta.
  assert (forall landmarks : list Hand,
            length landmarks <> 2%nat ->
            HandTracker.rawRotation landmarks prevFrame = 0) as Hother.
  { intros landmarks Hl. unfold HandTracker.rawRotation.
    destruct landmarks as [|a [|b [|c l]]]; try reflexivity. cbn in Hl. lia. }
  unfold HandTracker.rawRotation at 1 2 3 4 5 6. cbv zeta.
  set (v1 := Landmark.y (h1 0%nat) - PrevFrame.hand1Y prevFrame).
  set (v2 := Landmark.y (h2 0%nat) - PrevFrame.hand2Y prevFrame).
  assert (~ sameDirection v1 v2 -> v1 < v2 \/ v2 < v1) as Hne.
  { intros Hn. apply Rdichotomy. intros He. apply Hn. unfold sameDirection.
    rewrite He. destruct (Rtotal_order v2 0) as [H | [H | H]]; lra. }
  destruct (decide (Math.sign v1 <> Math.sign v2)) as [Hs|Hs].
  - assert (~ sameDirection v1 v2) as Hn
      by (intros H; apply Hs, sign_same_direction, H).
    specialize (Hne Hn).
    split; [|split; [|split; [|exact Hother]]].
    + split; [|intros H; contradiction].
      intros H. exfalso. destruct Hne; clamp_all.
    + intros _. split; [reflexivity|]. split; intros; clamp_all.
    + clamp_all.
  - assert (sameDirection v1 v2) as Hd.
    { apply sign_same_direction.
      destruct (decide (Math.sign v1 = Math.sign v2));
        [assumption|contradiction]. }
    split; [|split; [|split; [|exact Hother]]].
    + split; intros; [exact Hd|reflexivity].
    + intros Hn. contradiction.
    + lra.
Qed.

Lemma mean_tip_distance hand :
  fold_left (fun avgDist idx => avgDist + HandTracker.fingerDistance hand idx)
    HandTracker.tips 0 / INR (length HandTracker.tips)
  = meanTipDistance hand.
Proof. unfold meanTipDistance, HandTracker.tips. cbn. lra. Qed.

Lemma fingerDistance_nonneg hand idx : 0 <= HandTracker.fingerDistance hand idx.
Proof. unfold HandTracker.fingerDistance, Math.sqrt. apply sqrt_pos. Qed.

(** X2.  The tension of a hand is 1 minus the mean fingertip-to-wrist
    distance taken from [0.12, 0.32] to [0, 1] and clamped: 1 for a mean
    distance up to 0.12, 0 from 0.32 on, linear in between; it lies in
    [0, 1] and exceeds the grab level 0.6 exactly when the mean distance
    is below 0.2. *)
Theorem tension_of_hand (hand : Hand) :
  let d := meanTipDistance hand in
  let t := HandTracker.handTension hand in
  0 <= d /\
  t = 1 - Rmax 0 (Rmin 1 ((d - 0.12) * 5)) /\
  0 <= t <= 1 /\
  (d <= 0.12 -> t = 1) /\ (0.32 <= d -> t = 0) /\
  (0.12 <= d <= 0.32 -> t = 1 - (d - 0.12) * 5) /\
  (t > 0.6 <-> d < 0.2).
Proof.
  cbv zeta. unfold HandTracker.handTension. cbv zeta.
  rewrite mean_tip_distance.
  assert (0 <= meanTipDistance hand) as Hd.
  { unfold meanTipDistance.
    pose proof (fingerDistance_nonneg hand 4).
    pose proof (fingerDistance_nonneg hand 8).
    pose proof (fingerDistance_nonneg hand 12).
    pose proof (fingerDistance_nonneg hand 16).
    pose proof (fingerDistance_nonneg hand 20). lra. }
  split; [exact Hd|]. split; [reflexivity|].
  repeat split; intros; clamp_all.
Qed.

(** X3.  A frame with hands emits [grabbing = true] exactly when there
    are exactly two hands and the tension of each exceeds 0.6; one fist
    alone, or three hands, never grab. *)
Theorem grabbing_two_fists (h : Hand) (l : list Hand) (timestamp : R)
    (refs : HandTracker.Refs) :
  HandData.grabbing
    (snd (HandTracker.processResults (Some (h :: l)) timestamp refs)) = true
  <-> length (h :: l) = 2%nat /\
      Forall (fun hand => HandTracker.handTension hand > 0.6) (h :: l).
Proof.
  rewrite processResults_present. cbn [snd emitted HandData.grabbing].
  apply grabbing_spec.
Qed.

Lemma sqrt_quotient_zero s dt :
  0 <= s -> 0 < dt -> (sqrt s / dt = 0 <-> s = 0).
Proof.
  intros Hs Hdt. split.
  - intros H. apply sqrt_eq_0; [exact Hs|].
    apply (Rmult_eq_compat_r dt) in H. unfold Rdiv in H.
    rewrite Rmult_assoc, Rinv_l, Rmult_1_r, Rmult_0_l in H by lra. exact H.
  - intros ->. rewrite sqrt_0. unfold Rdiv. ring.
Qed.

Lemma sum_sqr_nonneg a b : 0 <= a * a + b * b.
Proof.
  pose proof (Rle_0_sqr a). pose proof (Rle_0_sqr b). unfold Rsqr in *. lra.
Qed.

Lemma sum_sqr_zero a b : a * a + b * b = 0 <-> a = 0 /\ b = 0.
Proof.
  split.
  - intros H. apply Rplus_sqr_eq_0. exact H.
  - intros (-> & ->). ring.
Qed.

(** X4.  A frame with hands stores the mirrored center
    [(1 - 2 * meanX, 2 * meanY - 1)] and its timestamp.  The next frame
    with hands takes its displacement between its own unmirrored wrist
    mean and that stored mirrored center, so its raw velocity is
    [sqrt ((x2 + 2*x1 - 1)^2 + (y2 - 2*y1 + 1)^2) / dt]; for a wrist
    mean that has not moved it is 0 only at the point (1/3, 1). *)
Theorem velocity_between_frames (h1 : Hand) (l1 : list Hand) (h2 : Hand)
    (l2 : list Hand) (t1 t2 : R) (refs : HandTracker.Refs) :
  let x1 := meanX (h1 :: l1) in
  let y1 := meanY (h1 :: l1) in
  let x2 := meanX (h2 :: l2) in
  let y2 := meanY (h2 :: l2) in
  let prev :=
    HandTracker.prevFrameRef
      (fst (HandTracker.processResults (Some (h1 :: l1)) t1 refs)) in
  let dt := elapsed t2 prev in
  let raw := HandTracker.rawVelocity x2 y2 dt prev in
  (PrevFrame.centerX prev = 1 - 2 * x1 /\
   PrevFrame.centerY prev = 2 * y1 - 1 /\
   PrevFrame.timestamp prev = t1) /\
  dt = (t2 - t1) / 1000 /\
  raw = sqrt ((x2 + 2 * x1 - 1) * (x2 + 2 * x1 - 1)
              + (y2 - 2 * y1 + 1) * (y2 - 2 * y1 + 1)) / dt /\
  (x2 = x1 -> y2 = y1 -> t1 < t2 -> (raw = 0 <-> x1 = 1 / 3 /\ y1 = 1)).
Proof.
  cbv zeta. rewrite processResults_present.
  cbn [fst HandTracker.prevFrameRef].
  unfold elapsed, HandTracker.rawVelocity, Math.sqrt.
  cbn [PrevFrame.centerX PrevFrame.centerY PrevFrame.timestamp].
  set (x1 := meanX (h1 :: l1)). set (y1 := meanY (h1 :: l1)).
  set (x2 := meanX (h2 :: l2)). set (y2 := meanY (h2 :: l2)).
  split; [repeat split; lra|]. split; [reflexivity|].
  assert ((x2 - ((1 - x1) * 2 - 1)) * (x2 - ((1 - x1) * 2 - 1))
          + (y2 - - ((1 - y1) * 2 - 1)) * (y2 - - ((1 - y1) * 2 - 1))
          = (x2 + 2 * x1 - 1) * (x2 + 2 * x1 - 1)
            + (y2 - 2 * y1 + 1) * (y2 - 2 * y1 + 1)) as -> by ring.
  split; [reflexivity|].
  intros Hx Hy Ht. rewrite Hx, Hy.
  rewrite sqrt_quotient_zero; [|apply sum_sqr_nonneg|lra].
  rewrite sum_sqr_zero. split; intros (H1 & H2); split; lra.
Qed.

Lemma absent_run_prevFrame frames refs :
  allAbsent frames ->
  HandTracker.prevFrameRef (fst (HandTracker.run frames refs))
  = HandTracker.prevFrameRef refs.
Proof.
  intros H. revert refs. induction H as [|[results ts] rest Hab _ IH];
    intros refs; [reflexivity|].
  rewrite run_cons. cbn [fst]. rewrite IH.
  rewrite (processResults_absent results ts refs Hab). reflexivity.
Qed.

(** X5.  Frames without hands leave the stored frame (center, timestamp,
    wrist heights) as it is.  So when hands come back 500 ms or more
    after the last frame with hands, that frame does not update the
    velocity: it emits the velocity the absent frames decayed,
    [0.9 ^ n] times the one before them. *)
Theorem absence_keeps_stored_frame (frames : list (option (list Hand) * R))
    (h : Hand) (l : list Hand) (timestamp : R) (refs : HandTracker.Refs) :
  allAbsent frames ->
  let refs' := fst (HandTracker.run frames refs) in
  HandTracker.prevFrameRef refs' = HandTracker.prevFrameRef refs /\
  (500 <= timestamp - PrevFrame.timestamp (HandTracker.prevFrameRef refs) ->
   HandData.velocity
     (snd (HandTracker.processResults (Some (h :: l)) timestamp refs'))
   = (1 - 0.1) ^ length frames
     * Smoothed.velocity (HandTracker.smoothedRef refs)).
Proof.
  intros Hab. cbv zeta.
  pose proof (absent_run_prevFrame frames refs Hab) as Hp.
  split; [exact Hp|]. intros Hgap.
  rewrite processResults_present. cbn [snd emitted HandData.velocity].
  unfold nextSmoothed. cbn [Smoothed.velocity].
  destruct (nextVelocity_cases (h :: l) timestamp
              (fst (HandTracker.run frames refs))) as (_ & Hout).
  cbv zeta in Hout. rewrite Hout.
  - destruct (absent_run frames refs Hab) as (_ & _ & _ & _ & _ & Hv).
    exact Hv.
  - rewrite Hp. unfold elapsed. lra.
Qed.

Lemma absence_keeps_stored_frame_witness :
  allAbsent [(None, 100); (Some [], 700)] /\
  HandTracker.prevFrameRef
    (fst (HandTracker.run [(None, 100); (Some [], 700)] HandTracker.initial))
  = HandTracker.prevFrameRef HandTracker.initial.
Proof.
  assert (allAbsent [(None, 100); (Some [], 700)]) as H.
  { constructor; [exact (or_introl eq_refl)|].
    constructor; [exact (or_intror eq_refl)|constructor]. }
  split; [exact H|].
  exact (proj1 (absence_keeps_stored_frame [(None, 100); (Some [], 700)]
                  stillHand [] 800 HandTracker.initial H)).
Defined.

Lemma mean_pair (h1 h2 : Hand) :
  meanX [h1; h2] = (Landmark.x (h1 0%nat) + Landmark.x (h2 0%nat)) / 2 /\
  meanY [h1; h2] = (Landmark.y (h1 0%nat) + Landmark.y (h2 0%nat)) / 2.
Proof.
  unfold meanX, meanY, HandTracker.centerPass. cbn. split; lra.
Qed.

(** X6.  The raw twist of a two-hand frame is five times the sum of the
    absolute difference of the two vertical displacements and the
    absolute gap between the first wrist's x and the stored center x,
    capped at 1; it lies in [0, 1].  Since the stored center is the
    mirrored one, two hands that have not moved since the previous
    two-hand frame still give the raw twist [min 1 (5 * |2*x1 + x2 - 1|)],
    and no raw rotation. *)
Theorem twist_gesture (h1 h2 : Hand) (t1 : R) (refs : HandTracker.Refs) :
  let x1 := Landmark.x (h1 0%nat) in
  let x2 := Landmark.x (h2 0%nat) in
  let prev :=
    HandTracker.prevFrameRef
      (fst (HandTracker.processResults (Some [h1; h2]) t1 refs)) in
  (forall prevFrame,
     let v1 := Landmark.y (h1 0%nat) - PrevFrame.hand1Y prevFrame in
     let v2 := Landmark.y (h2 0%nat) - PrevFrame.hand2Y prevFrame in
     HandTracker.rawTwist [h1; h2] prevFrame
     = Rmin 1 ((Rabs (v1 - v2) + Rabs (x1 - PrevFrame.centerX prevFrame)) * 5)
     /\ 0 <= HandTracker.rawTwist [h1; h2] prevFrame <= 1) /\
  HandTracker.rawTwist [h1; h2] prev = Rmin 1 (Rabs (2 * x1 + x2 - 1) * 5) /\
  HandTracker.rawRotation [h1; h2] prev = 0.
Proof.
  cbv zeta. split; [|split].
  - intros prevFrame. split; [reflexivity|].
    apply (rawTwist_unit [h1; h2] prevFrame).
  - rewrite processResults_present. cbn [fst HandTracker.prevFrameRef].
    unfold HandTracker.rawTwist, HandTracker.storeHandY, Math.abs, Math.min.
    cbn [PrevFrame.hand1Y PrevFrame.hand2Y PrevFrame.centerX].
    destruct (mean_pair h1 h2) as (-> & _).
    replace (Landmark.y (h1 0%nat) - Landmark.y (h1 0%nat)
             - (Landmark.y (h2 0%nat) - Landmark.y (h2 0%nat))) with 0 by lra.
    rewrite Rabs_R0. f_equal.
    replace (Landmark.x (h1 0%nat)
             - ((1 - (Landmark.x (h1 0%nat) + Landmark.x (h2 0%nat)) / 2) * 2
                - 1))
      with (2 * Landmark.x (h1 0%nat) + Landmark.x (h2 0%nat) - 1) by lra.
    lra.
  - rewrite processResults_present. cbn [fst HandTracker.prevFrameRef].
    unfold HandTracker.rawRotation, HandTracker.storeHandY.
    cbn [PrevFrame.hand1Y PrevFrame.hand2Y].
    destruct (decide _) as [Hs|_]; [|reflexivity].
    exfalso. apply Hs. f_equal. lra.
Qed.

(** ** The render tick: scale, orientation, size *)

Section Frame.
Variable N : nat.
Variables (rand : nat -> R) (state : App.State) (points : App.Points).

Local Abbreviation state' := (fst (App.animate N rand state points)).
Local Abbreviation points' := (snd (App.animate N rand state points)).
Local Abbreviation hand := (App.hand state).

Lemma animate_scale :
  App.currentScale state'
  = App.currentScale state
    + (targetScale hand - App.currentScale state)
      * CONFIG.gestureResponseSpeed /\
  App.scale points' = App.currentScale state' /\
  App.size points'
  = CONFIG.baseParticleSize
    * (if HandData.isPresent hand then 1 + HandData.twist hand * 0.25 else 1).
Proof.
  unfold App.animate, targetScale.
  destruct (HandData.isPresent (App.hand state)); cbv zeta;
    destruct (for_loop _ _ _) as [[P' V'] m]; repeat split; reflexivity.
Qed.

Lemma animate_orientation_present :
  HandData.isPresent hand = true ->
  App.rotationVelocity state'
  = (App.rotationVelocity state + HandData.rotation hand * 0.015) * 0.92 /\
  App.rotation_x points'
  = App.rotation_x points
    + (- HandData.centerY hand * 0.6 - App.rotation_x points)
      * CONFIG.gestureResponseSpeed /\
  App.rotation_y points'
  = App.rotation_y points
    + (HandData.centerX hand * 0.6 - App.rotation_y points)
      * CONFIG.gestureResponseSpeed
    + App.rotationVelocity state'.
Proof.
  intros Hp. unfold App.animate. rewrite Hp. cbv zeta.
  destruct (for_loop _ _ _) as [[P' V'] m]; repeat split; reflexivity.
Qed.

Lemma animate_orientation_absent :
  HandData.isPresent hand = false ->
  App.rotationVelocity state' = App.rotationVelocity state * 0.92 /\
  App.rotation_x points' = App.rotation_x points * 0.995 /\
  App.rotation_y points' = App.rotation_y points + CONFIG.idleRotationSpeed.
Proof.
  intros Hp. unfold App.animate. rewrite Hp. cbv zeta.
  destruct (for_loop _ _ _) as [[P' V'] m]; repeat split; reflexivity.
Qed.

End Frame.

Lemma ticks_hand N rands n w : handOf (App.ticks N rands n w) = handOf w.
Proof.
  induction n as [|n IH]; [reflexivity|].
  cbn [App.ticks]. unfold handOf in *. rewrite tick_hand. exact IH.
Qed.

Lemma ticks_S N rands n w :
  App.ticks N rands (S n) w = App.tick N (rands n) (App.ticks N rands n w).
Proof. reflexivity. Qed.

(** X7.  In a mounted scene every tick moves [currentScale] toward the
    target scale (1.2 without a hand, [0.5 + 2 * expansion] with one) by
    the fraction 0.08 of the gap and copies it to the scale of the
    points, so after [n] ticks with the same signal the gap is
    [0.92 ^ n] times the first one; for an expansion in [0, 1] a scale
    in [0.5, 2.5] stays there.  The point size after a tick is 0.15
    without a hand and [0.15 * (1 + twist / 4)] with one. *)
Theorem scale_blend (N : nat) (rands : nat -> nat -> R) (w : App.World)
    (n : nat) :
  is_Some (App.pointsRef w) ->
  let target := targetScale (handOf w) in
  let wn := App.ticks N rands n w in
  scaleOf wn - target = (1 - 0.08) ^ n * (scaleOf w - target) /\
  (0 <= HandData.expansion (handOf w) <= 1 -> 0.5 <= scaleOf w <= 2.5 ->
   0.5 <= scaleOf wn <= 2.5) /\
  (forall points',
     App.pointsRef (App.ticks N rands (S n) w) = Some points' ->
     App.scale points' = scaleOf (App.ticks N rands (S n) w) /\
     App.size points'
     = 0.15 * (if HandData.isPresent (handOf w)
               then 1 + HandData.twist (handOf w) * 0.25 else 1)).
Proof.
  intros Hs. cbv zeta.
  assert (forall m, scaleOf (App.ticks N rands m w) - targetScale (handOf w)
                    = (1 - 0.08) ^ m * (scaleOf w - targetScale (handOf w)))
    as Hclosed.
  { intros m. induction m as [|m IH]; [cbn; lra|].
    rewrite ticks_S.
    destruct (ticks_points N rands m w Hs) as [p Hp].
    rewrite (tick_mounted _ _ _ _ Hp). unfold scaleOf in *. cbn [App.stateRef].
    destruct (animate_scale N (rands m) (App.stateRef (App.ticks N rands m w)) p)
      as (-> & _).
    fold (handOf (App.ticks N rands m w)). rewrite ticks_hand.
    unfold CONFIG.gestureResponseSpeed. cbn [pow].
    set (c := App.currentScale (App.stateRef (App.ticks N rands m w))) in *.
    set (t := targetScale (handOf w)) in *.
    replace (c + (t - c) * 0.08 - t) with ((1 - 0.08) * (c - t)) by lra.
    rewrite IH. lra. }
  split; [apply Hclosed|]. split.
  - intros He Hw0. specialize (Hclosed n).
    assert (0.5 <= targetScale (handOf w) <= 2.5) as Ht.
    { unfold targetScale. destruct (HandData.isPresent _); lra. }
    assert (0 < (1 - 0.08) ^ n <= 1) as Hc.
    { split; [apply pow_lt; lra|].
      pose proof (pow_incr (1 - 0.08) 1 n) as Hi. rewrite pow1 in Hi.
      apply Hi. lra. }
    set (c := (1 - 0.08) ^ n) in *. set (t := targetScale (handOf w)) in *.
    set (s0 := scaleOf w) in *.
    assert (scaleOf (App.ticks N rands n w) = t + c * (s0 - t)) as -> by lra.
    split; nra.
  - intros points' Hp'. rewrite ticks_S in *.
    destruct (ticks_points N rands n w Hs) as [p Hp].
    rewrite (tick_mounted _ _ _ _ Hp) in *. cbn [App.pointsRef] in Hp'.
    injection Hp' as <-. unfold scaleOf. cbn [App.stateRef].
    destruct (animate_scale N (rands n) (App.stateRef (App.ticks N rands n w)) p)
      as (_ & -> & ->).
    fold (handOf (App.ticks N rands n w)). rewrite ticks_hand.
    unfold CONFIG.baseParticleSize. split; reflexivity.
Qed.

Lemma scale_blend_witness :
  is_Some (App.pointsRef mountedUnit) /\
  scaleOf (App.ticks 1 (fun _ _ => 0.5) 3 mountedUnit)
  - targetScale (handOf mountedUnit)
  = (1 - 0.08) ^ 3 * (scaleOf mountedUnit - targetScale (handOf mountedUnit)).
Proof.
  assert (is_Some (App.pointsRef mountedUnit)) as H
    by (exists unitPoints; reflexivity).
  split; [exact H|].
  exact (proj1 (scale_blend 1 (fun _ _ => 0.5) mountedUnit 3 H)).
Defined.

(** X8.  The spin accumulator: a tick with a hand present adds
    [rotation * 0.015] and then multiplies by 0.92, a tick without a
    hand only multiplies by 0.92; for rotation signals in [-1, 1] an
    accumulator within [-0.1725, 0.1725] stays there.  With a hand the
    yaw gets the accumulator added after its blend toward
    [centerX * 0.6]; without one the yaw grows by the idle 0.003 and the
    pitch is multiplied by 0.995. *)
Theorem spin_accumulator (N : nat) (rand : nat -> R) (w : App.World)
    (points : App.Points) :
  App.pointsRef w = Some points ->
  let w' := App.tick N rand w in
  let hand := handOf w in
  (-1 <= HandData.rotation hand <= 1 ->
   - spinBound <= spinOf w <= spinBound ->
   - spinBound <= spinOf w' <= spinBound) /\
  (HandData.isPresent hand = true ->
   spinOf w' = (spinOf w + HandData.rotation hand * 0.015) * 0.92 /\
   exists points',
     App.pointsRef w' = Some points' /\
     App.rotation_x points'
     = App.rotation_x points
       + (- HandData.centerY hand * 0.6 - App.rotation_x points) * 0.08 /\
     App.rotation_y points'
     = App.rotation_y points
       + (HandData.centerX hand * 0.6 - App.rotation_y points) * 0.08
       + spinOf w') /\
  (HandData.isPresent hand = false ->
   spinOf w' = spinOf w * 0.92 /\
   exists points',
     App.pointsRef w' = Some points' /\
     App.rotation_x points' = App.rotation_x points * 0.995 /\
     App.rotation_y points' = App.rotation_y points + 0.003).
Proof.
  intros Hp. cbv zeta. rewrite (tick_mounted _ _ _ _ Hp).
  unfold spinOf, handOf, spinBound. cbn [App.stateRef App.pointsRef].
  pose proof (animate_orientation_present N rand (App.stateRef w) points)
    as Hpres.
  pose proof (animate_orientation_absent N rand (App.stateRef w) points)
    as Habs.
  unfold CONFIG.gestureResponseSpeed, CONFIG.idleRotationSpeed in *.
  split; [|split].
  - intros Hr Hb.
    destruct (HandData.isPresent (App.hand (App.stateRef w))).
    + destruct (Hpres eq_refl) as (-> & _). lra.
    + destruct (Habs eq_refl) as (-> & _). lra.
  - intros H. destruct (Hpres H) as (Hv & Hx & Hy).
    split; [exact Hv|]. eexists. split; [reflexivity|].
    split; [exact Hx|exact Hy].
  - intros H. destruct (Habs H) as (Hv & Hx & Hy).
    split; [exact Hv|]. eexists. split; [reflexivity|].
    split; [exact Hx|exact Hy].
Qed.

Lemma spin_accumulator_witness :
  App.pointsRef mountedUnit = Some unitPoints /\
  (HandData.isPresent (handOf mountedUnit) = false ->
   spinOf (App.tick 1 (fun _ => 0.5) mountedUnit)
   = spinOf mountedUnit * 0.92 /\
   exists points',
     App.pointsRef (App.tick 1 (fun _ => 0.5) mountedUnit) = Some points' /\
     App.rotation_x points' = App.rotation_x unitPoints * 0.995 /\
     App.rotation_y points' = App.rotation_y unitPoints + 0.003).
Proof.
  split; [reflexivity|].
  exact (proj2 (proj2 (spin_accumulator 1 (fun _ => 0.5) mountedUnit
                         unitPoints eq_refl))).
Defined.

(** X9.  In every reachable world the React state [handPresent] equals
    [isPresent] of the signal the engine holds: the callback updates it
    exactly when the presence changes, and nothing else touches either. *)
Theorem hand_present_mirrors_signal (N : nat) (w : App.World) :
  App.reachable N w ->
  App.handPresent w = HandData.isPresent (handOf w).
Proof.
  unfold handOf. induction 1 as [T HT | e w Hw IH He]; [reflexivity|].
  destruct e as [a | a | rand data | rand]; cbn [App.step].
  - exact IH.
  - exact IH.
  - destruct (update_frame N rand data w) as (_ & _ & ->).
    unfold App.handleHandUpdate. rewrite <- IH.
    destruct (App.pointsRef w); [destruct (App.clap _ _)|];
      cbn [App.handPresent];
      destruct (decide _) as [Hd|Hd]; try reflexivity;
      destruct (App.handPresent w), (HandData.isPresent data);
      try reflexivity; exfalso; apply Hd; discriminate.
  - rewrite tick_hand.
    destruct (App.pointsRef w) as [p|] eqn:Hp.
    + rewrite (tick_mounted _ _ _ _ Hp). exact IH.
    + rewrite tick_unmounted by exact Hp. exact IH.
Qed.

Lemma hand_present_mirrors_signal_witness :
  App.reachable 1 unitWorld /\
  App.handPresent unitWorld = HandData.isPresent (handOf unitWorld).
Proof.
  split; [exact (proj1 unitWorld_facts)|].
  exact (hand_present_mirrors_signal 1 unitWorld (proj1 unitWorld_facts)).
Defined.

(** X11.  With the explosion off and draws in [0, 1), a tick puts every
    coordinate within [tension * 0.05] of its pure blend toward the
    resolved target: the jitter of one tick is at most half of
    [tension * 0.1], and it vanishes without a hand. *)
Theorem jitter_amplitude (N : nat) (rand : nat -> R) (w : App.World)
    (points : App.Points) :
  App.reachable N w -> App.pointsRef w = Some points -> active w = false ->
  App.draws rand -> 0 <= engineTension (handOf w) ->
  exists P',
    positionsOf (App.tick N rand w) = Some P' /\
    forall j, (j < N * 3)%nat ->
      let p := read (App.positions points) j in
      let t := resolvedTarget (handOf w) (read (targetsOf w) j) in
      Rabs (read P' j - (p + (t - p) * CONFIG.lerpSpeed))
      <= engineTension (handOf w) * 0.05 /\
      (HandData.isPresent (handOf w) = false ->
       read P' j = p + (t - p) * CONFIG.lerpSpeed).
Proof.
  intros Hw Hp Hact Hr Ht.
  destruct (reachable_buffers N w Hw) as (_ & _ & HL).
  assert (length (App.positions points) = (N * 3)%nat) as LP.
  { apply HL. unfold positionsOf. rewrite Hp. reflexivity. }
  rewrite (tick_mounted _ _ _ _ Hp). unfold positionsOf.
  cbn [App.pointsRef fmap option_fmap option_map].
  eexists. split; [reflexivity|]. intros j Hj. cbv zeta.
  destruct (animate_morphing N rand _ points Hact) as (_ & _ & _ & Hread);
    [lia|].
  rewrite Hread. destruct (decide _); [|lia].
  unfold morphingPosition, handOf, targetsOf in *.
  set (p := read (App.positions points) j).
  set (t := resolvedTarget (App.hand (App.stateRef w))
              (read (App.targets (App.stateRef w)) j)).
  set (e := engineTension (App.hand (App.stateRef w))) in *.
  specialize (Hr j). split.
  - replace (p + ((t - p) * CONFIG.lerpSpeed + (rand j - 0.5) * (e * 0.1))
             - (p + (t - p) * CONFIG.lerpSpeed))
      with ((rand j - 0.5) * (e * 0.1)) by lra.
    apply Rabs_le. split; nra.
  - intros Habs. unfold e, engineTension. rewrite Habs. lra.
Qed.

Lemma jitter_amplitude_witness :
  App.pointsRef mountedUnit = Some unitPoints /\
  active mountedUnit = false /\
  exists P',
    positionsOf (App.tick 1 (fun _ => 0.5) mountedUnit) = Some P' /\
    forall j, (j < 1 * 3)%nat ->
      let p := read (App.positions unitPoints) j in
      let t := resolvedTarget (handOf mountedUnit)
                 (read (targetsOf mountedUnit) j) in
      Rabs (read P' j - (p + (t - p) * CONFIG.lerpSpeed))
      <= engineTension (handOf mountedUnit) * 0.05 /\
      (HandData.isPresent (handOf mountedUnit) = false ->
       read P' j = p + (t - p) * CONFIG.lerpSpeed).
Proof.
  split; [reflexivity|]. split; [reflexivity|].
  apply (jitter_amplitude 1 (fun _ => 0.5) mountedUnit unitPoints
           mountedUnit_reachable eq_refl eq_refl half_is_draw).
  unfold engineTension, handOf. cbn. lra.
Defined.

(** X12.  While the explosion lasts, after [n] ticks every velocity
    component is the triggered one times [0.92 ^ n]; with the explosion
    off a tick leaves the velocity buffer as it is, so the last decayed
    values stay until the next clap overwrites them. *)
Theorem velocity_decay (N : nat) (rands : nat -> nat -> R) (w : App.World)
    (n : nat) :
  App.reachable N w ->
  (active w = true -> active (App.ticks N rands n w) = true ->
   forall j, (j < N * 3)%nat ->
     read (velocitiesOf (App.ticks N rands n w)) j
     = read (velocitiesOf w) j * CONFIG.explosionDecay ^ n) /\
  (active w = false ->
   active (App.ticks N rands n w) = false /\
   velocitiesOf (App.ticks N rands n w) = velocitiesOf w).
Proof.
  intros Hw. pose proof (reachable_buffers N w Hw) as Hb. split.
  - intros Hact Hn.
    destruct (reachable_active_mounted N w Hw Hact) as [p Hp].
    assert (is_Some (App.pointsRef w)) as Hs by (eexists; exact Hp).
    exact (proj1 (proj2 (decay_run N rands w Hb Hs Hact n) Hn)).
  - intros Hoff. induction n as [|n (IHa & IHv)]; [split; [exact Hoff|reflexivity]|].
    cbn [App.ticks].
    destruct (tick_quiet N (rands n) _ (ticks_buffers N rands n w Hb) IHa)
      as (Ha & Hv).
    split; [exact Ha|]. rewrite Hv. exact IHv.
Qed.

Lemma velocity_decay_witness :
  App.reachable 1 unitWorld /\ active unitWorld = true /\
  (active (App.ticks 1 (fun _ _ => 0.5) 2 unitWorld) = true ->
   forall j, (j < 1 * 3)%nat ->
     read (velocitiesOf (App.ticks 1 (fun _ _ => 0.5) 2 unitWorld)) j
     = read (velocitiesOf unitWorld) j * CONFIG.explosionDecay ^ 2).
Proof.
  split; [exact (proj1 unitWorld_facts)|].
  split; [exact (proj1 (proj2 unitWorld_facts))|].
  exact (proj1 (velocity_decay 1 (fun _ _ => 0.5) unitWorld 2
                  (proj1 unitWorld_facts))
           (proj1 (proj2 unitWorld_facts))).
Defined.

Lemma for_loop_ext {A : Type} (n : nat) (f g : nat -> A -> A) (a : A) :
  (forall i s, (i < n)%nat -> f i s = g i s) ->
  for_loop n f a = for_loop n g a.
Proof.
  intros H. induction n as [|n IH]; [reflexivity|].
  rewrite !for_loop_S, IH by (intros; apply H; lia). apply H. lia.
Qed.

(** X13.  During an explosion the tick makes no use of [Math.random()]:
    two ticks of the same world with different draws give the same
    world. *)
Theorem explosion_tick_ignores_draws (N : nat) (rand1 rand2 : nat -> R)
    (w : App.World) :
  active w = true -> App.tick N rand1 w = App.tick N rand2 w.
Proof.
  intros Hact. unfold App.tick.
  destruct (App.pointsRef w) as [p|]; [|reflexivity].
  assert (App.animate N rand1 (App.stateRef w) p
          = App.animate N rand2 (App.stateRef w) p) as ->; [|reflexivity].
  unfold App.animate. unfold active in Hact. rewrite Hact.
  assert (forall tension jitter s,
            for_loop N
              (App.particleStep rand1 (App.hand (App.stateRef w)) true
                 (App.targets (App.stateRef w)) tension jitter) s
            = for_loop N
                (App.particleStep rand2 (App.hand (App.stateRef w)) true
                   (App.targets (App.stateRef w)) tension jitter) s) as Hloop.
  { intros tension jitter s. apply for_loop_ext.
    intros i [[P V] m] _. reflexivity. }
  destruct (HandData.isPresent (App.hand (App.stateRef w)));
    cbv zeta; rewrite Hloop; reflexivity.
Qed.

Lemma explosion_tick_ignores_draws_witness :
  active unitWorld = true /\
  App.tick 1 (fun _ => 0.25) unitWorld = App.tick 1 (fun _ => 0.75) unitWorld.
Proof.
  split; [exact (proj1 (proj2 unitWorld_facts))|].
  exact (explosion_tick_ignores_draws 1 (fun _ => 0.25) (fun _ => 0.75)
           unitWorld (proj1 (proj2 unitWorld_facts))).
Defined.

(** X14.  A clap followed by one tick throws a resting particle straight
    out: for a particle off the origin that sits on its target, under a
    signal that does not pull the target in, each coordinate after the
    tick is the old one times [1 + 0.986 * force / dist], a factor of at
    least [1 + 1.38 / dist]. *)
Theorem clap_throws_outward (N : nat) (rand rand' : nat -> R)
    (data : HandData.t) (w : App.World) (points : App.Points) (k : nat) :
  App.reachable N w -> App.draws rand -> App.pointsRef w = Some points ->
  qualifies data w -> (k < N)%nat ->
  HandData.grabbing data = false -> ~ engineTension data > 0.5 ->
  (forall a, (a < 3)%nat ->
     read (App.positions points) (k * 3 + a) = read (targetsOf w) (k * 3 + a)) ->
  originDistance (App.positions points) k <> 0 ->
  let d := originDistance (App.positions points) k in
  let w1 := App.tick N rand' (App.handleHandUpdate N rand data w) in
  exists P',
    positionsOf w1 = Some P' /\
    (forall a, (a < 3)%nat ->
       read P' (k * 3 + a)
       = read (App.positions points) (k * 3 + a)
         * (1 + 0.986 * force rand k / d)) /\
    1 + 1.38 / d <= 1 + 0.986 * force rand k / d.
Proof.
  intros Hw Hr Hp Hq Hk Hg Ht Hrest Hd. cbv zeta.
  pose proof (reachable_buffers N w Hw) as Hb.
  pose proof (update_buffers N rand data w Hb) as Hb'.
  destruct (update_frame N rand data w) as (Hpts & Htg & Hhand).
  destruct (update_fires N rand data w points Hp Hq) as (Hact & HV).
  destruct Hb as (LV & _ & HL).
  assert (length (App.positions points) = (N * 3)%nat) as LP.
  { apply HL. unfold positionsOf. rewrite Hp. reflexivity. }
  rewrite Hp in Hpts.
  rewrite (tick_mounted _ _ _ _ Hpts). unfold positionsOf.
  cbn [App.pointsRef fmap option_fmap option_map].
  eexists. split; [reflexivity|].
  pose proof (force_band rand k Hr) as Hf.
  pose proof (originDistance_nonneg (App.positions points) k) as Hd0.
  assert (0 < originDistance (App.positions points) k) as Hdpos by lra.
  split.
  - intros a Ha.
    destruct (animate_exploding N rand' _ points Hact) as (_ & _ & Hread & _);
      [lia | destruct Hb' as (L & _); unfold velocitiesOf in L; lia |].
    rewrite Hread. destruct (decide _); [|lia].
    rewrite Hhand. fold (targetsOf (App.handleHandUpdate N rand data w)).
    rewrite Htg. fold (velocitiesOf (App.handleHandUpdate N rand data w)).
    rewrite HV.
    destruct (loop_explode rand (App.positions points) (velocitiesOf w) N)
      as (_ & Hv); [lia|].
    rewrite (Hv k a Ha). destruct (decide (k < N)%nat); [|lia].
    unfold divisor. destruct (decide _) as [|_]; [contradiction|].
    unfold resolvedTarget. rewrite Hg. cbn [orb].
    rewrite bool_decide_eq_false_2 by exact Ht.
    rewrite <- (Hrest a Ha).
    unfold explodingPosition, CONFIG.lerpSpeed, Rdiv. cbv zeta.
    set (q := read (App.positions points) (k * 3 + a)
              * / originDistance (App.positions points) k * force rand k).
    replace (0.986 * force rand k * / originDistance (App.positions points) k)
      with (0.986 * (force rand k * / originDistance (App.positions points) k))
      by lra.
    rewrite Rmult_plus_distr_l, Rmult_1_r.
    replace (read (App.positions points) (k * 3 + a)
             * (0.986 * (force rand k
                         * / originDistance (App.positions points) k)))
      with (0.986 * q) by (unfold q; nra).
    lra.
  - apply Rplus_le_compat_l. unfold Rdiv.
    apply Rmult_le_compat_r; [left; apply Rinv_0_lt_compat; exact Hdpos|lra].
Qed.

Lemma clap_throws_outward_witness :
  App.reachable 1 mountedShape /\ qualifies clapData mountedShape /\
  exists P',
    positionsOf
      (App.tick 1 (fun _ => 0.5)
         (App.handleHandUpdate 1 (fun _ => 0.5) clapData mountedShape))
    = Some P' /\
    (forall a, (a < 3)%nat ->
       read P' (0 * 3 + a)
       = read [1; 0; 0] (0 * 3 + a)
         * (1 + 0.986 * force (fun _ => 0.5) 0 / originDistance [1; 0; 0] 0)) /\
    1 + 1.38 / originDistance [1; 0; 0] 0
    <= 1 + 0.986 * force (fun _ => 0.5) 0 / originDistance [1; 0; 0] 0.
Proof.
  assert (App.reachable 1 mountedShape) as Hw.
  { apply (App.reachable_step 1 (App.Mount [1; 0; 0])).
    - apply App.reachable_initial. reflexivity.
    - reflexivity. }
  assert (qualifies clapData mountedShape) as Hq.
  { unfold qualifies, clapData. cbn. repeat split; lra. }
  split; [exact Hw|]. split; [exact Hq|].
  apply (clap_throws_outward 1 (fun _ => 0.5) (fun _ => 0.5) clapData
           mountedShape unitPoints 0 Hw half_is_draw eq_refl Hq
           (Nat.lt_0_succ 0) eq_refl).
  - unfold engineTension, clapData. cbn. lra.
  - intros a Ha. reflexivity.
  - change (App.positions unitPoints) with [1; 0; 0].
    rewrite unit_distance. exact R1_neq_R0.
Defined.

(** ** The frame loop and the whole pipeline *)

(** X15.  The frame loop processes a video frame once: a call that
    finds the video time of the previous processed call leaves the
    tracker as it is and emits nothing, whatever the detector would
    return, and asks for the next animation frame.  Without a landmarker
    or a video element the call does nothing and does not ask for the
    next frame. *)
Theorem repeated_video_time_is_skipped (currentTime t1 t2 : R)
    (results1 results2 : option (list Hand)) (t : Webcam.Tracker) :
  let first := Webcam.predictWebcam true currentTime t1 results1 t in
  let tracker1 := fst (fst first) in
  Webcam.lastVideoTime tracker1 = currentTime /\
  Webcam.predictWebcam true currentTime t2 results2 tracker1
  = (tracker1, None, true) /\
  (Webcam.lastVideoTime t <> currentTime ->
   first
   = (Webcam.mkTracker currentTime
        (fst (HandTracker.processResults results1 t1 (Webcam.refs t))),
      Some (snd (HandTracker.processResults results1 t1 (Webcam.refs t))),
      true)) /\
  Webcam.predictWebcam false currentTime t1 results1 t = (t, None, false).
Proof.
  cbv zeta. unfold Webcam.predictWebcam. cbn [negb].
  destruct (decide (Webcam.lastVideoTime t <> currentTime)) as [Hne|He].
  - destruct (HandTracker.processResults results1 t1 (Webcam.refs t))
      as [refs' data]. cbn [fst snd Webcam.lastVideoTime].
    destruct (decide (currentTime <> currentTime)) as [H|_];
      [contradiction|].
    repeat split; reflexivity.
  - cbn [fst snd].
    destruct (decide (Webcam.lastVideoTime t <> currentTime)) as [H|_];
      [contradiction|].
    assert (Webcam.lastVideoTime t = currentTime) as Heq.
    { destruct (decide (Webcam.lastVideoTime t = currentTime)); tauto. }
    repeat split; try reflexivity; try exact Heq. intros H. contradiction.
Qed.

Lemma decayed_core s : coreInRange s -> coreInRange (decayed s).
Proof.
  unfold coreInRange, decayed, unitInterval, signedUnit.
  cbn [Smoothed.expansion Smoothed.tension Smoothed.rotation Smoothed.twist
       Smoothed.velocity].
  intros (He & Ht & Hw & Hr & Hv).
  split; [apply lerp_between; lra|]. split; [apply lerp_between; lra|].
  split; [apply lerp_between; lra|]. split; apply lerp_between; lra.
Qed.

Lemma nextSmoothed_core h l timestamp refs :
  coreInRange (HandTracker.smoothedRef refs) ->
  coreInRange (nextSmoothed (h :: l) timestamp refs).
Proof.
  intros (He & Ht & Hw & Hr & Hv).
  pose proof (rawExpansion_unit (h :: l)) as H1.
  pose proof (rawTension_unit h l) as H2.
  pose proof (rawTwist_unit (h :: l) (HandTracker.prevFrameRef refs)) as H3.
  pose proof (rawRotation_signed (h :: l) (HandTracker.prevFrameRef refs)) as H4.
  pose proof (nextVelocity_unit (h :: l) timestamp refs Hv) as H5.
  unfold coreInRange, nextSmoothed, unitInterval, signedUnit in *.
  cbn [Smoothed.expansion Smoothed.tension Smoothed.rotation Smoothed.twist
       Smoothed.velocity].
  unfold HandTracker.smoothingSpeed.
  split; [apply lerp_between; lra|]. split; [apply lerp_between; lra|].
  split; [apply lerp_between; lra|]. split; [apply lerp_between; lra|].
  exact H5.
Qed.

Lemma processResults_core results timestamp refs :
  coreInRange (HandTracker.smoothedRef refs) ->
  coreInRange
    (HandTracker.smoothedRef
       (fst (HandTracker.processResults results timestamp refs))) /\
  signalCoreInRange (snd (HandTracker.processResults results timestamp refs)).
Proof.
  intros Hs. destruct results as [[|h l]|].
  - rewrite processResults_absent by (right; reflexivity).
    cbn [fst snd HandTracker.smoothedRef]. split; apply decayed_core, Hs.
  - rewrite processResults_present. cbn [fst snd HandTracker.smoothedRef].
    split; apply nextSmoothed_core, Hs.
  - rewrite processResults_absent by (left; reflexivity).
    cbn [fst snd HandTracker.smoothedRef]. split; apply decayed_core, Hs.
Qed.

Lemma initial_core : coreInRange (HandTracker.smoothedRef HandTracker.initial).
Proof.
  unfold coreInRange, unitInterval, signedUnit. cbn. repeat split; lra.
Qed.

(** X16.  Whatever the landmarks (inside the image or not), over any run
    of frames started from smoothed values in range every emitted
    signal has expansion, tension, twist and velocity in [0, 1] and
    rotation in [-1, 1]: these five never rest on the landmarks being
    normalized (the center does: it is not clamped). *)
Theorem core_signal_bounds (frames : list (option (list Hand) * R))
    (refs : HandTracker.Refs) :
  coreInRange (HandTracker.smoothedRef refs) ->
  coreInRange (HandTracker.smoothedRef (fst (HandTracker.run frames refs))) /\
  Forall signalCoreInRange (snd (HandTracker.run frames refs)).
Proof.
  revert refs. induction frames as [|[results ts] rest IH]; intros refs Hs.
  - split; [exact Hs|constructor].
  - rewrite run_cons. cbn [fst snd].
    destruct (processResults_core results ts refs Hs) as (Hs' & Hd).
    destruct (IH _ Hs') as (Hs'' & Hall).
    split; [exact Hs''|constructor; assumption].
Qed.

Lemma core_signal_bounds_witness :
  coreInRange (HandTracker.smoothedRef HandTracker.initial) /\
  Forall signalCoreInRange
    (snd (HandTracker.run [(Some [outsideHand], 1000); (None, 1016)]
            HandTracker.initial)).
Proof.
  split; [exact initial_core|].
  exact (proj2 (core_signal_bounds [(Some [outsideHand], 1000); (None, 1016)]
                  HandTracker.initial initial_core)).
Defined.

Lemma update_scale_spin N rand data w :
  scaleOf (App.handleHandUpdate N rand data w) = scaleOf w /\
  spinOf (App.handleHandUpdate N rand data w) = spinOf w /\
  handOf (App.handleHandUpdate N rand data w) = data.
Proof.
  unfold App.handleHandUpdate, scaleOf, spinOf, handOf.
  destruct (App.pointsRef w); [destruct (App.clap _ _)|];
    repeat split; reflexivity.
Qed.

Lemma tick_scale_spin N rand w :
  signalCoreInRange (handOf w) ->
  0.5 <= scaleOf w <= 2.5 -> - spinBound <= spinOf w <= spinBound ->
  0.5 <= scaleOf (App.tick N rand w) <= 2.5 /\
  - spinBound <= spinOf (App.tick N rand w) <= spinBound.
Proof.
  intros (He & _ & _ & Hr & _) Hs Hv.
  destruct (App.pointsRef w) as [p|] eqn:Hp.
  2:{ rewrite tick_unmounted by exact Hp. split; assumption. }
  rewrite (tick_mounted _ _ _ _ Hp).
  unfold scaleOf, spinOf, handOf, spinBound, unitInterval, signedUnit in *.
  cbn [App.stateRef].
  destruct (animate_scale N rand (App.stateRef w) p) as (-> & _).
  pose proof (animate_orientation_present N rand (App.stateRef w) p) as Hpres.
  pose proof (animate_orientation_absent N rand (App.stateRef w) p) as Habs.
  unfold targetScale, CONFIG.gestureResponseSpeed.
  destruct (HandData.isPresent (App.hand (App.stateRef w))).
  - destruct (Hpres eq_refl) as (-> & _). split; lra.
  - destruct (Habs eq_refl) as (-> & _). split; lra.
Qed.

Lemma step_steady N e s : steady s -> steady (Wiring.step N e s).
Proof.
  intros (Hc & Hh & Hs & Hv).
  destruct e as [a | a | results ts rand | rand]; cbn [Wiring.step].
  - exact (conj Hc (conj Hh (conj Hs Hv))).
  - exact (conj Hc (conj Hh (conj Hs Hv))).
  - destruct (processResults_core results ts (Wiring.tracker s) Hc)
      as (Hc' & Hd).
    destruct (HandTracker.processResults results ts (Wiring.tracker s))
      as [refs' data]. cbn [fst snd] in *.
    destruct (update_scale_spin N rand data (Wiring.world s))
      as (Hs' & Hv' & Hh').
    unfold steady. cbn [Wiring.tracker Wiring.world].
    rewrite Hs', Hv', Hh'. exact (conj Hc' (conj Hd (conj Hs Hv))).
  - destruct (tick_scale_spin N rand (Wiring.world s) Hh Hs Hv) as (Hs' & Hv').
    unfold steady. cbn [Wiring.tracker Wiring.world].
    unfold handOf in *. rewrite tick_hand.
    exact (conj Hc (conj Hh (conj Hs' Hv'))).
Qed.

(** X17.  The whole pipeline, from the first render on: whatever the
    video frames contain and however frames, ticks, mounts and shape
    changes interleave, the signal the engine holds has expansion,
    tension, twist and velocity in [0, 1] and rotation in [-1, 1], the
    scale of the cloud stays in [0.5, 2.5] and the spin accumulator
    within [-0.1725, 0.1725]. *)
Theorem pipeline_keeps_scale_and_spin (N : nat)
    (generatedTargets : Float32Array) (events : list Wiring.Event) :
  let s := Wiring.run N events (Wiring.initial N generatedTargets) in
  signalCoreInRange (handOf (Wiring.world s)) /\
  0.5 <= scaleOf (Wiring.world s) <= 2.5 /\
  - spinBound <= spinOf (Wiring.world s) <= spinBound.
Proof.
  cbv zeta.
  assert (steady (Wiring.initial N generatedTargets)) as H0.
  { unfold steady, Wiring.initial, scaleOf, spinOf, handOf, spinBound,
      signalCoreInRange, unitInterval, signedUnit.
    cbn. split; [exact initial_core|]. repeat split; lra. }
  assert (forall s, steady s -> steady (Wiring.run N events s)) as Hrun.
  { unfold Wiring.run. induction events as [|e es IH]; intros s Hs;
      [exact Hs|]. cbn [fold_left]. apply IH, step_steady, Hs. }
  destruct (Hrun _ H0) as (_ & Hh & Hs & Hv).
  exact (conj Hh (conj Hs Hv)).
Qed.

Lemma legacy_tension_above hand :
  HandTracker.handTension hand <= Legacy.handTension hand <= 1.
Proof.
  unfold HandTracker.handTension, Legacy.handTension. cbv zeta.
  rewrite mean_tip_distance.
  assert (0 <= meanTipDistance hand) as Hd.
  { unfold meanTipDistance.
    pose proof (fingerDistance_nonneg hand 4).
    pose proof (fingerDistance_nonneg hand 8).
    pose proof (fingerDistance_nonneg hand 12).
    pose proof (fingerDistance_nonneg hand 16).
    pose proof (fingerDistance_nonneg hand 20). lra. }
  clamp_all.
Qed.

Lemma legacy_total_above landmarks a b :
  a <= b ->
  fst (fold_left
         (fun acc hand =>
            let t := HandTracker.handTension hand in
            (fst acc + t, if decide (t > 0.6) then S (snd acc) else snd acc))
         landmarks (a, 0%nat))
  <= fold_left (fun total hand => total + Legacy.handTension hand) landmarks b
  <= b + INR (length landmarks).
Proof.
  generalize 0%nat. revert a b.
  induction landmarks as [|h l IH]; intros a b c Hab.
  - cbn. lra.
  - cbn [fold_left fst snd length]. rewrite S_INR.
    pose proof (legacy_tension_above h) as Ht.
    match goal with |- context [fold_left _ l (?a', ?c')] =>
      specialize (IH a' (b + Legacy.handTension h) c') end.
    cbv zeta in IH. lra.
Qed.

(** X21.  The stateless extractor this one replaced emits, for a frame
    with hands, the very expansion and mirrored center this extractor
    takes as its raw values: the new expansion and center are the blend
    at 0.15 of the stored values toward the old outputs.  The old
    tension used the band [0.15, 0.40] where the new one uses
    [0.12, 0.32], so the new raw tension is never above the old tension;
    both lie in [0, 1].  Without hands the old extractor emitted the
    fixed neutral signal at once. *)
Theorem legacy_extractor (h : Hand) (l : list Hand) (timestamp : R)
    (refs : HandTracker.Refs) :
  let landmarks := h :: l in
  let old := Legacy.processResults (Some landmarks) in
  let new := snd (HandTracker.processResults (Some landmarks) timestamp refs) in
  let s := HandTracker.smoothedRef refs in
  (HandData.expansion new
   = HandTracker.lerp (Smoothed.expansion s) (Legacy.expansion old) 0.15 /\
   HandData.centerX new
   = HandTracker.lerp (Smoothed.centerX s) (Legacy.centerX old) 0.15 /\
   HandData.centerY new
   = HandTracker.lerp (Smoothed.centerY s) (Legacy.centerY old) 0.15) /\
  (HandTracker.rawTension landmarks <= Legacy.tension old /\
   0 <= Legacy.tension old <= 1 /\ 0 <= Legacy.expansion old <= 1) /\
  Legacy.isPresent old = true /\
  Legacy.processResults None = Legacy.mkHandData 0.5 0 false 0 0 /\
  Legacy.processResults (Some []) = Legacy.mkHandData 0.5 0 false 0 0.
Proof.
  cbv zeta. rewrite processResults_present. cbn [snd].
  unfold emitted, nextSmoothed. cbv zeta. cbn [HandData.expansion
    HandData.centerX HandData.centerY Smoothed.expansion Smoothed.centerX
    Smoothed.centerY].
  unfold Legacy.processResults.
  assert (snd (HandTracker.centerPass (h :: l)) = length (h :: l)) as Hcount
    by exact (proj1 (centerPass_fold (h :: l) 0 0 0%nat)).
  unfold meanX, meanY.
  destruct (HandTracker.centerPass (h :: l)) as [[cx cy] count] eqn:Ec.
  cbn [fst snd] in *.
  destruct (decide (0 < count)%nat) as [_|Hn]; [|cbn in Hcount; lia].
  subst count.
  cbn [Legacy.expansion Legacy.centerX Legacy.centerY Legacy.tension
       Legacy.isPresent].
  split; [|split; [|split; [reflexivity|split; reflexivity]]].
  - split; [|split; reflexivity].
    unfold HandTracker.smoothingSpeed, HandTracker.rawExpansion.
    destruct l as [|h2 [|h3 l']]; reflexivity.
  - pose proof (legacy_total_above (h :: l) 0 0 (Rle_refl 0)) as Ht.
    pose proof (rawTension_unit h l) as Hu. unfold unitInterval in Hu.
    unfold HandTracker.rawTension, HandTracker.tensionPass in *.
    unfold Legacy.totalTension.
    assert (0 < INR (length (h :: l))) as Hlen
      by (apply lt_0_INR; cbn; lia).
    set (n := INR (length (h :: l))) in *.
    set (a := fst _) in *.
    set (b := fold_left (fun total hand => total + _) _ _) in *.
    assert (a / n <= b / n) as Hab.
    { unfold Rdiv. apply Rmult_le_compat_r; [|lra].
      apply Rlt_le, Rinv_0_lt_compat, Hlen. }
    assert (b / n <= 1) as Hb1.
    { apply (Rmult_le_reg_r n); [exact Hlen|].
      unfold Rdiv. rewrite Rmult_assoc, Rinv_l by lra. lra. }
    split; [exact Hab|]. split; [lra|].
    destruct l as [|h2 [|h3 l']]; try lra. clamp_all.
Qed.

(** ** The shape generator *)

Lemma store_inv shape count rand i positions :
  (i < count)%nat ->
  generatorInvariant shape count rand i positions ->
  generatorInvariant shape count rand (S i)
    (Generator.store i (Generator.point shape count i (rand i)) positions).
Proof.
  intros Hi (L & Hread).
  destruct (Generator.point shape count i (rand i)) as [[x y] z] eqn:Hp.
  unfold Generator.store. cbv zeta. split.
  - rewrite !length_insert. exact L.
  - intros k Hk. destruct (decide (k = i)) as [->|Hne].
    + destruct (decide (i < S i)%nat); [|lia]. rewrite Hp.
      rewrite (read_insert_ne _ (i * 3 + 2)%nat (i * 3)%nat) by lia.
      rewrite (read_insert_ne _ (i * 3 + 1)%nat (i * 3)%nat) by lia.
      rewrite (read_insert_eq _ (i * 3)%nat) by lia.
      rewrite (read_insert_ne _ (i * 3 + 2)%nat (i * 3 + 1)%nat) by lia.
      rewrite (read_insert_eq _ (i * 3 + 1)%nat)
        by (rewrite length_insert; lia).
      rewrite (read_insert_eq _ (i * 3 + 2)%nat)
        by (rewrite !length_insert; lia).
      reflexivity.
    + rewrite !read_insert_ne by lia. rewrite (Hread k Hk).
      repeat (destruct (decide _); try lia); reflexivity.
Qed.

Lemma generateParticles_spec shape count rand :
  generatorInvariant shape count rand count
    (Generator.generateParticles shape count rand).
Proof.
  unfold Generator.generateParticles.
  apply (for_loop_ind (generatorInvariant shape count rand)).
  - split; [apply length_replicate|]. intros i Hi.
    rewrite !read_replicate. destruct (decide _); [lia|reflexivity].
  - intros i s Hi. apply store_inv. exact Hi.
Qed.

Lemma within_mul a b x y : within a x -> within b y -> within (a * b) (x * y).
Proof. unfold within. intros Hx Hy. split; nra. Qed.

Lemma within_add a b x y : within a x -> within b y -> within (a + b) (x + y).
Proof. unfold within. intros Hx Hy. split; lra. Qed.

Lemma within_sub a b x y : within a x -> within b y -> within (a + b) (x - y).
Proof. unfold within. intros Hx Hy. split; lra. Qed.

Lemma within_le a b x : within a x -> a <= b -> within b x.
Proof. unfold within. intros Hx Hab. split; lra. Qed.

Lemma within_sin t : within 1 (sin t).
Proof. apply SIN_bound. Qed.

Lemma within_cos t : within 1 (cos t).
Proof. apply COS_bound. Qed.

(** Bounds an expression from the bounds of its parts: products, sums
    and differences are split, sines and cosines are within 1, and any
    other part needs a [within] fact in the context or is a constant. *)
Ltac bound_of e :=
  lazymatch goal with
  | H : within _ e |- _ => idtac
  | _ =>
    lazymatch e with
    | ?a * ?b =>
        bound_of a; bound_of b;
        lazymatch goal with
        | Ha : within ?A a |- _ =>
            lazymatch goal with
            | Hb : within ?B b |- _ => pose proof (within_mul A B a b Ha Hb)
            end
        end
    | ?a + ?b =>
        bound_of a; bound_of b;
        lazymatch goal with
        | Ha : within ?A a |- _ =>
            lazymatch goal with
            | Hb : within ?B b |- _ => pose proof (within_add A B a b Ha Hb)
            end
        end
    | ?a - ?b =>
        bound_of a; bound_of b;
        lazymatch goal with
        | Ha : within ?A a |- _ =>
            lazymatch goal with
            | Hb : within ?B b |- _ => pose proof (within_sub A B a b Ha Hb)
            end
        end
    | sin ?t => pose proof (within_sin t)
    | cos ?t => pose proof (within_cos t)
    | _ =>
        first [ assert (within e e) by (unfold within; lra)
              | assert (within (- e) e) by (unfold within; lra) ]
    end
  end.

Ltac in_cube :=
  lazymatch goal with
  | |- within ?b ?e =>
      bound_of e;
      match goal with
      | H : within ?B e |- _ =>
          apply (within_le B b e H); unfold within in *; lra
      end
  end.

Lemma powr_unit d e : 0 <= d < 1 -> 0 < e -> 0 <= MathFns.powr d e < 1.
Proof.
  intros Hd He. unfold MathFns.powr.
  destruct (decide (d = 0)) as [_|Hne]; [lra|].
  assert (0 < d) as Hpos by lra. unfold Rpower.
  assert (ln d < 0) as Hln.
  { rewrite <- ln_1. apply ln_increasing; lra. }
  split; [left; apply exp_pos|].
  rewrite <- exp_0. apply exp_increasing. nra.
Qed.

Lemma cbrt_unit d : 0 <= d < 1 -> 0 <= MathFns.cbrt d < 1.
Proof. intros Hd. apply powr_unit; [exact Hd|lra]. Qed.

Lemma sqrt_unit d : 0 <= d < 1 -> 0 <= Math.sqrt d < 1.
Proof.
  intros Hd. unfold Math.sqrt. split; [apply sqrt_pos|].
  rewrite <- sqrt_1. apply sqrt_lt_1_alt. lra.
Qed.

Lemma floor_spec v :
  MathFns.floor v <= v < MathFns.floor v + 1 /\
  exists z : Z, MathFns.floor v = IZR z.
Proof.
  unfold MathFns.floor. destruct (base_Int_part v) as (H1 & H2).
  split; [lra|]. eexists. reflexivity.
Qed.

Lemma floor_nonneg v : 0 <= v -> 0 <= MathFns.floor v.
Proof.
  intros Hv. destruct (floor_spec v) as (Hf & z & Hz). rewrite Hz in *.
  assert (-1 < IZR z) as H by lra.
  apply lt_IZR in H. apply IZR_le. lia.
Qed.

Lemma floor_quarter d :
  0 <= d < 1 -> 0 <= MathFns.floor (d * 4) <= 3.
Proof.
  intros Hd. split; [apply floor_nonneg; lra|].
  destruct (floor_spec (d * 4)) as (Hf & z & Hz). rewrite Hz in *.
  assert (IZR z < 4) as H by lra.
  apply lt_IZR in H. apply IZR_le. lia.
Qed.

Lemma fmod_range a b : 0 <= a -> 0 < b -> 0 <= MathFns.fmod a b < b.
Proof.
  intros Ha Hb. unfold MathFns.fmod.
  destruct (floor_spec (a / b)) as (Hf & _).
  assert (b * (a / b) = a) as Hq by (field; lra).
  split; nra.
Qed.

Lemma ratio_unit i count : (i < count)%nat -> 0 <= INR i / INR count < 1.
Proof.
  intros Hi. assert (0 < INR count) as Hc by (apply lt_0_INR; lia).
  assert (0 <= INR i) as H0 by apply pos_INR.
  assert (INR i < INR count) as Hlt by (apply lt_INR; exact Hi).
  assert (0 < / INR count) as Hinv by (apply Rinv_0_lt_compat; exact Hc).
  assert (INR count * / INR count = 1) as H1 by (apply Rinv_r; lra).
  unfold Rdiv. split; nra.
Qed.

Lemma body_radius_unit b : within 1 (Math.sqrt (1 - (b * 2 - 1) * ((b * 2 - 1) * 1))).
Proof.
  unfold within, Math.sqrt. split.
  - pose proof (sqrt_pos (1 - (b * 2 - 1) * ((b * 2 - 1) * 1))). lra.
  - pose proof (Rle_0_sqr (b * 2 - 1)) as H. unfold Rsqr in H.
    pose proof (sqrt_le_1_alt (1 - (b * 2 - 1) * ((b * 2 - 1) * 1)) 1) as Hs.
    rewrite sqrt_1 in Hs. apply Hs. lra.
Qed.

Lemma lemniscate_unit a s : within 1 a -> within 3 (3 * a / (1 + s * s)).
Proof.
  intros Ha. pose proof (Rle_0_sqr s) as Hs. unfold Rsqr in Hs.
  assert (0 < / (1 + s * s) <= 1) as Hq.
  { split; [apply Rinv_0_lt_compat; lra|].
    pose proof (Rinv_le_contravar 1 (1 + s * s)) as Hi.
    rewrite Rinv_1 in Hi. apply Hi; lra. }
  unfold within, Rdiv in *. split; nra.
Qed.

Lemma wave_grid i count :
  (i < count)%nat ->
  let gridSize := Math.sqrt (INR count) in
  0 <= MathFns.fmod (INR i) gridSize / gridSize < 1 /\
  0 <= MathFns.floor (INR i / gridSize) / gridSize < 1.
Proof.
  intros Hi. cbv zeta.
  assert (0 < INR count) as Hc by (apply lt_0_INR; lia).
  assert (0 <= INR i) as H0 by apply pos_INR.
  assert (INR i < INR count) as Hlt by (apply lt_INR; exact Hi).
  assert (0 < Math.sqrt (INR count)) as Hg by (apply sqrt_lt_R0; exact Hc).
  assert (Math.sqrt (INR count) * Math.sqrt (INR count) = INR count) as Hsq
    by (apply sqrt_sqrt; lra).
  set (g := Math.sqrt (INR count)) in *.
  assert (0 < / g) as Hinv by (apply Rinv_0_lt_compat; exact Hg).
  assert (g * / g = 1) as H1 by (apply Rinv_r; lra).
  split.
  - destruct (fmod_range (INR i) g H0 Hg) as (Hm0 & Hm1).
    unfold Rdiv. split; nra.
  - assert (0 <= INR i / g) as Hq by (unfold Rdiv; nra).
    pose proof (floor_nonneg _ Hq) as Hf0.
    destruct (floor_spec (INR i / g)) as ((Hf1 & _) & _).
    assert (INR i / g < g) as Hlt'.
    { unfold Rdiv. apply (Rmult_lt_reg_r g); [exact Hg|].
      rewrite Rmult_assoc, (Rmult_comm (/ g)), H1. lra. }
    unfold Rdiv in *. split; nra.
Qed.

Ltac draw_facts draw Hd :=
  let go k :=
    (pose proof (Hd k);
     assert (within 1 (draw k)) by (unfold within; specialize (Hd k); lra);
     assert (within 0.5 (draw k - 0.5))
       by (unfold within; specialize (Hd k); lra);
     assert (within 1 (MathFns.cbrt (draw k)))
       by (unfold within; pose proof (cbrt_unit (draw k) (Hd k)); lra);
     assert (within 1 (Math.sqrt (draw k)))
       by (unfold within; pose proof (sqrt_unit (draw k) (Hd k)); lra)) in
  go 0%nat; go 1%nat; go 2%nat; go 3%nat; go 4%nat; go 5%nat; go 6%nat.

Lemma point_in_cube shape count i draw :
  unitDraws draw -> (i < count)%nat ->
  pointWithin 5 (Generator.point shape count i draw).
Proof.
  intros Hd Hi. unfold pointWithin.
  pose proof (ratio_unit i count Hi) as Ht.
  draw_facts draw Hd.
  unfold Generator.point, Generator.random, Generator.TWO_PI, Math.pow.
  cbv zeta. cbn [pow].
  destruct shape as [[]|]; cbn [fst snd].
  - (* SPHERE *) (split; [|split]); in_cube.
  - (* HEART *)
    assert (within 1 (draw 4%nat * (1 - -1) + -1)) by (unfold within; lra).
    (split; [|split]); in_cube.
  - (* FLOWER *)
    assert (within 2 (draw 1%nat * 2)) by (unfold within; lra).
    assert (within 1 (1 - draw 1%nat * 2 / 2)) by (unfold within; lra).
    assert (within 2.5 (cos (4 * (draw 0%nat * (PI * 2))) + 1.5)).
    { pose proof (COS_bound (4 * (draw 0%nat * (PI * 2)))).
      unfold within; lra. }
    (split; [|split]); in_cube.
  - (* SATURN *)
    assert (within 4.5 (draw 3%nat * (4.5 - 2.2) + 2.2))
      by (unfold within; lra).
    destruct (decide _); cbn [fst snd]; (split; [|split]); in_cube.
  - (* BUDDHA *)
    assert (within 2.5 (draw 5%nat * 2 - 2.5)) by (unfold within; lra).
    assert (within 1.5 (draw 5%nat * 2 - 0.5)) by (unfold within; lra).
    assert (within 2.7 (2.5 + draw 4%nat * 0.2)) by (unfold within; lra).
    repeat (destruct (decide _)); cbn [fst snd]; (split; [|split]); in_cube.
  - (* FIREWORKS *)
    assert (within 1 (MathFns.powr (draw 2%nat) 0.5)).
    { pose proof (powr_unit (draw 2%nat) 0.5 (Hd 2%nat)). unfold within; lra. }
    (split; [|split]); in_cube.
  - (* DNA *)
    assert (within 5 (INR i / INR count * 10 - 5)) by (unfold within; lra).
    (split; [|split]); in_cube.
  - (* GALAXY *)
    pose proof (powr_unit (draw 3%nat) 0.7 (Hd 3%nat)) as Hs.
    assert (within 4.5 (MathFns.powr (draw 3%nat) 0.7 * 4 + 0.5))
      by (unfold within; lra).
    assert (within 0.9 (0.3 + MathFns.powr (draw 3%nat) 0.7 * 4 * 0.15))
      by (unfold within; lra).
    assert (within 1.4 (1 + MathFns.powr (draw 3%nat) 0.7 * 4 * 0.1))
      by (unfold within; lra).
    destruct (decide _); cbn [fst snd]; (split; [|split]); in_cube.
  - (* TORNADO *)
    assert (within 3.1 (0.3 + draw 2%nat * 2.5 + draw 4%nat * 0.3))
      by (unfold within; lra).
    assert (within 3 (draw 2%nat * 6 - 3)) by (unfold within; lra).
    (split; [|split]); in_cube.
  - (* LOTUS *)
    pose proof (floor_quarter (draw 2%nat) (Hd 2%nat)) as Hl.
    assert (within 2.5 (2.5 - MathFns.floor (draw 2%nat * 4) * 0.4))
      by (unfold within; lra).
    assert (within 0.6 (0.6 - MathFns.floor (draw 2%nat * 4) * 0.1))
      by (unfold within; lra).
    assert (within 1 (1 - MathFns.floor (draw 2%nat * 4) * 0.2))
      by (unfold within; lra).
    (split; [|split]); in_cube.
  - (* INFINITY *)
    set (infT := INR i / INR count * (PI * 2) * 2).
    assert (within 3 (3 * cos infT / (1 + sin infT * sin infT)))
      by (apply lemniscate_unit, within_cos).
    assert (within 3 (3 * sin infT * cos infT / (1 + sin infT * sin infT))).
    { replace (3 * sin infT * cos infT) with (3 * (sin infT * cos infT))
        by ring.
      apply lemniscate_unit.
      pose proof (within_mul 1 1 _ _ (within_sin infT) (within_cos infT)) as Hsc.
      rewrite Rmult_1_r in Hsc. exact Hsc. }
    (split; [|split]); in_cube.
  - (* PHOENIX *)
    pose proof (powr_unit (draw 3%nat) 0.5 (Hd 3%nat)) as Hf.
    assert (within 1 (MathFns.powr (draw 3%nat) 0.5))
      by (unfold within; lra).
    assert (within 4 (-1 - MathFns.powr (draw 3%nat) 0.5 * 3))
      by (unfold within; lra).
    assert (within 1 (1 - draw 3%nat)) by (unfold within; lra).
    assert (within 1.5 (draw 3%nat * 2 - 0.5)) by (unfold within; lra).
    pose proof (body_radius_unit (draw 3%nat)).
    repeat (destruct (decide _)); cbn [fst snd]; (split; [|split]); in_cube.
  - (* WAVE *)
    destruct (wave_grid i count Hi) as (Hx & Hz). cbv zeta in Hx, Hz.
    set (gridX := MathFns.fmod (INR i) (Math.sqrt (INR count))
                  / Math.sqrt (INR count)) in *.
    set (gridZ := MathFns.floor (INR i / Math.sqrt (INR count))
                  / Math.sqrt (INR count)) in *.
    assert (within 0.5 (gridX - 0.5)) by (unfold within; lra).
    assert (within 0.5 (gridZ - 0.5)) by (unfold within; lra).
    (split; [|split]); in_cube.
  - (* default *) (split; [|split]); in_cube.
Qed.

(** X18.  [generateParticles(shape, count)] returns exactly [count * 3]
    numbers, whatever the shape and the draws, which is what the engine
    asks of a generated array; particle [i] has its point at the indices
    [3i], [3i + 1] and [3i + 2], and no index keeps the 0 the array was
    allocated with unless the point has it. *)
Theorem generated_layout (shape : option ShapeType) (count : nat)
    (rand : nat -> nat -> R) :
  let positions := Generator.generateParticles shape count rand in
  shapes.generated count positions /\
  App.admissible count (App.Mount positions) /\
  App.admissible count (App.ShapeChange positions) /\
  forall i, (i < count)%nat ->
    (read positions (i * 3), read positions (i * 3 + 1),
     read positions (i * 3 + 2))
    = Generator.point shape count i (rand i).
Proof.
  cbv zeta. destruct (generateParticles_spec shape count rand) as (L & Hread).
  split; [exact L|]. split; [exact L|]. split; [exact L|].
  intros i Hi. rewrite (Hread i Hi). destruct (decide _); [reflexivity|lia].
Qed.

(** X19.  With draws in [0, 1) every coordinate of every generated
    cloud, for each of the thirteen shapes and for the default branch,
    lies in [-5, 5]. *)
Theorem generated_cloud_in_cube (shape : option ShapeType) (count : nat)
    (rand : nat -> nat -> R) (j : nat) :
  allUnitDraws rand -> (j < count * 3)%nat ->
  -5 <= read (Generator.generateParticles shape count rand) j <= 5.
Proof.
  intros Hr Hj.
  destruct (generateParticles_spec shape count rand) as (_ & Hread).
  assert (j / 3 < count)%nat as Hi by (apply Nat.Div0.div_lt_upper_bound; lia).
  specialize (Hread (j / 3)%nat Hi).
  destruct (decide (j / 3 < count)%nat); [|lia].
  pose proof (point_in_cube shape count (j / 3) (rand (j / 3)%nat)
                (Hr (j / 3)%nat) Hi) as (Hx & Hy & Hz).
  rewrite <- Hread in Hx, Hy, Hz. cbn [fst snd] in Hx, Hy, Hz.
  pose proof (Nat.div_mod_eq j 3) as Hdm.
  assert (j mod 3 < 3)%nat as Hm by (apply Nat.mod_upper_bound; lia).
  unfold within in Hx, Hy, Hz. clear Hread Hi l.
  remember (j / 3)%nat as i eqn:Ei. remember (j mod 3)%nat as a eqn:Ea.
  clear Ei Ea Hj.
  assert (j = (i * 3)%nat \/ j = (i * 3 + 1)%nat \/ j = (i * 3 + 2)%nat)
    as [He | [He | He]] by lia; rewrite He; lra.
Qed.

Lemma generated_cloud_in_cube_witness :
  allUnitDraws (fun _ _ => 0.5) /\
  -5 <= read (Generator.generateParticles (Some GALAXY) 4 (fun _ _ => 0.5)) 7
     <= 5.
Proof.
  assert (allUnitDraws (fun _ _ => 0.5)) as H by (intros i k; lra).
  split; [exact H|].
  apply (generated_cloud_in_cube (Some GALAXY) 4 (fun _ _ => 0.5) 7 H). lia.
Defined.

Lemma spherical_radius r phi theta :
  (r * sin phi * cos theta) * (r * sin phi * cos theta)
  + (r * sin phi * sin theta) * (r * sin phi * sin theta)
  + (r * cos phi) * (r * cos phi) = r * r.
Proof.
  pose proof (sin2_cos2 phi) as Hp. pose proof (sin2_cos2 theta) as Ht.
  unfold Rsqr in *.
  replace ((r * sin phi * cos theta) * (r * sin phi * cos theta)
           + (r * sin phi * sin theta) * (r * sin phi * sin theta)
           + (r * cos phi) * (r * cos phi))
    with (r * r * (sin phi * sin phi
                   * (sin theta * sin theta + cos theta * cos theta)
                   + cos phi * cos phi)) by ring.
  rewrite Ht, Rmult_1_r, Hp. ring.
Qed.

(** X20.  A SPHERE point lies at distance [2.5 * cbrt d] from the
    origin and a FIREWORKS point at distance [4 * d ^ 0.5], where [d] is
    the third draw of the iteration: inside the balls of radius 2.5 and
    4 for a draw in [0, 1), and at the center for the draw 0. *)
Theorem ball_shapes (count i : nat) (draw : nat -> R) :
  unitDraws draw ->
  let norm2 := fun p : R * R * R =>
    fst (fst p) * fst (fst p) + snd (fst p) * snd (fst p) + snd p * snd p in
  let rs := 2.5 * MathFns.cbrt (draw 2%nat) in
  let rf := MathFns.powr (draw 2%nat) 0.5 * 4 in
  (norm2 (Generator.point (Some SPHERE) count i draw) = rs * rs /\
   0 <= rs < 2.5) /\
  (norm2 (Generator.point (Some FIREWORKS) count i draw) = rf * rf /\
   0 <= rf < 4) /\
  (draw 2%nat = 0 ->
   Generator.point (Some SPHERE) count i draw = (0, 0, 0) /\
   Generator.point (Some FIREWORKS) count i draw = (0, 0, 0)).
Proof.
  intros Hd. cbv zeta. unfold Generator.point. cbv zeta. cbn [fst snd].
  pose proof (cbrt_unit (draw 2%nat) (Hd 2%nat)) as Hc.
  pose proof (powr_unit (draw 2%nat) 0.5 (Hd 2%nat)) as Hp.
  split; [|split].
  - split; [apply spherical_radius|lra].
  - split; [apply spherical_radius|lra].
  - intros H0. unfold MathFns.cbrt, MathFns.powr. rewrite H0.
    destruct (decide (0 = 0)) as [_|Hn]; [|contradiction].
    rewrite !Rmult_0_r, !Rmult_0_l. split; reflexivity.
Qed.

Lemma ball_shapes_witness :
  unitDraws (fun _ => 0.5) /\
  0 <= 2.5 * MathFns.cbrt 0.5 < 2.5.
Proof.
  assert (unitDraws (fun _ => 0.5)) as H by (intros k; lra).
  split; [exact H|].
  exact (proj2 (proj1 (ball_shapes 1 0 (fun _ => 0.5) H))).
Defined.
